(** * Earth Tour server: flight-path scheduling, great-circle interpolation,
    geocoding with retry and cache, and the job life cycle.

  The development embeds the Python sources

  - [server/blender_scripts/render_flight_simple.py] (module [RenderFlightSimple]),
  - [server/blender_scripts/render_flight.py]        (module [RenderFlight]),
  - [server/app/services/renderer.py]                (module [Renderer]),
  - [server/app/services/geocoder.py]                (module [Geocoder]),
  - [server/app/models.py] and [server/app/main.py]  (module [Main]).

  Conventions.  Python [int] is [Z]; [//] is [Z.div] (both round towards
  minus infinity).  Python [float] is idealised as a real number ([R]):
  rounding is not modelled, comparisons and the library functions [sin],
  [cos], [sqrt] are the exact ones, and a division whose divisor is zero
  raises [ZeroDivisionError] as in Python.  The one exception is
  [math.asin], see [Py.asin]: there rounding decides whether the code
  divides by zero.  [str] is [string]; a
  [dict] keyed by strings is a [gmap string _]; exceptions are values of
  [exn] carried by the [result] type. *)

From Stdlib Require Import ZArith List Lia Reals Lra Psatz.
From Stdlib Require Import Ascii String Bool DecimalString.
From stdpp Require Import gmap strings.

(** ** Python values and control flow *)

Module Py.

Inductive exn : Type :=
| ZeroDivisionError
| KeyError (key : string)
| ValueError (msg : string)
| ValidationError (msg : string)
| HTTPException (status_code : Z) (detail : string)
| Exception (msg : string).

(** Decimal digits of a number, for the text of an exception. *)
Definition str_int (n : Z) : string :=
  NilEmpty.string_of_int (Z.to_int n).

(** [str(e)] for the exceptions above. *)
Definition str_exn (e : exn) : string :=
  match e with
  | ZeroDivisionError => "division by zero"
  | KeyError k => "'" +:+ k +:+ "'"
  | ValueError m => m
  | ValidationError m => m
  | HTTPException c d => str_int c +:+ ": " +:+ d
  | Exception m => m
  end.

Inductive result (A : Type) : Type :=
| Ok (a : A)
| Raise (e : exn).
Arguments Ok {A} a.
Arguments Raise {A} e.

Definition bind {A B} (m : result A) (k : A -> result B) : result B :=
  match m with
  | Ok a => k a
  | Raise e => Raise e
  end.

(** [[f(x) for x in xs]], stopping at the first exception. *)
Fixpoint mapM {A B} (f : A -> result B) (xs : list A) : result (list B) :=
  match xs with
  | [] => Ok []
  | x :: xs' =>
      bind (f x) (fun y => bind (mapM f xs') (fun ys => Ok (y :: ys)))
  end.

(** [range(n)]: empty when [n <= 0]. *)
Definition range (n : Z) : list Z :=
  map Z.of_nat (seq 0 (Z.to_nat n)).

(** [enumerate(xs)]. *)
Definition enumerate {A} (xs : list A) : list (Z * A) :=
  combine (map Z.of_nat (seq 0 (length xs))) xs.

(** [a / b] on floats (and on ints, which Python converts first). *)
Definition truediv (a b : R) : result R :=
  if Req_dec_T b 0 then Raise ZeroDivisionError else Ok (a / b)%R.

(** [a < b], [a > b] and [a == b] on floats. *)
Definition flt (a b : R) : bool := if Rlt_dec a b then true else false.
Definition fgt (a b : R) : bool := flt b a.
Definition feq (a b : R) : bool := if Req_dec_T a b then true else false.

(** [math.asin].  Its result is a double, and the largest one it returns
    is the double nearest to [PI / 2], which lies about [6.1e-17] below
    [PI / 2]: twice that value is the double nearest to [PI], whose sine is
    about [1.2e-16] and not zero.  The model keeps the exact arc sine and
    caps it just below [PI / 2], so that, as in the code, the angle between
    two points never reaches [PI]. *)
Definition asin (x : R) : R := Rmin (Ratan.asin x) (PI / 2 - 6e-17)%R.

(** [str.lower], on ASCII text: the letters [A]-[Z] move to [a]-[z], every
    other character stays. *)
Definition lower_char (c : ascii) : ascii :=
  let n := nat_of_ascii c in
  if (65 <=? n)%nat && (n <=? 90)%nat then ascii_of_nat (n + 32) else c.

Fixpoint lower (s : string) : string :=
  match s with
  | EmptyString => EmptyString
  | String c s' => String (lower_char c) (lower s')
  end.

End Py.

Notation "'let!' x ':=' m 'in' k" := (Py.bind m (fun x => k))
  (at level 10, x pattern, m at level 100, k at level 200, only parsing).

(** ** The part of Blender's [mathutils.Vector] the scripts use

  [mathutils] is an external library.  [normalized] does what Blender's
  implementation does: a vector whose squared length does not exceed
  [1e-35] is mapped to the zero vector, every other one is divided by its
  length. *)

Module Mathutils.
Local Open Scope R_scope.

Record Vector : Type := mkVector { vx : R; vy : R; vz : R }.

Definition of_tuple (p : R * R * R) : Vector :=
  let '(x, y, z) := p in mkVector x y z.

Definition add (a b : Vector) : Vector :=
  mkVector (vx a + vx b) (vy a + vy b) (vz a + vz b).
Definition sub (a b : Vector) : Vector :=
  mkVector (vx a - vx b) (vy a - vy b) (vz a - vz b).
Definition neg (a : Vector) : Vector :=
  mkVector (- vx a) (- vy a) (- vz a).
Definition scale (a : Vector) (k : R) : Vector :=
  mkVector (vx a * k) (vy a * k) (vz a * k).
Definition dot (a b : Vector) : R :=
  vx a * vx b + vy a * vy b + vz a * vz b.
Definition cross (a b : Vector) : Vector :=
  mkVector (vy a * vz b - vz a * vy b)
           (vz a * vx b - vx a * vz b)
           (vx a * vy b - vy a * vx b).
Definition length_squared (a : Vector) : R := dot a a.
Definition length (a : Vector) : R := sqrt (length_squared a).

Definition zero : Vector := mkVector 0 0 0.

Definition normalized (a : Vector) : Vector :=
  if Rlt_dec 1e-35 (length_squared a)
  then scale a (1 / length a)
  else zero.

End Mathutils.

(** ** The part of Blender's scene the scripts use

  [bpy] is an external library.  Assigning a Python [int] to an integer
  property raises [ValueError] when the value does not fit a C [int];
  [scene.frame_end] then keeps the value clamped to the frames Blender
  supports, from [MINFRAME] to [MAXFRAME]. *)

Module Bpy.
Import Py.

Definition INT_MIN : Z := (-2147483648)%Z.
Definition INT_MAX : Z := 2147483647%Z.
Definition MINFRAME : Z := 0%Z.
Definition MAXFRAME : Z := 1048574%Z.

(** [obj.prop = value] for an integer property; the result is the C [int]
    handed to the property. *)
Definition int_property (value : Z) : result Z :=
  if (value <? INT_MIN)%Z || (INT_MAX <? value)%Z
  then Raise (ValueError "value not in 'int' range")
  else Ok value.

(** [scene.frame_end = value]; the result is what [scene.frame_end] reads
    afterwards. *)
Definition set_frame_end (value : Z) : result Z :=
  let! value := int_property value in
  Ok (Z.max MINFRAME (Z.min value MAXFRAME)).

End Bpy.

(** ** [render_flight_simple.py]: the script the renderer runs *)

Module RenderFlightSimple.
Import Py Mathutils.
Local Open Scope R_scope.

(** [math.radians]. *)
Definition radians (deg : R) : R := deg * (PI / 180).

Definition latlon_to_xyz (lat lon radius : R) : R * R * R :=
  let lat_rad := radians lat in
  let lon_rad := radians lon in
  (radius * cos lat_rad * cos lon_rad,
   radius * cos lat_rad * sin lon_rad,
   radius * sin lat_rad).

(** The unit vector both branches of [great_circle_points] build from the
    start point (lines 228-230, 252-254 and 267). *)
Definition start_xyz (start_lat_rad start_lon_rad : R) : R * R * R :=
  (cos start_lat_rad * cos start_lon_rad,
   cos start_lat_rad * sin start_lon_rad,
   sin start_lat_rad).

(** Lines 235-236: the quantity under the square root of line 237.  It is
    half of one minus the dot product of the two unit vectors, hence never
    negative, and [math.sqrt] cannot raise on it. *)
Definition haversine (start_lat_rad start_lon_rad end_lat_rad end_lon_rad : R) : R :=
  let d_lon := end_lon_rad - start_lon_rad in
  let a := sin ((end_lat_rad - start_lat_rad) / 2) ^ 2 in
  let b := cos start_lat_rad * cos end_lat_rad * sin (d_lon / 2) ^ 2 in
  a + b.

(** Lines 237-241: the angle between the two points, with the clamp before
    [asin]. *)
Definition d_sigma_of (start_lat_rad start_lon_rad end_lat_rad end_lon_rad : R) : R :=
  let sin_sigma_val :=
    sqrt (haversine start_lat_rad start_lon_rad end_lat_rad end_lon_rad) in
  let sin_sigma_val := Rmax (-1) (Rmin sin_sigma_val 1) in
  2 * asin sin_sigma_val.

(** One iteration of the loop of lines 246-271. *)
Definition gcp_point (start_lat_rad start_lon_rad end_lat_rad end_lon_rad
                      d_sigma : R) (steps i : Z) : result (R * R * R) :=
  let! t := truediv (IZR i) (IZR steps) in
  let! xyz :=
    (if flt (Rabs d_sigma) 1e-10 then
       Ok (start_xyz start_lat_rad start_lon_rad)
     else
       let! A_val := truediv (sin ((1 - t) * d_sigma)) (sin d_sigma) in
       let! B_val := truediv (sin (t * d_sigma)) (sin d_sigma) in
       Ok (A_val * cos start_lat_rad * cos start_lon_rad
           + B_val * cos end_lat_rad * cos end_lon_rad,
           A_val * cos start_lat_rad * sin start_lon_rad
           + B_val * cos end_lat_rad * sin end_lon_rad,
           A_val * sin start_lat_rad + B_val * sin end_lat_rad)) in
  let '(x, y, z) := xyz in
  let mag := sqrt (x ^ 2 + y ^ 2 + z ^ 2) in
  if feq mag 0 then
    Ok (start_xyz start_lat_rad start_lon_rad)
  else
    Ok (x / mag, y / mag, z / mag).

Definition great_circle_points
    (start_lat start_lon end_lat end_lon : R) (steps : Z)
  : result (list (R * R * R)) :=
  let start_lat_rad := radians start_lat in
  let start_lon_rad := radians start_lon in
  let end_lat_rad := radians end_lat in
  let end_lon_rad := radians end_lon in
  let d_lon := end_lon_rad - start_lon_rad in
  if flt (Rabs (end_lat_rad - start_lat_rad)) 1e-10
     && flt (Rabs d_lon) 1e-10
  then
    Ok (map (fun _ => start_xyz start_lat_rad start_lon_rad) (range (steps + 1)))
  else
    let d_sigma :=
      d_sigma_of start_lat_rad start_lon_rad end_lat_rad end_lon_rad in
    mapM (gcp_point start_lat_rad start_lon_rad end_lat_rad end_lon_rad
                    d_sigma steps)
         (range (steps + 1)).

(** *** Frame budget (lines 60-63 and 285-288) *)

Definition total_frames (fps duration : Z) : Z := (fps * duration)%Z.

Definition frames_per_segment (frames total_segments : Z) : Z :=
  let frames_per_segment :=
    if (0 <? total_segments)%Z then (frames / total_segments)%Z else frames in
  if (frames_per_segment =? 0)%Z && (0 <? total_segments)%Z
  then 1%Z
  else frames_per_segment.

(** Line 332: the number of interpolation steps handed to
    [great_circle_points]. *)
Definition num_gcp_steps (frames_per_segment : Z) : Z :=
  Z.max 0 (if (0 <? frames_per_segment)%Z
           then frames_per_segment - 1 else 0)%Z.

(** *** Orientation of the aircraft (lines 369-435)

    [plane['previous_direction']] and [plane['previous_right_vector']] are
    custom properties of the aircraft object: they survive from one sample
    to the next, and from one segment to the next. *)

Record plane_props : Type := mkProps {
  previous_direction : option Vector;
  previous_right_vector : option Vector
}.

Definition no_props : plane_props := mkProps None None.

(** The rows written into [rot_matrix] (lines 429-431). *)
Record basis : Type := mkBasis {
  final_right : Vector;
  final_up : Vector;
  final_forward : Vector
}.

(** Lines 414 and 423. *)
Definition axis_fallback (final_up : Vector) : Vector :=
  if fgt (Rabs (vx final_up)) 0.9 then mkVector 1 0 0 else mkVector 0 1 0.

(** Lines 374-381: the direction of travel, or the previous one when the
    two samples are too close. *)
Definition travel_direction (props : plane_props)
    (current_vec_point next_vec_point : Vector) : Vector :=
  let direction := sub next_vec_point current_vec_point in
  if fgt (length direction) 0.0001 then normalized direction
  else match previous_direction props with
       | Some d => d
       | None => mkVector 1 0 0
       end.

(** Lines 387-397: when the direction is nearly parallel to the radial
    vector it is replaced by one derived from the previous right vector. *)
Definition steady_direction (props : plane_props)
    (up_vector_obj direction : Vector) : Vector :=
  if fgt (Rabs (dot direction up_vector_obj)) 0.999 then
    let right_vector :=
      match previous_right_vector props with
      | Some r => r
      | None =>
          let temp_ref :=
            if flt (Rabs (vz up_vector_obj)) 0.9
            then mkVector 0 0 1 else mkVector 0 1 0 in
          normalized (cross up_vector_obj temp_ref)
      end in
    let forward_vector := normalized (cross up_vector_obj right_vector) in
    let forward_vector :=
      if flt (dot direction forward_vector) 0
      then neg forward_vector else forward_vector in
    forward_vector
  else direction.

(** Lines 399-424: [right_vector], as stored for the next sample, and the
    three rows of the rotation matrix. *)
Definition frame_of (up_vector_obj direction : Vector) : Vector * basis :=
  let right_vector := normalized (cross up_vector_obj direction) in
  let true_forward := normalized (cross right_vector up_vector_obj) in
  let final_forward := true_forward in
  let final_up := up_vector_obj in
  let final_right := cross final_up final_forward in
  let final_right :=
    if flt (length final_right) 0.0001 then
      let final_right :=
        if flt (Rabs (vz final_up)) 0.9
        then normalized (cross final_up (mkVector 0 0 1))
        else normalized (cross final_up (mkVector 0 1 0)) in
      if flt (length final_right) 0.0001
      then axis_fallback final_up
      else final_right
    else final_right in
  let final_forward := normalized (cross final_right final_up) in
  if flt (length final_forward) 0.0001 then
    let final_forward := direction in
    let final_right := normalized (cross final_up final_forward) in
    let final_right :=
      if flt (length final_right) 0.0001
      then axis_fallback final_up else final_right in
    let final_up := normalized (cross final_forward final_right) in
    (right_vector, mkBasis final_right final_up final_forward)
  else
    (right_vector, mkBasis final_right final_up final_forward).

Definition orientation (props : plane_props)
    (point_coords next_point_coords : R * R * R) : plane_props * basis :=
  let current_vec_point := of_tuple point_coords in
  let next_vec_point := of_tuple next_point_coords in
  let direction :=
    travel_direction props current_vec_point next_vec_point in
  let props := mkProps (Some direction) (previous_right_vector props) in
  let up_vector_obj := neg (normalized current_vec_point) in
  let direction := steady_direction props up_vector_obj direction in
  let '(right_vector, b) := frame_of up_vector_obj direction in
  (mkProps (previous_direction props) (Some right_vector), b).

(** *** The segment loop (lines 326-436)

    A keyframe records what [keyframe_insert] is called with: the frame, the
    aircraft location, and the rotation when the sample is not the last one
    of its segment.  The trail spline (lines 349-366) only draws the path
    and is left out. *)

Record keyframe : Type := mkKeyframe {
  kf_frame : Z;
  kf_location : Vector;
  kf_rotation : option basis
}.

(** Body of the loop over [enumerate(path_points)]. *)
Definition animate_point (frames_per_segment frame_end i : Z)
    (path_points : list (R * R * R))
    (acc : plane_props * list keyframe) (jp : Z * (R * R * R))
  : plane_props * list keyframe :=
  let '(props, keyframes) := acc in
  let '(j, point_coords) := jp in
  let frame_num := (i * frames_per_segment + j + 1)%Z in
  if (frame_end <? frame_num)%Z then acc
  else
    let plane_pos := scale (of_tuple point_coords) 1.02 in
    if (j <? Z.of_nat (List.length path_points) - 1)%Z then
      let next_point_coords :=
        nth (Z.to_nat (j + 1)) path_points point_coords in
      let '(props, b) := orientation props point_coords next_point_coords in
      (props, keyframes ++ [mkKeyframe frame_num plane_pos (Some b)])
    else
      (props, keyframes ++ [mkKeyframe frame_num plane_pos None]).

(** Loop over the segments; the result has one list of keyframes per
    segment [i].  An empty [path_points] contributes nothing, which is what
    the [continue] of line 336 does. *)
Fixpoint animate_segments (frames_per_segment frame_end : Z)
    (waypoints : list (R * R)) (segments : list Z) (props : plane_props)
  : result (list (list keyframe)) :=
  match segments with
  | [] => Ok []
  | i :: segments' =>
      let '(start_lat, start_lon) := nth (Z.to_nat i) waypoints (0, 0) in
      let '(end_lat, end_lon) := nth (Z.to_nat (i + 1)) waypoints (0, 0) in
      let! path_points :=
        great_circle_points start_lat start_lon end_lat end_lon
                            (num_gcp_steps frames_per_segment) in
      let '(props, keyframes) :=
        fold_left (animate_point frames_per_segment frame_end i path_points)
                  (enumerate path_points) (props, []) in
      let! rest :=
        animate_segments frames_per_segment frame_end waypoints
                         segments' props in
      Ok (keyframes :: rest)
  end.

(** The script up to the end of the segment loop: [scene.render.fps] and
    [scene.frame_end] are set on lines 79 and 81, and line 341 compares
    with [scene.frame_end] as the scene holds it. *)
Definition animate_plane (waypoints : list (R * R)) (fps duration : Z)
  : result (list (list keyframe)) :=
  let frames := total_frames fps duration in
  let! _ := Bpy.int_property fps in
  let! frame_end := Bpy.set_frame_end frames in
  let total_segments := (Z.of_nat (List.length waypoints) - 1)%Z in
  let frames_per_segment := frames_per_segment frames total_segments in
  animate_segments frames_per_segment frame_end waypoints
                   (range total_segments) no_props.

(** *** Label visibility (lines 438-475)

    [hide_render] and [hide_viewport] receive the same keyframes; one map
    from frame to the hidden flag stands for both.  [keyframe_insert] at a
    frame that already has a keyframe replaces its value. *)

Definition animate_label (frames_per_segment total_segments frames i : Z)
  : gmap Z bool :=
  let base_appear_frame := (i * frames_per_segment + 1)%Z in
  let fcurve : gmap Z bool := ∅ in
  let fcurve :=
    if (1 <? base_appear_frame)%Z
    then <[(base_appear_frame - 1)%Z := true]> fcurve else fcurve in
  let fcurve := <[base_appear_frame := false]> fcurve in
  if (i <? total_segments)%Z then
    let disappear_frame := ((i + 1) * frames_per_segment)%Z in
    if (disappear_frame <? frames)%Z
    then <[(disappear_frame + 1)%Z := true]> fcurve
    else <[frames := false]> fcurve
  else <[frames := false]> fcurve.

Definition animate_labels (n_waypoints : nat) (fps duration : Z)
  : list (gmap Z bool) :=
  let frames := total_frames fps duration in
  let total_segments := (Z.of_nat n_waypoints - 1)%Z in
  let frames_per_segment := frames_per_segment frames total_segments in
  map (animate_label frames_per_segment total_segments frames)
      (range (Z.of_nat n_waypoints)).

(** How Blender reads a boolean animation curve at a frame: the value of
    the latest keyframe at or before it, and before the first keyframe the
    value of the first one (constant interpolation, held at both ends). *)
Definition latest_upto (frame : Z) (kv : Z * bool) (acc : option (Z * bool))
  : option (Z * bool) :=
  if (kv.1 <=? frame)%Z then
    match acc with
    | Some (k, _) => if (k <? kv.1)%Z then Some kv else acc
    | None => Some kv
    end
  else acc.

Definition earliest (kv : Z * bool) (acc : option (Z * bool))
  : option (Z * bool) :=
  match acc with
  | Some (k, _) => if (kv.1 <? k)%Z then Some kv else acc
  | None => Some kv
  end.

Definition fcurve_eval (fcurve : gmap Z bool) (frame : Z) : option bool :=
  let keys := map_to_list fcurve in
  match foldr (latest_upto frame) None keys with
  | Some kv => Some kv.2
  | None => snd <$> foldr earliest None keys
  end.

Definition label_visible (fcurve : gmap Z bool) (frame : Z) : bool :=
  match fcurve_eval fcurve frame with
  | Some hidden => negb hidden
  | None => true
  end.

(** *** Render size (lines 51-58)

    [.get(quality.lower(), (720, 1280))] on the table of sizes. *)

Definition resolution_table : gmap string (Z * Z) :=
  <["480p" := (480, 854)%Z]>
    (<["720p" := (720, 1280)%Z]>
       (<["1080p" := (1080, 1920)%Z]>
          (<["4k" := (2160, 3840)%Z]> ∅))).

Definition resolution (quality : string) : Z * Z :=
  default (720, 1280)%Z (resolution_table !! lower quality).

(** *** Where a label is put (lines 293 and 304) *)

Definition label_location (lat lon : R) : Vector :=
  let pos := of_tuple (latlon_to_xyz lat lon 1.02) in
  add pos (mkVector 0 0 0.05).

(** *** The camera (lines 482-530)

    For every frame the camera is placed from the position the aircraft
    has at that frame ([plane.matrix_world.translation]).  The three axes
    are the rows written into [cam_rot_matrix] before it is transposed;
    the conversion to Euler angles is Blender's and is not modelled. *)

Record camera_key : Type := mkCameraKey {
  camera_location : Vector;
  cam_x_axis : Vector;
  cam_y_axis : Vector;
  cam_z_axis : Vector
}.

(** [axis - axis.dot(d) * d]. *)
Definition project_out (axis d : Vector) : Vector :=
  sub axis (scale d (dot axis d)).

(** Lines 490-497. *)
Definition projected_north (direction_from_earth_center : Vector) : Vector :=
  let d := direction_from_earth_center in
  let projected_north := project_out (mkVector 0 1 0) d in
  if flt (length projected_north) 0.001 then
    let projected_north := project_out (mkVector 1 0 0) d in
    let projected_north :=
      if flt (length projected_north) 0.001
      then project_out (mkVector 0 0 1) d else projected_north in
    if flt (length projected_north) 0.001 then
      (if flt (vz d) 0.9 then mkVector 0 1 0 else mkVector 1 0 0)
    else projected_north
  else projected_north.

Definition camera_pose (plane_pos_eval : Vector) : camera_key :=
  let direction_from_earth_center := normalized plane_pos_eval in
  let direction_from_earth_center :=
    if feq (length direction_from_earth_center) 0
    then mkVector 0 0 1 else direction_from_earth_center in
  let camera_height_offset := 0.8 in
  let camera_location :=
    add plane_pos_eval
        (scale direction_from_earth_center camera_height_offset) in
  let projected_north := projected_north direction_from_earth_center in
  let cam_up_vector := normalized projected_north in
  let cam_up_vector :=
    if feq (length cam_up_vector) 0 then mkVector 0 1 0 else cam_up_vector in
  let look_at_target := plane_pos_eval in
  let cam_forward_vector := sub look_at_target camera_location in
  let cam_forward_vector :=
    if fgt (length cam_forward_vector) 0.0001
    then normalized cam_forward_vector
    else if fgt (length direction_from_earth_center) 0
         then neg direction_from_earth_center
         else mkVector 0 0 (-1) in
  let cam_z_axis := neg cam_forward_vector in
  let cam_x_axis := cross cam_up_vector cam_z_axis in
  let cam_x_axis :=
    if fgt (length cam_x_axis) 0.0001 then normalized cam_x_axis
    else normalized
           (cross cam_up_vector
                  (if flt (Rabs (vz cam_up_vector)) 0.9
                   then mkVector 0 0 1 else mkVector 1 0 0)) in
  let cam_y_axis := normalized (cross cam_z_axis cam_x_axis) in
  let cam_y_axis :=
    if feq (length cam_y_axis) 0 then cam_up_vector else cam_y_axis in
  mkCameraKey camera_location cam_x_axis cam_y_axis cam_z_axis.

End RenderFlightSimple.

(** ** [render_flight.py]: the alternative script

  The orientation of the aircraft (lines 305-317). *)

Module RenderFlight.
Import Py Mathutils.
Local Open Scope R_scope.

(** The rows of [Matrix((right, forward, up))]. *)
Record basis : Type := mkBasis {
  right : Vector;
  forward : Vector;
  up : Vector
}.

Definition orientation (point next_point : R * R * R) : basis :=
  let next_point := of_tuple next_point in
  let direction := normalized (sub next_point (of_tuple point)) in
  let up := neg (normalized (of_tuple point)) in
  let forward := direction in
  let right := cross forward up in
  let up := cross right forward in
  mkBasis right forward up.

End RenderFlight.

(** ** [renderer.py]: the call of Blender *)

Module Renderer.
Import Py.

(** [VideoQuality] of [models.py] and its [.value]. *)
Inductive VideoQuality : Type := HD_720P | HD_1080P | QHD_1440P | UHD_4K.

Definition quality_value (q : VideoQuality) : string :=
  match q with
  | HD_720P => "720p"
  | HD_1080P => "1080p"
  | QHD_1440P => "1440p"
  | UHD_4K => "4K"
  end.

(** The JSON configuration written by [_prepare_config]. *)
Record config : Type := mkConfig {
  cfg_locations : list (R * R);
  cfg_quality : string;
  cfg_fps : Z;
  cfg_duration : Z
}.

(** What running the Blender process can do: raise inside the [try]
    block, or exit with a return code, having written the output file or
    not. *)
Inductive popen_outcome : Type :=
| PopenRaises (msg : string)
| Exited (returncode : Z) (output_exists : bool).

(** Lines 127-131: the duration used when the request gives none. *)
Definition effective_duration (num_locations : Z) (duration : option Z) : Z :=
  match duration with
  | None => (5 + (num_locations - 2) * 3)%Z
  | Some d => d
  end.

Definition render_animation
    (blender : config -> string -> popen_outcome) (output_path : string)
    (locations : list (R * R)) (quality : VideoQuality)
    (fps : Z) (duration : option Z) : option string :=
  if (Z.of_nat (length locations) <? 2)%Z then None
  else
    let duration := effective_duration (Z.of_nat (length locations)) duration in
    let cfg := mkConfig locations (quality_value quality) fps duration in
    match blender cfg output_path with
    | PopenRaises _ => None
    | Exited returncode output_exists =>
        if negb (returncode =? 0)%Z then None
        else if output_exists then Some output_path
        else None
    end.

(** [_prepare_config]: the data written to the configuration file. *)
Definition _prepare_config (locations : list (R * R))
    (quality : VideoQuality) (fps duration : Z) : config :=
  mkConfig locations (quality_value quality) fps duration.

(** [os.path.join(a, b)] on POSIX paths. *)
Fixpoint endswith_slash (s : string) : bool :=
  match s with
  | EmptyString => false
  | String c EmptyString => Ascii.eqb c "/"%char
  | String _ s' => endswith_slash s'
  end.

Definition path_join (a b : string) : string :=
  if String.prefix "/" b then b
  else if String.eqb a EmptyString || endswith_slash a then a +:+ b
  else a +:+ "/" +:+ b.

(** [_generate_output_filename]; [timestamp] is the text of
    [datetime.now().strftime("%Y%m%d_%H%M%S")]. *)
Definition _generate_output_filename (output_dir timestamp : string)
    (quality : VideoQuality) : string :=
  let filename :=
    "earth_tour_" +:+ timestamp +:+ "_" +:+ quality_value quality
      +:+ ".mp4" in
  path_join output_dir filename.

End Renderer.

(** ** [geocoder.py]: geocoding with retry, behind [functools.lru_cache] *)

Module Geocoder.
Import Py.

(** What [self.geolocator.geocode(location_name)] can do. *)
Inductive reply : Type :=
| Located (latitude longitude : R)
| NoLocation
| GeocoderTimedOut (msg : string)
| GeocoderUnavailable (msg : string)
| OtherException (msg : string).

(** The log lines of [geocode], by the statement that writes them. *)
Inductive log_line : Type :=
| EmptyName
| Geocoding (location_name : string)
| Geocoded (location_name : string) (coords : R * R)
| CouldNotGeocode (location_name : string)
| AttemptFailed (retry_count wait_time : Z) (msg : string)
| UnexpectedError (msg : string)
| FailedAfter (location_name : string) (max_retries : Z).

(** What the service does that the outside can see, in the order it
    happens: a query to the geocoding collaborator, a [time.sleep], a log
    line. *)
Inductive event : Type :=
| Query (location_name : string)
| Sleep (seconds : Z)
| Log (line : log_line).

Definition is_query (e : event) : bool :=
  match e with Query _ => true | _ => false end.

Definition queries (trace : list event) : nat :=
  length (filter is_query trace).

(** The collaborator: its reply may depend on how many queries it has
    answered before (a service that is down and comes back). *)
Definition geolocator : Type := nat -> string -> reply.

(** The [while retry_count < max_retries] loop of lines 40-61.  [fuel]
    bounds the iterations; [Z.to_nat (max_retries - retry_count)] is
    enough, because every iteration that does not return adds one to
    [retry_count]. *)
Fixpoint geocode_loop (svc : geolocator) (location_name : string)
    (max_retries : Z) (fuel : nat) (retry_count : Z) (trace : list event)
  : option (R * R) * list event :=
  match fuel with
  | O => (None, trace ++ [Log (FailedAfter location_name max_retries)])
  | S fuel' =>
      if (retry_count <? max_retries)%Z then
        let trace := trace ++ [Log (Geocoding location_name)] in
        let location := svc (queries trace) location_name in
        let trace := trace ++ [Query location_name] in
        match location with
        | Located latitude longitude =>
            let coords := (latitude, longitude) in
            (Some coords, trace ++ [Log (Geocoded location_name coords)])
        | NoLocation =>
            (None, trace ++ [Log (CouldNotGeocode location_name)])
        | GeocoderTimedOut msg | GeocoderUnavailable msg =>
            let retry_count := (retry_count + 1)%Z in
            let wait_time := (2 ^ retry_count)%Z in
            let trace :=
              trace ++ [Log (AttemptFailed retry_count wait_time msg);
                        Sleep wait_time] in
            geocode_loop svc location_name max_retries fuel'
                         retry_count trace
        | OtherException msg =>
            (None, trace ++ [Log (UnexpectedError msg)])
        end
      else (None, trace ++ [Log (FailedAfter location_name max_retries)])
  end.

(** The body of [geocode], without the cache. *)
Definition geocode_uncached (svc : geolocator) (location_name : string)
    (max_retries : Z) (trace : list event) : option (R * R) * list event :=
  if String.eqb location_name EmptyString then
    (None, trace ++ [Log EmptyName])
  else
    geocode_loop svc location_name max_retries (Z.to_nat max_retries) 0 trace.

(** [lru_cache(maxsize=1000)]: the entries, most recently used first.  The
    cache stores whatever the function returns, [None] included. *)
Definition maxsize : nat := 1000.

Definition cache_t : Type := list (string * option (R * R)).

Fixpoint cache_get (key : string) (cache : cache_t)
  : option (option (R * R)) :=
  match cache with
  | [] => None
  | (k, v) :: cache' =>
      if String.eqb k key then Some v else cache_get key cache'
  end.

Definition cache_remove (key : string) (cache : cache_t) : cache_t :=
  filter (fun kv => negb (String.eqb kv.1 key)) cache.

Record state : Type := mkState {
  cache : cache_t;
  trace : list event
}.

Definition default_max_retries : Z := 3.

(** [geocoding_service.geocode(location_name)] as [main.py] calls it. *)
Definition geocode (svc : geolocator) (location_name : string) (st : state)
  : option (R * R) * state :=
  match cache_get location_name (cache st) with
  | Some result =>
      (result,
       mkState ((location_name, result)
                  :: cache_remove location_name (cache st))
               (trace st))
  | None =>
      let '(result, trace) :=
        geocode_uncached svc location_name default_max_retries (trace st) in
      (result,
       mkState (take maxsize ((location_name, result) :: cache st)) trace)
  end.

End Geocoder.

(** ** [models.py] and [main.py]: requests and the job registry *)

Module Main.
Import Py Renderer.

(** *** [models.py] *)

Record Location : Type := mkLocation {
  name : option string;
  lat : option R;
  lon : option R
}.

Record AnimationRequest : Type := mkRequest {
  locations : list Location;
  quality : VideoQuality;
  duration : option Z
}.

(** A field of a request body: left out, or supplied, as [null] or as a
    value. *)
Inductive field (A : Type) : Type :=
| Missing
| Supplied (v : option A).
Arguments Missing {A}.
Arguments Supplied {A} v.

(** One entry of [locations] in the body of a request. *)
Record LocationBody : Type := mkLocationBody {
  body_name : field string;
  body_lat : field R;
  body_lon : field R
}.

(** The [values] a validator receives: the fields validated before it, by
    name. *)
Inductive pyval : Type :=
| PNone
| PStr (s : string)
| PFloat (x : R).

Definition of_option {A} (f : A -> pyval) (v : option A) : pyval :=
  match v with
  | Some a => f a
  | None => PNone
  end.

(** [validate_lat_lon_pair] (lines 27-32). *)
Definition validate_lat_lon_pair (v : option R) (values : gmap string pyval)
  : result (option R) :=
  match v, values !! "lon" with
  | Some _, None =>
      Raise (ValueError
               "If latitude is provided, longitude must also be provided")
  | _, _ => Ok v
  end.

(** [validate_name_or_coordinates] (lines 34-39). *)
Definition validate_name_or_coordinates (v : option string)
    (values : gmap string pyval) : result (option string) :=
  match v with
  | None =>
      match values !! "lat" with
      | None | Some PNone =>
          Raise (ValueError "Either name or both lat/lon must be provided")
      | Some _ => Ok v
      end
  | Some _ => Ok v
  end.

(** [ge=lo, le=hi] of a [Field]. *)
Definition in_range (lo hi x : R) : result R :=
  if flt x lo || flt hi x
  then Raise (ValueError "ensure this value is within its limits")
  else Ok x.

(** How pydantic validates one optional field of a model.  A field that
    is left out takes its default [None] and its validators are skipped;
    a supplied value is checked against the limits of the field and then
    handed to the validator of the class, together with the fields that
    were validated before it.  A field that fails is not entered into
    [values]. *)
Definition validate_field {A} (key : string) (encode : A -> pyval)
    (limits : A -> result A)
    (validator : option A -> gmap string pyval -> result (option A))
    (supplied : field A) (values : gmap string pyval)
  : result (option A) * gmap string pyval :=
  match supplied with
  | Missing => (Ok None, <[key := PNone]> values)
  | Supplied v =>
      let checked :=
        match v with
        | None => Ok None
        | Some a => let! a := limits a in Ok (Some a)
        end in
      match (let! v := checked in validator v values) with
      | Ok v => (Ok v, <[key := of_option encode v]> values)
      | Raise e => (Raise e, values)
      end
  end.

(** Building a [Location] from an entry: the fields are validated in the order the class
    declares them, [name], [lat], [lon]; any failure makes the whole
    construction fail with a [ValidationError]. *)
Definition Location_validate (body : LocationBody) : result Location :=
  let values : gmap string pyval := ∅ in
  let '(name, values) :=
    validate_field "name" PStr Ok validate_name_or_coordinates
                   (body_name body) values in
  let '(lat, values) :=
    validate_field "lat" PFloat (in_range (-90) 90)%R validate_lat_lon_pair
                   (body_lat body) values in
  let '(lon, values) :=
    validate_field "lon" PFloat (in_range (-180) 180)%R (fun v _ => Ok v)
                   (body_lon body) values in
  match name, lat, lon with
  | Ok name, Ok lat, Ok lon => Ok (mkLocation name lat lon)
  | Raise e, _, _ | _, Raise e, _ | _, _, Raise e =>
      Raise (ValidationError (str_exn e))
  end.

(** Building an [AnimationRequest] from a body: [min_items=2] is checked on the list as
    it is supplied, then every entry is validated as a [Location], then
    the validator [validate_locations] runs; the quality has a default. *)
Definition AnimationRequest_validate (locations : list LocationBody)
    (quality : option VideoQuality) (duration : option Z)
  : result AnimationRequest :=
  if (Z.of_nat (length locations) <? 2)%Z then
    Raise (ValidationError "ensure this value has at least 2 items")
  else
    let! locations := mapM Location_validate locations in
    if (Z.of_nat (length locations) <? 2)%Z then
      Raise (ValidationError "At least 2 locations are required")
    else
      Ok (mkRequest locations (default HD_1080P quality) duration).

(** *** The job registry [animation_jobs] *)

Record Job : Type := mkJob {
  job_id : string;
  job_status : string;
  job_created : string;
  job_request : list Location * string;
  job_video_path : option string;
  job_duration : option R;
  job_error : option string
}.

Definition with_status (st : string) (j : Job) : Job :=
  mkJob (job_id j) st (job_created j) (job_request j)
        (job_video_path j) (job_duration j) (job_error j).
Definition with_error (msg : string) (j : Job) : Job :=
  mkJob (job_id j) (job_status j) (job_created j) (job_request j)
        (job_video_path j) (job_duration j) (Some msg).
Definition with_video_path (p : string) (j : Job) : Job :=
  mkJob (job_id j) (job_status j) (job_created j) (job_request j)
        (Some p) (job_duration j) (job_error j).
Definition with_duration (d : R) (j : Job) : Job :=
  mkJob (job_id j) (job_status j) (job_created j) (job_request j)
        (job_video_path j) (Some d) (job_error j).

(** [animation_jobs[request_id][key] = value]: [KeyError] when the job is
    not in the registry. *)
Definition update_job (request_id : string) (f : Job -> Job)
    (jobs : gmap string Job) : result (gmap string Job) :=
  match jobs !! request_id with
  | Some j => Ok (<[request_id := f j]> jobs)
  | None => Raise (KeyError request_id)
  end.

Definition fail_job (request_id error_msg : string)
    (jobs : gmap string Job) : result (gmap string Job) :=
  let! jobs := update_job request_id (with_status "failed") jobs in
  update_job request_id (with_error error_msg) jobs.

Definition complete_job (request_id video_url : string) (render_time : R)
    (jobs : gmap string Job) : result (gmap string Job) :=
  let! jobs := update_job request_id (with_status "completed") jobs in
  let! jobs := update_job request_id (with_video_path video_url) jobs in
  update_job request_id (with_duration render_time) jobs.

(** [os.path.basename]. *)
Fixpoint basename_from (path acc : string) : string :=
  match path with
  | EmptyString => acc
  | String c path' =>
      if Ascii.eqb c "/"%char then basename_from path' EmptyString
      else basename_from path' (acc +:+ String c EmptyString)
  end.
Definition basename (path : string) : string := basename_from path EmptyString.

(** Truth value of a string: [if s:]. *)
Definition nonempty (s : string) : bool := negb (String.eqb s EmptyString).

(** *** [process_animation_request]

    The two collaborators are parameters.  Each may return a value, return
    [None], or raise; [render_animation] also tells how long the call
    took ([time.time() - start_time]).  [S] is the state the collaborators
    keep between calls. *)

Section Collaborators.
Context {S : Type}.
Variable geocode : string -> S -> result (option (R * R)) * S.
Variable render_animation :
  list (R * R) -> VideoQuality -> Z -> option Z -> S ->
  result (option string) * R * S.

(** How the loop over the locations (lines 76-96) ends. *)
Inductive resolution : Type :=
| Resolved (processed_locations : list (R * R))
| Unresolved (error_msg : string)
| Raised (e : exn).

Fixpoint resolve_locations (locations : list Location)
    (processed_locations : list (R * R)) (s : S) : resolution * S :=
  match locations with
  | [] => (Resolved processed_locations, s)
  | location :: rest =>
      match lat location, lon location with
      | Some la, Some lo =>
          resolve_locations rest (processed_locations ++ [(la, lo)]) s
      | _, _ =>
          match name location with
          | Some n =>
              if nonempty n then
                match geocode n s with
                | (Raise e, s) => (Raised e, s)
                | (Ok (Some coords), s) =>
                    resolve_locations rest
                      (processed_locations ++ [coords]) s
                | (Ok None, s) =>
                    (Unresolved ("Failed to geocode location: " +:+ n), s)
                end
              else
                (Unresolved "Location missing both name and coordinates", s)
          | None =>
              (Unresolved "Location missing both name and coordinates", s)
          end
      end
  end.

(** An update of the registry ends the [try] block: with the new
    registry, or with the exception it raised. *)
Definition finish (r : result (gmap string Job))
    (jobs : gmap string Job) (s : S)
  : gmap string Job * S * option exn :=
  match r with
  | Ok jobs' => (jobs', s, None)
  | Raise e => (jobs, s, Some e)
  end.

(** The [try] block (lines 70-124): the registry and the collaborator
    state it leaves, and the exception that left it, if any. *)
Definition try_block (request_id : string) (locations : list Location)
    (quality : VideoQuality) (fps : Z) (duration : option Z)
    (jobs : gmap string Job) (s : S)
  : gmap string Job * S * option exn :=
  match update_job request_id (with_status "processing") jobs with
  | Raise e => (jobs, s, Some e)
  | Ok jobs =>
      match resolve_locations locations [] s with
      | (Raised e, s) => (jobs, s, Some e)
      | (Unresolved error_msg, s) =>
          finish (fail_job request_id error_msg jobs) jobs s
      | (Resolved processed_locations, s) =>
          match render_animation processed_locations quality fps
                                 duration s with
          | (Raise e, _, s) => (jobs, s, Some e)
          | (Ok video_path, render_time, s) =>
              match video_path with
              | Some path =>
                  if nonempty path then
                    let video_url := "/videos/" +:+ basename path in
                    finish (complete_job request_id video_url
                                         render_time jobs) jobs s
                  else
                    finish (fail_job request_id
                              "Failed to render animation" jobs) jobs s
              | None =>
                  finish (fail_job request_id
                            "Failed to render animation" jobs) jobs s
              end
          end
      end
  end.

(** The whole function: the [except Exception] handler (lines 126-130)
    runs on whatever left the [try] block; an exception of the handler
    itself escapes. *)
Definition process_animation_request (request_id : string)
    (locations : list Location) (quality : VideoQuality) (fps : Z)
    (duration : option Z) (jobs : gmap string Job) (s : S)
  : gmap string Job * S * option exn :=
  match try_block request_id locations quality fps duration jobs s with
  | (jobs, s, None) => (jobs, s, None)
  | (jobs, s, Some e) =>
      let error_msg := "Error processing animation: " +:+ str_exn e in
      finish (fail_job request_id error_msg jobs) jobs s
  end.

End Collaborators.

(** *** [generate_animation] *)

(** What [background_tasks.add_task] stores: the arguments of the later
    call of [process_animation_request] ([fps] is left to its default). *)
Record task : Type := mkTask {
  task_request_id : string;
  task_locations : list Location;
  task_quality : VideoQuality;
  task_fps : Z;
  task_duration : option Z
}.

Record server : Type := mkServer {
  animation_jobs : gmap string Job;
  background_tasks : list task
}.

Record response : Type := mkResponse {
  resp_job_id : string;
  resp_status : string;
  resp_message : string
}.

(** The handler.  [stamp] is [datetime.now().strftime(...)], [created] is
    [datetime.now().isoformat()], [object_id] is the text of
    [id(request)]. *)
Definition generate_animation (request : AnimationRequest)
    (stamp created object_id : string) (srv : server)
  : result response * server :=
  let attempt : result response * server :=
    if (Z.of_nat (length (locations request)) <? 2)%Z then
      (Raise (HTTPException 400 "At least 2 locations are required"), srv)
    else
      let request_id := "job_" +:+ stamp +:+ "_" +:+ object_id in
      let job :=
        mkJob request_id "queued" created
              (locations request, quality_value (quality request))
              None None None in
      let jobs := <[request_id := job]> (animation_jobs srv) in
      let tasks :=
        background_tasks srv
          ++ [mkTask request_id (locations request) (quality request)
                     30 (duration request)] in
      (Ok (mkResponse request_id "queued"
                      "Animation request has been queued for processing"),
       mkServer jobs tasks) in
  match attempt with
  | (Raise e, srv) => (Raise (HTTPException 500 (str_exn e)), srv)
  | (Ok r, srv) => (Ok r, srv)
  end.

(** The endpoint: the request body is validated into an
    [AnimationRequest] before the handler is called; when validation fails
    the handler does not run. *)
Definition post_generate_animation (locations : list LocationBody)
    (quality : option VideoQuality) (duration : option Z)
    (stamp created object_id : string) (srv : server)
  : result response * server :=
  match AnimationRequest_validate locations quality duration with
  | Raise e => (Raise e, srv)
  | Ok request => generate_animation request stamp created object_id srv
  end.

(** *** The server with its real collaborators *)

Record environment : Type := mkEnvironment {
  env_geolocator : Geocoder.geolocator;
  env_blender : config -> string -> popen_outcome;
  env_output_path : string;
  env_render_time : R
}.

Definition service_geocode (env : environment) (location_name : string)
    (st : Geocoder.state) : result (option (R * R)) * Geocoder.state :=
  let '(r, st) := Geocoder.geocode (env_geolocator env) location_name st in
  (Ok r, st).

Definition service_render (env : environment) (locations : list (R * R))
    (quality : VideoQuality) (fps : Z) (duration : option Z)
    (st : Geocoder.state) : result (option string) * R * Geocoder.state :=
  (Ok (Renderer.render_animation (env_blender env) (env_output_path env)
                                 locations quality fps duration),
   env_render_time env, st).

(** Running a queued task. *)
Definition run_task (env : environment) (t : task)
    (jobs : gmap string Job) (st : Geocoder.state)
  : gmap string Job * Geocoder.state * option exn :=
  process_animation_request (service_geocode env) (service_render env)
    (task_request_id t) (task_locations t) (task_quality t) (task_fps t)
    (task_duration t) jobs st.

(** *** [get_job_status]

    The three shapes of the answer.  [job_info["video_path"]] and
    [job_info["duration"]] raise [KeyError] when the entry is missing;
    [job_info.get("error", "Unknown error")] does not. *)

Inductive status_reply : Type :=
| CompletedReply (job_id video_path : string) (duration : R)
| FailedReply (job_id error : string)
| StatusReply (job_id status : string).

Definition get_job_status (job_id : string) (jobs : gmap string Job)
  : result status_reply :=
  match jobs !! job_id with
  | None => Raise (HTTPException 404 "Job not found")
  | Some job_info =>
      if String.eqb (job_status job_info) "completed" then
        match job_video_path job_info with
        | None => Raise (KeyError "video_path")
        | Some video_path =>
            match job_duration job_info with
            | None => Raise (KeyError "duration")
            | Some duration =>
                Ok (CompletedReply job_id video_path duration)
            end
        end
      else if String.eqb (job_status job_info) "failed" then
        Ok (FailedReply job_id (default "Unknown error" (job_error job_info)))
      else
        Ok (StatusReply job_id (job_status job_info))
  end.

End Main.

(** * Vocabulary of the properties *)

Section Vocabulary.
Import Py RenderFlightSimple.
Local Open Scope R_scope.

(** ** Points on the sphere *)

Definition sq_norm (p : R * R * R) : R :=
  let '(x, y, z) := p in x ^ 2 + y ^ 2 + z ^ 2.

(** The Euclidean magnitude of a sample. *)
Definition magnitude (p : R * R * R) : R := sqrt (sq_norm p).

Definition dot3 (p q : R * R * R) : R :=
  let '(x1, y1, z1) := p in
  let '(x2, y2, z2) := q in
  x1 * x2 + y1 * y2 + z1 * z2.

Definition sq_dist (p q : R * R * R) : R :=
  let '(x1, y1, z1) := p in
  let '(x2, y2, z2) := q in
  (x1 - x2) ^ 2 + (y1 - y2) ^ 2 + (z1 - z2) ^ 2.

(** Componentwise agreement up to [tol]. *)
Definition close (tol : R) (p q : R * R * R) : Prop :=
  let '(x1, y1, z1) := p in
  let '(x2, y2, z2) := q in
  Rabs (x1 - x2) <= tol /\ Rabs (y1 - y2) <= tol /\ Rabs (z1 - z2) <= tol.

(** The two tests under which the code repeats the start point. *)
Definition coincident (start_lat start_lon end_lat end_lon : R) : Prop :=
  (Rabs (radians end_lat - radians start_lat) < 1e-10
   /\ Rabs (radians end_lon - radians start_lon) < 1e-10)
  \/ Rabs (d_sigma_of (radians start_lat) (radians start_lon)
                      (radians end_lat) (radians end_lon)) < 1e-10.

(** ** Orientation frames *)

Definition unit_vector (a : Mathutils.Vector) : Prop :=
  Mathutils.length_squared a = 1.

Definition orthonormal (b : basis) : Prop :=
  Mathutils.dot (final_right b) (final_up b) = 0
  /\ Mathutils.dot (final_right b) (final_forward b) = 0
  /\ Mathutils.dot (final_up b) (final_forward b) = 0
  /\ Mathutils.length (final_right b) = 1
  /\ Mathutils.length (final_up b) = 1
  /\ Mathutils.length (final_forward b) = 1.

Definition orthonormal_within (tol : R) (b : basis) : Prop :=
  Rabs (Mathutils.dot (final_right b) (final_up b)) <= tol
  /\ Rabs (Mathutils.dot (final_right b) (final_forward b)) <= tol
  /\ Rabs (Mathutils.dot (final_up b) (final_forward b)) <= tol
  /\ Rabs (Mathutils.length (final_right b) - 1) <= tol
  /\ Rabs (Mathutils.length (final_up b) - 1) <= tol
  /\ Rabs (Mathutils.length (final_forward b) - 1) <= tol.

(** What [frame_of] needs from [right_vector] and [true_forward]: the zero
    vector, or a unit vector perpendicular to [up]. *)
Definition degenerate_or_perp (up w : Mathutils.Vector) : Prop :=
  w = Mathutils.zero \/ (unit_vector w /\ Mathutils.dot w up = 0).

(** A pair of consecutive samples along the equator, chosen so that every
    square root that occurs is rational. *)
Definition sample_current : R * R * R := (1, 0, 0).
Definition sample_next : R * R * R := (7 / 25, 24 / 25, 0).

(** ** Frames *)

(** The frames the loop over [enumerate(path_points)] keys for segment
    [i], when [path_points] has [n] points. *)
Definition segment_frames (F frame_end i : Z) (n : nat) : list Z :=
  List.filter (fun f => negb (frame_end <? f)%Z)
              (map (fun j => i * F + j + 1)%Z (map Z.of_nat (seq 0 n))).

(** The frames keyed while the aircraft flies segment [i]. *)
Definition keyed_frames (segments : list (list keyframe)) (i : nat)
  : list Z :=
  map kf_frame (nth i segments []).

(** The last frame of the scene, as line 341 reads it, when the
    animation has [total] frames that fit a C [int]. *)
Definition scene_frame_end (total : Z) : Z :=
  Z.max Bpy.MINFRAME (Z.min total Bpy.MAXFRAME).

(** Five cities, west to east. *)
Definition five_cities : list (R * R) :=
  [(40.7, -74.0); (51.5, -0.12); (48.86, 2.35); (52.52, 13.4);
   (55.75, 37.62)].

(** New York and London. *)
Definition two_cities : list (R * R) := [(40.7, -74.0); (51.5, -0.12)].

(** The plan for a request: the renderer fixes the duration
    ([render_animation]), the script derives everything else from it. *)
Definition planned_keyframes (locations : list (R * R)) (fps : Z)
    (duration : option Z) : result (list (list keyframe)) :=
  animate_plane locations fps
    (Renderer.effective_duration (Z.of_nat (length locations)) duration).

Definition planned_labels (locations : list (R * R)) (fps : Z)
    (duration : option Z) : list (gmap Z bool) :=
  animate_labels (length locations) fps
    (Renderer.effective_duration (Z.of_nat (length locations)) duration).

(** ** Geocoding *)

(** The failures after which [geocode] tries again. *)
Definition transient (r : Geocoder.reply) : Prop :=
  match r with
  | Geocoder.GeocoderTimedOut _ | Geocoder.GeocoderUnavailable _ => True
  | _ => False
  end.

(** The queries and the waits of a trace, in the order they happen. *)
Definition is_log (e : Geocoder.event) : bool :=
  match e with Geocoder.Log _ => true | _ => false end.

Definition timeline (trace : list Geocoder.event) : list Geocoder.event :=
  List.filter (fun e => negb (is_log e)) trace.

(** [k] failed attempts, each followed by its wait; the first of them is
    attempt number [from + 1], and attempt number [a] is followed by a wait
    of [2 ^ a] seconds. *)
Definition failed_attempts (location_name : string) (from : Z) (k : nat)
  : list Geocoder.event :=
  flat_map (fun i => [Geocoder.Query location_name;
                      Geocoder.Sleep (2 ^ (from + 1 + Z.of_nat i))%Z])
           (seq 0 k).

(** A sequence of calls of [geocode]. *)
Fixpoint geocode_all (svc : Geocoder.geolocator) (names : list string)
    (st : Geocoder.state) : list (option (R * R)) * Geocoder.state :=
  match names with
  | [] => ([], st)
  | n :: names' =>
      let '(r, st) := Geocoder.geocode svc n st in
      let '(rs, st) := geocode_all svc names' st in
      (r :: rs, st)
  end.

(** A service that never finds anything, and one that is down for its
    first three queries and works afterwards. *)
Definition finds_nothing : Geocoder.geolocator :=
  fun _ _ => Geocoder.NoLocation.

Definition down_then_up : Geocoder.geolocator :=
  fun n _ =>
    if (n <? 3)%nat then Geocoder.GeocoderTimedOut "timed out"
    else Geocoder.Located 48.86 2.35.

Definition always_down : Geocoder.geolocator :=
  fun _ _ => Geocoder.GeocoderTimedOut "timed out".

(** ** Jobs *)

(** The job ended in the state [failed] with this error message. *)
Definition failed_with (msg : string) (j : Main.Job) : Prop :=
  Main.job_status j = "failed" /\ Main.job_error j = Some msg.

(** The job ended in the state [completed] with this video and render
    time. *)
Definition completed_with (url : string) (t : R) (j : Main.Job) : Prop :=
  Main.job_status j = "completed"
  /\ Main.job_video_path j = Some url
  /\ Main.job_duration j = Some t.

(** A location that [process_animation_request] has to geocode: it has a
    name and lacks a coordinate. *)
Definition needs_geocoding (loc : Main.Location) (n : string) : Prop :=
  Main.name loc = Some n
  /\ Main.nonempty n = true
  /\ (Main.lat loc = None \/ Main.lon loc = None).

(** A request for two places, the first of which no geocoder knows; its
    job as [generate_animation] leaves it; and a server whose geocoder
    finds nothing and whose renderer works. *)
Definition atlantis_tour : list Main.Location :=
  [Main.mkLocation (Some "Atlantis") None None;
   Main.mkLocation (Some "London") None None].

Definition atlantis_job : Main.Job :=
  Main.mkJob "job_20250101120000_1" "queued" "2025-01-01T12:00:00"
             (atlantis_tour, "720p") None None None.

Definition atlantis_task : Main.task :=
  Main.mkTask "job_20250101120000_1" atlantis_tour Renderer.HD_720P 30 None.

Definition lost_environment : Main.environment :=
  Main.mkEnvironment finds_nothing
    (fun _ _ => Renderer.Exited 0 true) "/srv/output/earth_tour.mp4" 12.5.

Definition empty_server : Main.server := Main.mkServer ∅ [].

(** The bodies of two requests: the tour to Atlantis by names, and New
    York to London by coordinates. *)
Definition named (n : string) : Main.LocationBody :=
  Main.mkLocationBody (Main.Supplied (Some n)) Main.Missing Main.Missing.

Definition at_coordinates (la lo : R) : Main.LocationBody :=
  Main.mkLocationBody Main.Missing (Main.Supplied (Some la))
                      (Main.Supplied (Some lo)).

Definition atlantis_body : list Main.LocationBody :=
  [named "Atlantis"; named "London"].

Definition two_cities_body : list Main.LocationBody :=
  [at_coordinates 40.7 (-74.0); at_coordinates 51.5 (-0.12)].

End Vocabulary.

(** * Further vocabulary: waits, the cache, paths and locations *)

Section Observations.
Import Py.

(** The seconds a trace spends in [time.sleep]. *)
Definition total_sleep (trace : list Geocoder.event) : Z :=
  fold_right (fun e acc =>
                match e with
                | Geocoder.Sleep seconds => (seconds + acc)%Z
                | _ => acc
                end) 0%Z trace.

(** The names a cache holds, most recently used first, and what an
    [lru_cache] keeps true of them: no name twice, at most [maxsize]
    entries. *)
Definition cache_keys (c : Geocoder.cache_t) : list string := map fst c.

Definition cache_wf (c : Geocoder.cache_t) : Prop :=
  NoDup (cache_keys c) /\ (length c <= Geocoder.maxsize)%nat.

(** A cache that is full: a thousand places that were looked up and not
    found, [place 0] most recently. *)
Definition numbered_place (i : nat) : string :=
  "place " +:+ str_int (Z.of_nat i).

Definition full_cache : Geocoder.cache_t :=
  map (fun i => (numbered_place i, None)) (seq 0 1000).

(** No name occurs twice in a list, as a test. *)
Fixpoint distinct_names (names : list string) : bool :=
  match names with
  | [] => true
  | n :: names' =>
      negb (existsb (String.eqb n) names') && distinct_names names'
  end.

(** A collaborator that times out once and then fails in another way. *)
Definition times_out_then_breaks : Geocoder.geolocator :=
  fun n _ =>
    if (n <? 1)%nat then Geocoder.GeocoderTimedOut "timed out"
    else Geocoder.OtherException "connection reset".

(** A text without the path separator. *)
Fixpoint no_slash (s : string) : bool :=
  match s with
  | EmptyString => true
  | String c s' => negb (Ascii.eqb c "/"%char) && no_slash s'
  end.

(** A location that carries both coordinates. *)
Definition has_coordinates (loc : Main.Location) (c : R * R) : Prop :=
  Main.lat loc = Some c.1 /\ Main.lon loc = Some c.2.

(** Three mutually perpendicular unit vectors. *)
Definition orthonormal_axes (x y z : Mathutils.Vector) : Prop :=
  unit_vector x /\ unit_vector y /\ unit_vector z
  /\ Mathutils.dot x y = 0%R /\ Mathutils.dot y z = 0%R
  /\ Mathutils.dot z x = 0%R.

End Observations.

(** * Properties *)

(** ** Python helpers *)

Section PyFacts.
Import Py.

Lemma length_range (n : Z) : length (range n) = Z.to_nat n.
Proof. unfold range. now rewrite length_map, length_seq. Qed.

Lemma in_range (n i : Z) : In i (range n) <-> (0 <= i < n)%Z.
Proof.
  unfold range. rewrite in_map_iff. split.
  - intros (k & <- & Hk). apply in_seq in Hk. lia.
  - intros H. exists (Z.to_nat i). split; [lia|]. apply in_seq. lia.
Qed.

Lemma nth_error_range (n : Z) (k : nat) :
  (k < Z.to_nat n)%nat -> nth_error (range n) k = Some (Z.of_nat k).
Proof.
  intros H. unfold range.
  rewrite nth_error_map, nth_error_seq.
  destruct (Nat.ltb_spec k (Z.to_nat n)); [reflexivity | lia].
Qed.

Lemma mapM_length {A B} (f : A -> result B) xs ys :
  mapM f xs = Ok ys -> length ys = length xs.
Proof.
  revert ys. induction xs as [|x xs IH]; intros ys; simpl.
  - now intros [= <-].
  - destruct (f x) as [y|e]; simpl; [|discriminate].
    destruct (mapM f xs) as [ys'|e]; simpl; [|discriminate].
    intros [= <-]. simpl. now rewrite (IH ys').
Qed.

Lemma mapM_nth_error {A B} (f : A -> result B) xs ys k x :
  mapM f xs = Ok ys -> nth_error xs k = Some x ->
  exists y, f x = Ok y /\ nth_error ys k = Some y.
Proof.
  revert ys k. induction xs as [|x0 xs IH]; intros ys k; simpl.
  - destruct k; discriminate.
  - destruct (f x0) as [y0|e] eqn:Hf; simpl; [|discriminate].
    destruct (mapM f xs) as [ys'|e]; simpl; [|discriminate].
    intros [= <-]. destruct k as [|k]; simpl.
    + intros [= <-]. eauto.
    + intros Hk. now apply (IH ys').
Qed.

Lemma mapM_Forall {A B} (f : A -> result B) (P : B -> Prop) xs ys :
  (forall x y, In x xs -> f x = Ok y -> P y) ->
  mapM f xs = Ok ys -> Forall P ys.
Proof.
  revert ys. induction xs as [|x0 xs IH]; intros ys HP; simpl.
  - intros [= <-]. constructor.
  - destruct (f x0) as [y0|e] eqn:Hf; simpl; [|discriminate].
    destruct (mapM f xs) as [ys'|e]; simpl; [|discriminate].
    intros [= <-]. constructor.
    + apply (HP x0); [now left | assumption].
    + apply IH; [|reflexivity]. intros x y Hin. apply HP. now right.
Qed.

Lemma mapM_ok {A B} (f : A -> result B) xs :
  (forall x, In x xs -> exists y, f x = Ok y) ->
  exists ys, mapM f xs = Ok ys.
Proof.
  induction xs as [|x0 xs IH]; intros H; simpl.
  - eauto.
  - destruct (H x0) as [y0 ->]; [now left|]. simpl.
    destruct IH as [ys ->]; [intros x Hx; apply H; now right|].
    simpl. eauto.
Qed.

End PyFacts.

(** ** The frame budget and the segment loop *)

Section Schedule.
Import Py RenderFlightSimple.
Local Open Scope Z_scope.

Lemma frames_per_segment_max (frames total_segments : Z) :
  0 < total_segments -> 0 <= frames ->
  frames_per_segment frames total_segments
  = Z.max 1 (frames / total_segments).
Proof.
  intros Hs Hf. unfold frames_per_segment.
  assert (0 <= frames / total_segments) by (apply Z.div_pos; lia).
  destruct (Z.ltb_spec 0 total_segments); [|lia].
  destruct (Z.eqb_spec (frames / total_segments) 0); simpl; lia.
Qed.

Lemma num_gcp_steps_pos (F : Z) : 1 <= F -> num_gcp_steps F = F - 1.
Proof.
  intros H. unfold num_gcp_steps.
  destruct (Z.ltb_spec 0 F); lia.
Qed.

Lemma in_segment_frames F frame_end i n f :
  In f (segment_frames F frame_end i n)
  <-> i * F + 1 <= f <= i * F + Z.of_nat n /\ f <= frame_end.
Proof.
  unfold segment_frames. rewrite filter_In, in_map_iff. split.
  - intros ((j & <- & Hj) & Hle).
    apply in_map_iff in Hj as (k & <- & Hk). apply in_seq in Hk.
    destruct (Z.ltb_spec frame_end (i * F + Z.of_nat k + 1)); [discriminate|].
    lia.
  - intros (Hr & Hle). split.
    + exists (f - i * F - 1). split; [lia|].
      apply in_map_iff. exists (Z.to_nat (f - i * F - 1)). split; [lia|].
      apply in_seq. lia.
    + destruct (Z.ltb_spec frame_end f); [lia | reflexivity].
Qed.

Lemma NoDup_segment_frames F frame_end i n :
  List.NoDup (segment_frames F frame_end i n).
Proof.
  unfold segment_frames. apply List.NoDup_filter.
  rewrite map_map. apply Finite.Injective_map_NoDup; [|apply List.seq_NoDup].
  intros a b. lia.
Qed.

Lemma fold_animate_point_frames F frame_end i pts jps props kfs :
  map kf_frame
      (fold_left (animate_point F frame_end i pts) jps (props, kfs)).2
  = map kf_frame kfs
    ++ List.filter (fun f => negb (frame_end <? f))
                   (map (fun jp => i * F + jp.1 + 1) jps).
Proof.
  revert props kfs. induction jps as [|[j p] jps IH]; intros props kfs.
  - simpl. now rewrite app_nil_r.
  - cbn [fold_left]. unfold animate_point at 2.
    cbn [map List.filter fst].
    destruct (Z.ltb_spec frame_end (i * F + j + 1)); cbn [negb].
    + apply IH.
    + destruct (j <? Z.of_nat (length pts) - 1).
      * destruct (orientation props p _) as [props' b].
        rewrite IH, map_app. cbn [map kf_frame].
        now rewrite <- app_assoc.
      * rewrite IH, map_app. cbn [map kf_frame].
        now rewrite <- app_assoc.
Qed.

Lemma map_fst_combine_same {A B} (xs : list A) (ys : list B) :
  length xs = length ys -> map fst (combine xs ys) = xs.
Proof.
  revert ys. induction xs as [|x xs IH]; intros [|y ys]; simpl;
    try discriminate; try reflexivity.
  intros [= H]. now rewrite IH.
Qed.

Lemma enumerate_fst {A} (xs : list A) :
  map fst (enumerate xs) = map Z.of_nat (seq 0 (length xs)).
Proof.
  unfold enumerate. apply map_fst_combine_same.
  now rewrite length_map, length_seq.
Qed.

Lemma segment_keyframes_frames F frame_end i pts props :
  map kf_frame
      (fold_left (animate_point F frame_end i pts) (enumerate pts)
                 (props, [])).2
  = segment_frames F frame_end i (length pts).
Proof.
  rewrite fold_animate_point_frames. cbn [map app].
  unfold segment_frames. rewrite <- enumerate_fst, map_map.
  reflexivity.
Qed.

End Schedule.
(** ** Great-circle interpolation *)

Section Sphere.
Import Py RenderFlightSimple.
Local Open Scope R_scope.

Lemma flt_true a b : flt a b = true <-> a < b.
Proof. unfold flt. destruct (Rlt_dec a b); split; auto; discriminate. Qed.

Lemma flt_false a b : flt a b = false <-> b <= a.
Proof. unfold flt. destruct (Rlt_dec a b); split; auto; try discriminate; lra. Qed.

Lemma feq_true a b : feq a b = true <-> a = b.
Proof. unfold feq. destruct (Req_dec_T a b); split; auto; discriminate. Qed.

Lemma feq_false a b : feq a b = false <-> a <> b.
Proof. unfold feq. destruct (Req_dec_T a b); split; auto; try discriminate; tauto. Qed.

Lemma pow2_eq_0 x : x ^ 2 = 0 -> x = 0.
Proof. intros H. nra. Qed.

Lemma sin2_cos2_sum x : sin x ^ 2 + cos x ^ 2 = 1.
Proof. pose proof (sin2_cos2 x) as H. unfold Rsqr in H. lra. Qed.

Lemma start_xyz_unit lat lon : sq_norm (start_xyz lat lon) = 1.
Proof.
  unfold start_xyz, sq_norm.
  pose proof (sin2_cos2_sum lat). pose proof (sin2_cos2_sum lon). nra.
Qed.

Lemma normalize_unit x y z :
  sqrt (x ^ 2 + y ^ 2 + z ^ 2) <> 0 ->
  let mag := sqrt (x ^ 2 + y ^ 2 + z ^ 2) in
  sq_norm (x / mag, y / mag, z / mag) = 1.
Proof.
  intros Hm mag. unfold sq_norm.
  assert (Hs : 0 <= x ^ 2 + y ^ 2 + z ^ 2) by nra.
  assert (Hmm : mag * mag = x ^ 2 + y ^ 2 + z ^ 2) by (apply sqrt_sqrt; exact Hs).
  fold mag in Hm.
  replace ((x / mag) ^ 2 + (y / mag) ^ 2 + (z / mag) ^ 2)
    with ((x ^ 2 + y ^ 2 + z ^ 2) / (mag * mag)) by (field; exact Hm).
  rewrite Hmm. field. rewrite <- Hmm. nra.
Qed.

Lemma gcp_point_unit slat slon elat elon d_sigma steps i p :
  gcp_point slat slon elat elon d_sigma steps i = Ok p -> sq_norm p = 1.
Proof.
  unfold gcp_point, truediv.
  destruct (Req_dec_T (IZR steps) 0); [discriminate|]. cbn [bind].
  set (t := IZR i / IZR steps).
  destruct (flt (Rabs d_sigma) 1e-10).
  - cbn [bind]. unfold start_xyz at 1.
    destruct (feq _ 0) eqn:E.
    + intros [= <-]. apply start_xyz_unit.
    + intros [= <-]. apply normalize_unit. now apply feq_false.
  - destruct (Req_dec_T (sin d_sigma) 0); [discriminate|]. cbn [bind].
    destruct (feq _ 0) eqn:E.
    + intros [= <-]. apply start_xyz_unit.
    + intros [= <-]. apply normalize_unit. now apply feq_false.
Qed.

Lemma sin_half_sq x : sin (x / 2) ^ 2 = (1 - cos x) / 2.
Proof.
  pose proof (cos_2a_sin (x / 2)) as H.
  replace (2 * (x / 2)) with x in H by field. lra.
Qed.

Lemma haversine_dot lat1 lon1 lat2 lon2 :
  haversine lat1 lon1 lat2 lon2
  = (1 - dot3 (start_xyz lat1 lon1) (start_xyz lat2 lon2)) / 2.
Proof.
  unfold haversine, dot3, start_xyz.
  rewrite !sin_half_sq, !cos_minus. field.
Qed.

Lemma unit_dot_bounds p q :
  sq_norm p = 1 -> sq_norm q = 1 -> -1 <= dot3 p q <= 1.
Proof.
  destruct p as [[x1 y1] z1], q as [[x2 y2] z2]. unfold sq_norm, dot3.
  intros Hp Hq.
  assert (Hm : (x1 - x2) ^ 2 + (y1 - y2) ^ 2 + (z1 - z2) ^ 2
               = (x1 ^ 2 + y1 ^ 2 + z1 ^ 2) + (x2 ^ 2 + y2 ^ 2 + z2 ^ 2)
                 - 2 * (x1 * x2 + y1 * y2 + z1 * z2)) by ring.
  assert (Hs : (x1 + x2) ^ 2 + (y1 + y2) ^ 2 + (z1 + z2) ^ 2
               = (x1 ^ 2 + y1 ^ 2 + z1 ^ 2) + (x2 ^ 2 + y2 ^ 2 + z2 ^ 2)
                 + 2 * (x1 * x2 + y1 * y2 + z1 * z2)) by ring.
  pose proof (pow2_ge_0 (x1 - x2)). pose proof (pow2_ge_0 (y1 - y2)).
  pose proof (pow2_ge_0 (z1 - z2)). pose proof (pow2_ge_0 (x1 + x2)).
  pose proof (pow2_ge_0 (y1 + y2)). pose proof (pow2_ge_0 (z1 + z2)).
  lra.
Qed.

Lemma haversine_bounds lat1 lon1 lat2 lon2 :
  0 <= haversine lat1 lon1 lat2 lon2 <= 1.
Proof.
  rewrite haversine_dot.
  pose proof (unit_dot_bounds _ _ (start_xyz_unit lat1 lon1)
                              (start_xyz_unit lat2 lon2)).
  lra.
Qed.

Lemma latlon_to_xyz_1 lat lon :
  latlon_to_xyz lat lon 1 = start_xyz (radians lat) (radians lon).
Proof. unfold latlon_to_xyz, start_xyz. f_equal; [f_equal|]; ring. Qed.

Lemma clamp_sqrt_haversine lat1 lon1 lat2 lon2 :
  let s := sqrt (haversine lat1 lon1 lat2 lon2) in
  Rmax (-1) (Rmin s 1) = s /\ 0 <= s <= 1.
Proof.
  intros s. pose proof (haversine_bounds lat1 lon1 lat2 lon2) as [H0 H1].
  assert (Hs0 : 0 <= s) by apply sqrt_pos.
  assert (Hs1 : s <= 1).
  { unfold s. rewrite <- sqrt_1. now apply sqrt_le_1_alt. }
  split; [|lra].
  rewrite Rmin_left by lra. rewrite Rmax_right by lra. reflexivity.
Qed.

Lemma asin_cap : 1 / 2 < PI / 2 - 6e-17 < PI / 2.
Proof. pose proof PI2_1. lra. Qed.

(** What the capped arc sine does on the values the code applies it to. *)
Lemma py_asin_spec s :
  0 <= s <= 1 ->
  0 <= Py.asin s <= PI / 2 - 6e-17
  /\ (Py.asin s <= 1 / 2 -> Py.asin s = Ratan.asin s).
Proof.
  intros Hs. pose proof asin_cap as Hcap.
  pose proof (asin_bound s) as [Hlb Hub].
  assert (H0 : 0 <= Ratan.asin s).
  { destruct (Rle_lt_dec 0 (Ratan.asin s)) as [H|H]; [exact H|].
    pose proof PI_RGT_0.
    assert (sin (Ratan.asin s) < 0) by (apply sin_lt_0_var; lra).
    rewrite sin_asin in *; lra. }
  unfold Py.asin, Rmin.
  destruct (Rle_dec (Ratan.asin s) (PI / 2 - 6e-17)); split; lra.
Qed.

Lemma d_sigma_bounds lat1 lon1 lat2 lon2 :
  0 <= d_sigma_of lat1 lon1 lat2 lon2 <= PI.
Proof.
  unfold d_sigma_of.
  destruct (clamp_sqrt_haversine lat1 lon1 lat2 lon2) as [-> Hs].
  destruct (py_asin_spec _ Hs) as [H _]. lra.
Qed.

(** The angle never reaches [PI]. *)
Lemma d_sigma_lt_PI lat1 lon1 lat2 lon2 :
  d_sigma_of lat1 lon1 lat2 lon2 < PI.
Proof.
  unfold d_sigma_of.
  destruct (clamp_sqrt_haversine lat1 lon1 lat2 lon2) as [-> Hs].
  destruct (py_asin_spec _ Hs) as [H _]. lra.
Qed.

Lemma sin_half_d_sigma lat1 lon1 lat2 lon2 :
  d_sigma_of lat1 lon1 lat2 lon2 <= 1 ->
  sin (d_sigma_of lat1 lon1 lat2 lon2 / 2)
  = sqrt (haversine lat1 lon1 lat2 lon2).
Proof.
  unfold d_sigma_of.
  destruct (clamp_sqrt_haversine lat1 lon1 lat2 lon2) as [-> Hs].
  intros Hd. destruct (py_asin_spec _ Hs) as [_ Heq].
  replace (2 * Py.asin (sqrt (haversine lat1 lon1 lat2 lon2)) / 2)
    with (Py.asin (sqrt (haversine lat1 lon1 lat2 lon2))) by field.
  rewrite Heq by lra. apply sin_asin. lra.
Qed.

Lemma sin_d_sigma_nonzero lat1 lon1 lat2 lon2 :
  ~ Rabs (d_sigma_of lat1 lon1 lat2 lon2) < 1e-10 ->
  sin (d_sigma_of lat1 lon1 lat2 lon2) <> 0.
Proof.
  intros Hbig.
  pose proof (d_sigma_bounds lat1 lon1 lat2 lon2) as [H0 _].
  pose proof (d_sigma_lt_PI lat1 lon1 lat2 lon2) as Hpi.
  rewrite Rabs_pos_eq in Hbig by exact H0.
  assert (0 < sin (d_sigma_of lat1 lon1 lat2 lon2)); [|lra].
  apply sin_gt_0; lra.
Qed.

Lemma renormalize_unit x y z (dflt : R * R * R) :
  sq_norm (x, y, z) = 1 ->
  (if feq (sqrt (x ^ 2 + y ^ 2 + z ^ 2)) 0
   then @Ok (R * R * R) dflt
   else Ok (x / sqrt (x ^ 2 + y ^ 2 + z ^ 2),
            y / sqrt (x ^ 2 + y ^ 2 + z ^ 2),
            z / sqrt (x ^ 2 + y ^ 2 + z ^ 2)))
  = Ok (x, y, z).
Proof.
  unfold sq_norm. intros ->. rewrite sqrt_1.
  destruct (feq 1 0) eqn:E; [apply feq_true in E; lra|].
  do 2 f_equal; [f_equal|]; field.
Qed.

Lemma gcp_point_degenerate slat slon elat elon d_sigma steps i :
  IZR steps <> 0 -> Rabs d_sigma < 1e-10 ->
  gcp_point slat slon elat elon d_sigma steps i = Ok (start_xyz slat slon).
Proof.
  intros Hs Hd. unfold gcp_point, truediv.
  destruct (Req_dec_T (IZR steps) 0); [contradiction|]. cbn [bind].
  apply flt_true in Hd. rewrite Hd. cbn [bind]. unfold start_xyz at 1.
  apply renormalize_unit. apply (start_xyz_unit slat slon).
Qed.

Lemma gcp_point_first slat slon elat elon d_sigma steps :
  IZR steps <> 0 -> sin d_sigma <> 0 ->
  gcp_point slat slon elat elon d_sigma steps 0 = Ok (start_xyz slat slon).
Proof.
  intros Hs Hd. unfold gcp_point, truediv.
  destruct (Req_dec_T (IZR steps) 0); [contradiction|]. cbn [bind].
  destruct (flt (Rabs d_sigma) 1e-10).
  - cbn [bind]. unfold start_xyz at 1.
    apply renormalize_unit. apply (start_xyz_unit slat slon).
  - destruct (Req_dec_T (sin d_sigma) 0); [contradiction|]. cbn [bind].
    replace ((1 - 0 / IZR steps) * d_sigma) with d_sigma by (field; exact Hs).
    replace (0 / IZR steps * d_sigma) with 0 by (field; exact Hs).
    rewrite sin_0.
    replace (sin d_sigma / sin d_sigma) with 1 by (field; exact Hd).
    replace (0 / sin d_sigma) with 0 by (field; exact Hd).
    rewrite !Rmult_0_l, !Rplus_0_r, !Rmult_1_l.
    apply renormalize_unit. apply (start_xyz_unit slat slon).
Qed.

Lemma gcp_point_last slat slon elat elon d_sigma steps :
  IZR steps <> 0 -> sin d_sigma <> 0 -> ~ Rabs d_sigma < 1e-10 ->
  gcp_point slat slon elat elon d_sigma steps steps
  = Ok (start_xyz elat elon).
Proof.
  intros Hs Hd Hbig. unfold gcp_point, truediv.
  destruct (Req_dec_T (IZR steps) 0); [contradiction|]. cbn [bind].
  destruct (flt (Rabs d_sigma) 1e-10) eqn:E;
    [apply flt_true in E; contradiction|].
  destruct (Req_dec_T (sin d_sigma) 0); [contradiction|]. cbn [bind].
  replace ((1 - IZR steps / IZR steps) * d_sigma) with 0 by (field; exact Hs).
  replace (IZR steps / IZR steps * d_sigma) with d_sigma by (field; exact Hs).
  rewrite sin_0.
  replace (sin d_sigma / sin d_sigma) with 1 by (field; exact Hd).
  replace (0 / sin d_sigma) with 0 by (field; exact Hd).
  rewrite !Rmult_0_l, !Rplus_0_l, !Rmult_1_l.
  apply renormalize_unit. apply (start_xyz_unit elat elon).
Qed.

Lemma gcp_point_ok slat slon elat elon d_sigma steps i :
  IZR steps <> 0 -> (Rabs d_sigma < 1e-10 \/ sin d_sigma <> 0) ->
  exists p, gcp_point slat slon elat elon d_sigma steps i = Ok p.
Proof.
  intros Hs Hd. unfold gcp_point, truediv.
  destruct (Req_dec_T (IZR steps) 0); [contradiction|]. cbn [bind].
  destruct (flt (Rabs d_sigma) 1e-10) eqn:E.
  - cbn [bind]. unfold start_xyz at 1. destruct (feq _ 0); eauto.
  - destruct Hd as [Hd|Hd]; [apply flt_true in Hd; congruence|].
    destruct (Req_dec_T (sin d_sigma) 0); [contradiction|]. cbn [bind].
    destruct (feq _ 0); eauto.
Qed.

Lemma IZR_steps_nonzero steps : (1 <= steps)%Z -> IZR steps <> 0.
Proof. intros H. apply not_0_IZR. lia. Qed.

Lemma great_circle_points_length slat slon elat elon steps pts :
  great_circle_points slat slon elat elon steps = Ok pts ->
  length pts = Z.to_nat (steps + 1).
Proof.
  unfold great_circle_points.
  destruct (_ && _).
  - intros [= <-]. now rewrite length_map, length_range.
  - intros H. apply mapM_length in H. now rewrite H, length_range.
Qed.

Lemma great_circle_points_ok slat slon elat elon steps :
  (1 <= steps)%Z ->
  exists pts, great_circle_points slat slon elat elon steps = Ok pts.
Proof.
  intros Hs. unfold great_circle_points.
  destruct (_ && _); [eauto|].
  apply mapM_ok. intros i _. apply gcp_point_ok.
  - now apply IZR_steps_nonzero.
  - destruct (Rlt_dec (Rabs (d_sigma_of (radians slat) (radians slon)
                                        (radians elat) (radians elon)))
                      1e-10) as [H|H]; [now left|right].
    apply sin_d_sigma_nonzero. exact H.
Qed.

Lemma great_circle_points_unit slat slon elat elon steps pts :
  great_circle_points slat slon elat elon steps = Ok pts ->
  Forall (fun p => sq_norm p = 1) pts.
Proof.
  unfold great_circle_points.
  destruct (_ && _).
  - intros [= <-]. apply List.Forall_forall. intros p Hp.
    apply in_map_iff in Hp as (i & <- & _). apply start_xyz_unit.
  - apply mapM_Forall. intros i p _. apply gcp_point_unit.
Qed.

Lemma sin_sq_le x : sin x ^ 2 <= x ^ 2.
Proof.
  assert (Hpos : forall y, 0 < y -> sin y ^ 2 <= y ^ 2).
  { intros y Hy. destruct (Rle_lt_dec 1 y) as [H1|H1].
    - pose proof (SIN_bound y). nra.
    - pose proof PI2_1. pose proof (sin_lt_x y Hy).
      assert (0 < sin y) by (apply sin_gt_0; lra). nra. }
  destruct (Rtotal_order x 0) as [Hx|[->|Hx]].
  - specialize (Hpos (- x) ltac:(lra)). rewrite sin_neg in Hpos. nra.
  - rewrite sin_0. lra.
  - now apply Hpos.
Qed.

Lemma close_refl tol p : 0 <= tol -> close tol p p.
Proof.
  destruct p as [[x y] z]. unfold close. intros H.
  replace (x - x) with 0 by ring. replace (y - y) with 0 by ring.
  replace (z - z) with 0 by ring. rewrite Rabs_R0. auto.
Qed.

Lemma abs_le_of_sq d tol : 0 <= tol -> d ^ 2 <= tol ^ 2 -> Rabs d <= tol.
Proof. intros Ht Hd. apply Rabs_le. nra. Qed.

Lemma close_of_sq_dist tol p q :
  0 <= tol -> sq_dist p q <= tol ^ 2 -> close tol p q.
Proof.
  destruct p as [[x1 y1] z1], q as [[x2 y2] z2]. unfold sq_dist, close.
  intros Ht H.
  pose proof (pow2_ge_0 (x1 - x2)). pose proof (pow2_ge_0 (y1 - y2)).
  pose proof (pow2_ge_0 (z1 - z2)).
  repeat split; apply abs_le_of_sq; try assumption; lra.
Qed.

Lemma chord_haversine lat1 lon1 lat2 lon2 :
  sq_dist (start_xyz lat1 lon1) (start_xyz lat2 lon2)
  = 4 * haversine lat1 lon1 lat2 lon2.
Proof.
  rewrite haversine_dot.
  pose proof (start_xyz_unit lat1 lon1) as H1.
  pose proof (start_xyz_unit lat2 lon2) as H2.
  revert H1 H2.
  destruct (start_xyz lat1 lon1) as [[x1 y1] z1].
  destruct (start_xyz lat2 lon2) as [[x2 y2] z2].
  unfold sq_norm, sq_dist, dot3. intros H1 H2.
  replace ((x1 - x2) ^ 2 + (y1 - y2) ^ 2 + (z1 - z2) ^ 2)
    with ((x1 ^ 2 + y1 ^ 2 + z1 ^ 2) + (x2 ^ 2 + y2 ^ 2 + z2 ^ 2)
          - 2 * (x1 * x2 + y1 * y2 + z1 * z2)) by ring.
  lra.
Qed.

Lemma haversine_small_of_close lat1 lon1 lat2 lon2 :
  Rabs (lat2 - lat1) < 1e-10 -> Rabs (lon2 - lon1) < 1e-10 ->
  4 * haversine lat1 lon1 lat2 lon2 <= 2e-20.
Proof.
  intros Hlat Hlon. unfold haversine.
  pose proof (sin_sq_le ((lat2 - lat1) / 2)) as Ha.
  pose proof (sin_sq_le ((lon2 - lon1) / 2)) as Hb.
  pose proof (pow2_ge_0 (sin ((lon2 - lon1) / 2))) as Hb0.
  pose proof (COS_bound lat1) as Hc1. pose proof (COS_bound lat2) as Hc2.
  assert (Hcc : cos lat1 * cos lat2 <= 1) by nra.
  apply Rabs_def2 in Hlat. apply Rabs_def2 in Hlon.
  assert (Hla : (lat2 - lat1) ^ 2 <= 1e-20) by nra.
  assert (Hlo : (lon2 - lon1) ^ 2 <= 1e-20) by nra.
  assert (Hb' : cos lat1 * cos lat2 * sin ((lon2 - lon1) / 2) ^ 2
                <= ((lon2 - lon1) / 2) ^ 2) by nra.
  nra.
Qed.

Lemma haversine_small_of_d_sigma lat1 lon1 lat2 lon2 :
  Rabs (d_sigma_of lat1 lon1 lat2 lon2) < 1e-10 ->
  4 * haversine lat1 lon1 lat2 lon2 <= 1e-20.
Proof.
  intros Hd.
  pose proof (sin_half_d_sigma lat1 lon1 lat2 lon2) as Hs.
  lapply Hs; [clear Hs; intros Hs | apply Rabs_def2 in Hd; lra].
  pose proof (haversine_bounds lat1 lon1 lat2 lon2) as [H0 _].
  pose proof (sin_sq_le (d_sigma_of lat1 lon1 lat2 lon2 / 2)) as Hle.
  rewrite Hs in Hle.
  replace (sqrt (haversine lat1 lon1 lat2 lon2) ^ 2)
    with (haversine lat1 lon1 lat2 lon2) in Hle
    by (simpl; rewrite Rmult_1_r, sqrt_sqrt; [reflexivity | exact H0]).
  apply Rabs_def2 in Hd. nra.
Qed.

Lemma coincident_close slat slon elat elon :
  coincident slat slon elat elon ->
  close 1e-9 (start_xyz (radians slat) (radians slon))
             (start_xyz (radians elat) (radians elon)).
Proof.
  intros Hc. apply close_of_sq_dist; [lra|].
  rewrite chord_haversine.
  destruct Hc as [[Hlat Hlon]|Hd].
  - pose proof (haversine_small_of_close _ _ _ _ Hlat Hlon). lra.
  - pose proof (haversine_small_of_d_sigma _ _ _ _ Hd). lra.
Qed.

Lemma mapM_const {A B} (f : A -> result B) (c : B) xs :
  (forall x, In x xs -> f x = Ok c) ->
  mapM f xs = Ok (map (fun _ => c) xs).
Proof.
  induction xs as [|x xs IH]; intros H; simpl; [reflexivity|].
  rewrite (H x) by now left. simpl.
  rewrite IH by (intros y Hy; apply H; now right). reflexivity.
Qed.

Lemma map_const_range {B} (c : B) n :
  map (fun _ => c) (range n) = repeat c (Z.to_nat n).
Proof.
  unfold range. rewrite map_map.
  generalize 0%nat. induction (Z.to_nat n) as [|k IH]; intros s0; simpl;
    [reflexivity | now rewrite IH].
Qed.

Lemma nth_error_repeat_lt {B} (c : B) n k :
  (k < n)%nat -> nth_error (repeat c n) k = Some c.
Proof.
  revert k. induction n as [|n IH]; intros [|k] H; simpl; try lia;
    [reflexivity | apply IH; lia].
Qed.

(** C3.  For every pair of points and every [steps >= 1],
    [great_circle_points] returns exactly [steps + 1] samples.  The first sample agrees with the start point and
    the last with the end point up to [1e-9] in every coordinate; they are
    equal to them when the code interpolates, and when the two points
    coincide (either test of the code against [1e-10] succeeds) the result
    is [steps + 1] repetitions of the start point. *)
Theorem great_circle_points_samples
    (start_lat start_lon end_lat end_lon : R) (steps : Z) :
  (1 <= steps)%Z ->
  exists pts first last,
    great_circle_points start_lat start_lon end_lat end_lon steps = Ok pts
    /\ length pts = Z.to_nat (steps + 1)
    /\ nth_error pts 0 = Some first
    /\ nth_error pts (Z.to_nat steps) = Some last
    /\ close 1e-9 first (latlon_to_xyz start_lat start_lon 1)
    /\ close 1e-9 last (latlon_to_xyz end_lat end_lon 1)
    /\ (~ coincident start_lat start_lon end_lat end_lon ->
        first = latlon_to_xyz start_lat start_lon 1
        /\ last = latlon_to_xyz end_lat end_lon 1)
    /\ (coincident start_lat start_lon end_lat end_lon ->
        pts = repeat (latlon_to_xyz start_lat start_lon 1)
                     (Z.to_nat (steps + 1))).
Proof.
  intros Hsteps. rewrite !latlon_to_xyz_1.
  set (slat := radians start_lat). set (slon := radians start_lon).
  set (elat := radians end_lat). set (elon := radians end_lon).
  set (u := start_xyz slat slon). set (v := start_xyz elat elon).
  assert (Hnz : IZR steps <> 0) by now apply IZR_steps_nonzero.
  assert (Hrep : forall pts,
    great_circle_points start_lat start_lon end_lat end_lon steps = Ok pts ->
    coincident start_lat start_lon end_lat end_lon ->
    pts = repeat u (Z.to_nat (steps + 1)) ->
    exists pts first last,
      great_circle_points start_lat start_lon end_lat end_lon steps = Ok pts
      /\ length pts = Z.to_nat (steps + 1)
      /\ nth_error pts 0 = Some first
      /\ nth_error pts (Z.to_nat steps) = Some last
      /\ close 1e-9 first u /\ close 1e-9 last v
      /\ (~ coincident start_lat start_lon end_lat end_lon ->
          first = u /\ last = v)
      /\ (coincident start_lat start_lon end_lat end_lon ->
          pts = repeat u (Z.to_nat (steps + 1)))).
  { intros pts Hgcp Hco ->. exists (repeat u (Z.to_nat (steps + 1))), u, u.
    split; [exact Hgcp|]. split; [apply repeat_length|].
    split; [apply nth_error_repeat_lt; lia|].
    split; [apply nth_error_repeat_lt; lia|].
    split; [apply close_refl; lra|].
    split; [now apply coincident_close|].
    split; [intros Hn; contradiction | reflexivity]. }
  assert (Hdef :
    great_circle_points start_lat start_lon end_lat end_lon steps
    = if flt (Rabs (elat - slat)) 1e-10 && flt (Rabs (elon - slon)) 1e-10
      then Ok (map (fun _ => u) (range (steps + 1)))
      else mapM (gcp_point slat slon elat elon
                           (d_sigma_of slat slon elat elon) steps)
                (range (steps + 1))) by reflexivity.
  destruct (flt (Rabs (elat - slat)) 1e-10 && flt (Rabs (elon - slon)) 1e-10)
    eqn:Hbr.
  - apply andb_prop in Hbr as [H1 H2].
    apply flt_true in H1, H2.
    apply (Hrep (repeat u (Z.to_nat (steps + 1)))).
    + now rewrite Hdef, map_const_range.
    + left. split; assumption.
    + reflexivity.
  - set (d := d_sigma_of slat slon elat elon) in *.
    destruct (Rlt_dec (Rabs d) 1e-10) as [Hsmall|Hbig].
    + apply (Hrep (repeat u (Z.to_nat (steps + 1)))).
      * rewrite Hdef, <- map_const_range. apply mapM_const.
        intros i _. now apply gcp_point_degenerate.
      * right. exact Hsmall.
      * reflexivity.
    + assert (Hsin : sin d <> 0).
      { apply sin_d_sigma_nonzero. exact Hbig. }
      destruct (mapM_ok (gcp_point slat slon elat elon d steps)
                        (range (steps + 1))) as [pts Hpts].
      { intros i _. apply gcp_point_ok; auto. }
      destruct (mapM_nth_error _ _ _ 0%nat 0%Z Hpts) as (first & Hf & Hnf).
      { rewrite nth_error_range by lia. reflexivity. }
      destruct (mapM_nth_error _ _ _ (Z.to_nat steps) steps Hpts)
        as (last & Hl & Hnl).
      { rewrite nth_error_range by lia. f_equal. lia. }
      rewrite gcp_point_first in Hf by assumption.
      rewrite gcp_point_last in Hl by assumption.
      injection Hf as <-. injection Hl as <-.
      exists pts, u, v.
      split; [now rewrite Hdef|].
      split; [apply mapM_length in Hpts; now rewrite Hpts, length_range|].
      split; [exact Hnf|]. split; [exact Hnl|].
      split; [apply close_refl; lra|]. split; [apply close_refl; lra|].
      split; [auto|].
      intros [[H1 H2]|H3].
      * apply flt_true in H1, H2. fold slat elat in H1. fold slon elon in H2.
        rewrite H1, H2 in Hbr. discriminate.
      * contradiction.
Qed.

(** C4.  For every pair of points and every [steps >= 1],
    [great_circle_points] returns its samples, and every one of them has
    Euclidean magnitude 1 within [1e-6]: on the branch that repeats the
    start point and on the interpolation branch, which renormalizes. *)
Theorem great_circle_points_unit_magnitude
    (start_lat start_lon end_lat end_lon : R) (steps : Z) :
  (1 <= steps)%Z ->
  exists pts,
    great_circle_points start_lat start_lon end_lat end_lon steps = Ok pts
    /\ Forall (fun p => Rabs (magnitude p - 1) <= 1e-6) pts.
Proof.
  intros Hsteps.
  destruct (great_circle_points_ok
              start_lat start_lon end_lat end_lon _ Hsteps) as [pts Hpts].
  exists pts. split; [exact Hpts|].
  apply great_circle_points_unit in Hpts.
  eapply List.Forall_impl; [|exact Hpts]. cbv beta.
  intros p Hp. unfold magnitude. rewrite Hp, sqrt_1.
  replace (1 - 1) with 0 by ring. rewrite Rabs_R0. lra.
Qed.

(** With no step at all the interpolation divides by zero, unless the two
points pass the first test for coinciding: this is what happens to every
segment when [frames_per_segment] is 1. *)
Lemma great_circle_points_zero_steps slat slon elat elon :
flt (Rabs (radians elat - radians slat)) 1e-10
&& flt (Rabs (radians elon - radians slon)) 1e-10 = false ->
great_circle_points slat slon elat elon 0 = Raise ZeroDivisionError.
Proof.
intros Hbr. unfold great_circle_points. rewrite Hbr.
change (range (0 + 1)) with [0%Z]. cbn [mapM].
unfold gcp_point at 1, truediv at 1.
destruct (Req_dec_T (IZR 0) 0) as [_|Hne]; [reflexivity|].
exfalso. apply Hne. reflexivity.
Qed.
End Sphere.

(** ** Orientation frames *)

Section Frames.
Import Py Mathutils RenderFlightSimple.
Local Open Scope R_scope.

Lemma Vector_eq a b :
  vx a = vx b -> vy a = vy b -> vz a = vz b -> a = b.
Proof. destruct a, b. simpl. now intros -> -> ->. Qed.

Lemma unit_length a : unit_vector a -> Mathutils.length a = 1.
Proof. unfold unit_vector, Mathutils.length. intros ->. apply sqrt_1. Qed.

Lemma length_zero : Mathutils.length zero = 0.
Proof.
  unfold Mathutils.length, length_squared, dot, zero. simpl.
  replace (0 * 0 + 0 * 0 + 0 * 0) with 0 by ring. apply sqrt_0.
Qed.

Lemma length_squared_nonneg a : 0 <= length_squared a.
Proof. unfold length_squared, dot. nra. Qed.

Lemma dot_cross_l a b : dot (cross a b) a = 0.
Proof. unfold dot, cross. simpl. ring. Qed.

Lemma dot_cross_r a b : dot (cross a b) b = 0.
Proof. unfold dot, cross. simpl. ring. Qed.

Lemma dot_comm a b : dot a b = dot b a.
Proof. unfold dot. ring. Qed.

Lemma lagrange a b :
  length_squared (cross a b)
  = length_squared a * length_squared b - dot a b ^ 2.
Proof. unfold length_squared, dot, cross. simpl. ring. Qed.

Lemma dot_scale_l a k b : dot (scale a k) b = k * dot a b.
Proof. unfold dot, scale. simpl. ring. Qed.

Lemma length_squared_scale a k :
  length_squared (scale a k) = k ^ 2 * length_squared a.
Proof. unfold length_squared, dot, scale. simpl. ring. Qed.

Lemma length_squared_neg a : length_squared (neg a) = length_squared a.
Proof. unfold length_squared, dot, neg. simpl. ring. Qed.

Lemma cross_zero_l a : cross zero a = zero.
Proof. unfold cross, zero. simpl. apply Vector_eq; simpl; ring. Qed.

(** [normalized] gives a unit vector along its argument, or the zero
    vector when the argument is too short. *)
Lemma normalized_big a :
  1e-35 < length_squared a ->
  unit_vector (normalized a)
  /\ forall b, dot a b = 0 -> dot (normalized a) b = 0.
Proof.
  intros H. unfold normalized.
  destruct (Rlt_dec 1e-35 (length_squared a)) as [_|n]; [|contradiction].
  assert (Hl : 0 < Mathutils.length a).
  { unfold Mathutils.length. apply sqrt_lt_R0. lra. }
  assert (Hll : Mathutils.length a * Mathutils.length a = length_squared a).
  { unfold Mathutils.length. apply sqrt_sqrt. lra. }
  split.
  - unfold unit_vector. rewrite length_squared_scale, <- Hll.
    field. lra.
  - intros b Hb. rewrite dot_scale_l, Hb. ring.
Qed.

Lemma normalized_cases a :
  normalized a = zero
  \/ (unit_vector (normalized a)
      /\ forall b, dot a b = 0 -> dot (normalized a) b = 0).
Proof.
  destruct (Rlt_dec 1e-35 (length_squared a)) as [H|H].
  - right. now apply normalized_big.
  - left. unfold normalized.
    destruct (Rlt_dec 1e-35 (length_squared a)); [contradiction|reflexivity].
Qed.

Lemma normalized_unit a : unit_vector a -> normalized a = a.
Proof.
  intros Hu. unfold normalized. rewrite (unit_length a Hu).
  unfold unit_vector in Hu. rewrite Hu.
  destruct (Rlt_dec 1e-35 1); [|lra].
  apply Vector_eq; simpl; field.
Qed.

(** The cross product of two perpendicular unit vectors is a unit vector,
    and [normalized] leaves it alone. *)
Lemma cross_unit a b :
  unit_vector a -> unit_vector b -> dot a b = 0 -> unit_vector (cross a b).
Proof.
  unfold unit_vector. intros Ha Hb Hab. rewrite lagrange, Ha, Hb, Hab. ring.
Qed.

(** The fallback of lines 408-412 yields a unit vector perpendicular to
    [up]. *)
Lemma reference_right up :
  unit_vector up ->
  let r := if flt (Rabs (vz up)) 0.9
           then normalized (cross up (mkVector 0 0 1))
           else normalized (cross up (mkVector 0 1 0)) in
  unit_vector r /\ dot r up = 0.
Proof.
  intros Hu r.
  assert (Hbig : 1e-35 < length_squared
            (if flt (Rabs (vz up)) 0.9
             then cross up (mkVector 0 0 1) else cross up (mkVector 0 1 0))).
  { destruct (flt (Rabs (vz up)) 0.9) eqn:E.
    - apply flt_true in E. apply Rabs_def2 in E.
      rewrite lagrange. unfold unit_vector in Hu. rewrite Hu.
      unfold length_squared, dot. simpl. nra.
    - apply flt_false in E.
      assert (0.81 <= vz up ^ 2).
      { unfold Rabs in E. destruct (Rcase_abs (vz up)); nra. }
      rewrite lagrange. unfold unit_vector in Hu. rewrite Hu.
      unfold length_squared, dot in *. simpl. nra. }
  subst r.
  destruct (flt (Rabs (vz up)) 0.9);
    destruct (normalized_big _ Hbig) as [H1 H2];
    (split; [exact H1 | apply H2, dot_cross_l]).
Qed.

Lemma normalized_cross_l up d :
  degenerate_or_perp up (normalized (cross up d)).
Proof.
  destruct (normalized_cases (cross up d)) as [H|[H1 H2]];
    [now left | right].
  split; [exact H1 | apply H2, dot_cross_l].
Qed.

Lemma normalized_cross_perp up w :
  unit_vector up -> degenerate_or_perp up w ->
  (w = zero /\ normalized (cross w up) = zero)
  \/ (unit_vector w /\ dot w up = 0
      /\ normalized (cross w up) = cross w up
      /\ unit_vector (cross w up)).
Proof.
  intros Hu [->|[Hw Hd]].
  - left. split; [reflexivity|]. rewrite cross_zero_l.
    unfold normalized.
    destruct (Rlt_dec _ _) as [H|_]; [|reflexivity].
    unfold length_squared, dot, zero in H. simpl in H. lra.
  - right. pose proof (cross_unit w up Hw Hu Hd) as Hc.
    repeat split; try assumption. now apply normalized_unit.
Qed.

Lemma frame_of_orthonormal up direction :
  unit_vector up -> orthonormal (frame_of up direction).2.
Proof.
  intros Hu. unfold frame_of.
  set (rv := normalized (cross up direction)).
  set (tf := normalized (cross rv up)).
  (* the right vector finally used is a unit vector perpendicular to up *)
  set (fr := if flt (Mathutils.length (cross up tf)) 0.0001 then _ else _).
  assert (Hfr : unit_vector fr /\ dot fr up = 0).
  { subst fr.
    destruct (normalized_cross_perp up rv Hu (normalized_cross_l up direction))
      as [[_ Htf]|(Hrv & Hrvu & Htf & Htfu)]; fold tf in Htf.
    - rewrite Htf.
      replace (cross up zero) with zero
        by (apply Vector_eq; unfold cross, zero; simpl; ring).
      rewrite length_zero.
      destruct (flt 0 0.0001) eqn:E; [|apply flt_false in E; lra].
      pose proof (reference_right up Hu) as [Hr1 Hr2]. cbv zeta in Hr1, Hr2.
      rewrite (unit_length _ Hr1).
      destruct (flt 1 0.0001) eqn:E1; [apply flt_true in E1; lra|].
      split; assumption.
    - assert (Hc : unit_vector (cross up tf)).
      { apply cross_unit; try assumption.
        - rewrite Htf. exact Htfu.
        - rewrite Htf, dot_comm. apply dot_cross_r. }
      rewrite (unit_length _ Hc).
      destruct (flt 1 0.0001) eqn:E1; [apply flt_true in E1; lra|].
      split; [exact Hc | apply dot_cross_l]. }
  destruct Hfr as [Hfr1 Hfr2].
  pose proof (cross_unit fr up Hfr1 Hu Hfr2) as Hff.
  rewrite (normalized_unit _ Hff), (unit_length _ Hff).
  destruct (flt 1 0.0001) eqn:E1; [apply flt_true in E1; lra|].
  cbn [snd final_right final_up final_forward]. unfold orthonormal.
  cbn [final_right final_up final_forward].
  repeat split.
  - exact Hfr2.
  - rewrite dot_comm. apply dot_cross_l.
  - rewrite dot_comm. apply dot_cross_r.
  - now apply unit_length.
  - now apply unit_length.
  - now apply unit_length.
Qed.

Lemma unit_of_tuple p :
  (let '(x, y, z) := p in x ^ 2 + y ^ 2 + z ^ 2) = 1 ->
  unit_vector (of_tuple p).
Proof.
  destruct p as [[x y] z]. unfold unit_vector, length_squared, dot. simpl.
  intros H. lra.
Qed.

Lemma up_vector_unit current :
  unit_vector current -> neg (normalized current) = neg current
                         /\ unit_vector (neg current).
Proof.
  intros H. rewrite (normalized_unit _ H). split; [reflexivity|].
  unfold unit_vector. now rewrite length_squared_neg.
Qed.

Lemma orientation_basis props p q :
  (orientation props p q).2
  = (frame_of (neg (normalized (of_tuple p)))
       (steady_direction
          (mkProps (Some (travel_direction props (of_tuple p) (of_tuple q)))
                   (previous_right_vector props))
          (neg (normalized (of_tuple p)))
          (travel_direction props (of_tuple p) (of_tuple q)))).2.
Proof.
  unfold orientation. now destruct (frame_of _ _).
Qed.

Lemma orientation_orthonormal_exact props p q :
  unit_vector (of_tuple p) -> orthonormal (orientation props p q).2.
Proof.
  intros Hu. rewrite orientation_basis.
  destruct (up_vector_unit _ Hu) as [-> Hup].
  now apply frame_of_orthonormal.
Qed.

Lemma orthonormal_is_within tol b :
  0 <= tol -> orthonormal b -> orthonormal_within tol b.
Proof.
  intros Ht (H1 & H2 & H3 & H4 & H5 & H6). unfold orthonormal_within.
  rewrite H1, H2, H3, H4, H5, H6.
  replace (1 - 1) with 0 by ring. rewrite Rabs_R0. tauto.
Qed.

(** C5.  The basis [orientation] returns for a sample on the unit sphere
    is orthonormal within any tolerance [tol >= 0]: the dot products of
    distinct axes are 0 and each axis has length 1 up to [tol].  This holds
    whatever the next sample and the remembered vectors are, and so on every
    path through the code, the pole-crossing one included. *)
Theorem orientation_orthonormal props point_coords next_point_coords tol :
  (let '(x, y, z) := point_coords in x ^ 2 + y ^ 2 + z ^ 2 = 1) ->
  0 <= tol ->
  orthonormal_within tol (orientation props point_coords next_point_coords).2.
Proof.
  intros Hu Ht. apply orthonormal_is_within; [exact Ht|].
  apply orientation_orthonormal_exact. apply unit_of_tuple.
  now destruct point_coords as [[x y] z].
Qed.

(** Double cross products with a unit vector perpendicular to the other
    argument. *)
Lemma cross_cross_expand a b :
  cross a (cross b a) = sub (scale b (dot a a)) (scale a (dot b a)).
Proof. unfold cross, sub, scale, dot. apply Vector_eq; simpl; ring. Qed.

Lemma cross_cross_l a b :
  unit_vector a -> dot b a = 0 -> cross a (cross b a) = b.
Proof.
  unfold unit_vector, length_squared. intros Ha Hab.
  rewrite cross_cross_expand, Ha, Hab.
  unfold sub, scale. apply Vector_eq; simpl; ring.
Qed.

Lemma cross_anticomm a b : cross a b = neg (cross b a).
Proof. unfold cross, neg. apply Vector_eq; simpl; ring. Qed.

Lemma cross_cross_r a b :
  unit_vector b -> dot b a = 0 -> cross (cross b a) b = a.
Proof.
  unfold unit_vector, length_squared. intros Hb Hba.
  rewrite (cross_anticomm (cross b a) b), (cross_anticomm b a).
  replace (cross b (neg (cross a b))) with (neg (cross b (cross a b)))
    by (unfold cross, neg; apply Vector_eq; simpl; ring).
  rewrite cross_cross_expand, Hb, (dot_comm a b), Hba.
  unfold neg, sub, scale. apply Vector_eq; simpl; ring.
Qed.

(** The regular case of [orientation]: the samples are far enough apart
    and the direction of travel is not nearly radial. *)
Lemma orientation_regular props p q :
  unit_vector (of_tuple p) ->
  let up := neg (normalized (of_tuple p)) in
  let direction := normalized (sub (of_tuple q) (of_tuple p)) in
  0.0001 < Mathutils.length (sub (of_tuple q) (of_tuple p)) ->
  Rabs (dot direction up) <= 0.999 ->
  let b := (orientation props p q).2 in
  unit_vector (final_right b)
  /\ final_right b = normalized (cross up direction)
  /\ final_forward b = cross (final_right b) up
  /\ final_up b = up
  /\ final_right b = cross (final_up b) (final_forward b)
  /\ final_up b = cross (final_forward b) (final_right b).
Proof.
  intros Hp up direction Hfar Hreg b. subst b.
  rewrite orientation_basis. fold up.
  assert (Htd : travel_direction props (of_tuple p) (of_tuple q) = direction).
  { unfold travel_direction, fgt.
    destruct (flt 0.0001 _) eqn:E; [reflexivity|].
    apply flt_false in E. lra. }
  rewrite Htd.
  assert (Hsd : forall pr, steady_direction pr up direction = direction).
  { intros pr. unfold steady_direction, fgt.
    destruct (flt 0.999 _) eqn:E; [|reflexivity].
    apply flt_true in E. lra. }
  rewrite Hsd.
  destruct (up_vector_unit _ Hp) as [Hupeq Hup]. fold up in Hupeq.
  rewrite <- Hupeq in Hup.
  (* the direction is a unit vector *)
  assert (Hdir : unit_vector direction).
  { apply normalized_big.
    assert (Hl := length_squared_nonneg (sub (of_tuple q) (of_tuple p))).
    unfold Mathutils.length in Hfar.
    destruct (Rle_lt_dec (length_squared (sub (of_tuple q) (of_tuple p)))
                         1e-35) as [Hs|Hs]; [|exact Hs].
    exfalso.
    assert (sqrt (length_squared (sub (of_tuple q) (of_tuple p)))
            <= sqrt 1e-8) by (apply sqrt_le_1_alt; lra).
    assert (sqrt 1e-8 = 0.0001) by (apply sqrt_lem_1; lra).
    lra. }
  (* up x direction is long enough to be normalized *)
  assert (Hrv : unit_vector (normalized (cross up direction))
                /\ dot (normalized (cross up direction)) up = 0).
  { assert (Hbig : 1e-35 < length_squared (cross up direction)).
    { rewrite lagrange. unfold unit_vector in Hup, Hdir.
      rewrite Hup, Hdir, (dot_comm up direction).
      assert (- 0.999 <= dot direction up <= 0.999).
      { revert Hreg. unfold Rabs. destruct (Rcase_abs _); lra. }
      nra. }
    destruct (normalized_big _ Hbig) as [H1 H2].
    split; [exact H1 | apply H2, dot_cross_l]. }
  destruct Hrv as [Hrv1 Hrv2].
  unfold frame_of.
  set (rv := normalized (cross up direction)) in *.
  pose proof (cross_unit rv up Hrv1 Hup Hrv2) as Htf.
  rewrite (normalized_unit _ Htf).
  rewrite (cross_cross_l up rv Hup Hrv2).
  rewrite (unit_length _ Hrv1).
  destruct (flt 1 0.0001) eqn:E1; [apply flt_true in E1; lra|].
  rewrite (normalized_unit _ Htf), (unit_length _ Htf), E1.
  cbn [snd final_right final_up final_forward].
  repeat split; try assumption; try reflexivity.
  - symmetry. now apply cross_cross_l.
  - symmetry. apply cross_cross_r; [exact Hrv1 | exact Hrv2].
Qed.


(** C6, as amended.  When the two samples are more than 0.0001 apart and
    the direction of travel is not nearly radial, [render_flight_simple.py]
    returns [right = normalized (up x direction)], recomputes
    [forward = right x up] and leaves [up] the radial vector, so that
    [right = up x forward] and [up = forward x right].  It is
    [render_flight.py] that computes [right = forward x up] and then
    [up = right x forward]. *)
Theorem orientation_handedness props point_coords next_point_coords :
  (let '(x, y, z) := point_coords in x ^ 2 + y ^ 2 + z ^ 2 = 1) ->
  let current := of_tuple point_coords in
  let next := of_tuple next_point_coords in
  let radial := neg (normalized current) in
  let direction := normalized (sub next current) in
  0.0001 < Mathutils.length (sub next current) ->
  Rabs (dot direction radial) <= 0.999 ->
  (let b := (orientation props point_coords next_point_coords).2 in
   final_right b = normalized (cross radial direction)
   /\ final_forward b = cross (final_right b) radial
   /\ final_up b = radial
   /\ final_right b = cross (final_up b) (final_forward b)
   /\ final_up b = cross (final_forward b) (final_right b))
  /\ (let b := RenderFlight.orientation point_coords next_point_coords in
      RenderFlight.forward b = direction
      /\ RenderFlight.right b = cross (RenderFlight.forward b) radial
      /\ RenderFlight.up b
         = cross (RenderFlight.right b) (RenderFlight.forward b)).
Proof.
  intros Hu current next radial direction Hfar Hreg. split.
  - assert (Hp : unit_vector (of_tuple point_coords)).
    { apply unit_of_tuple. now destruct point_coords as [[x y] z]. }
    destruct (orientation_regular props point_coords next_point_coords
                Hp Hfar Hreg) as (_ & H1 & H2 & H3 & H4 & H5).
    cbv zeta. repeat split; assumption.
  - cbv zeta. unfold RenderFlight.orientation.
    cbn [RenderFlight.forward RenderFlight.right RenderFlight.up].
    repeat split.
Qed.

Lemma unit_not_opposite v : unit_vector v -> v <> neg v.
Proof.
  unfold unit_vector, length_squared, dot. intros Hv Heq.
  assert (Hx : vx v = - vx v) by (rewrite Heq at 1; reflexivity).
  assert (Hy : vy v = - vy v) by (rewrite Heq at 1; reflexivity).
  assert (Hz : vz v = - vz v) by (rewrite Heq at 1; reflexivity).
  assert (vx v = 0) by lra. assert (vy v = 0) by lra.
  assert (vz v = 0) by lra. nra.
Qed.

Lemma sample_current_unit : unit_vector (of_tuple sample_current).
Proof. unfold unit_vector, length_squared, dot. simpl. ring. Qed.

Lemma sample_chord_length :
  Mathutils.length (sub (of_tuple sample_next) (of_tuple sample_current))
  = 6 / 5.
Proof.
  unfold Mathutils.length, length_squared, dot. simpl.
  apply sqrt_lem_1; lra.
Qed.

Lemma sample_direction :
  normalized (sub (of_tuple sample_next) (of_tuple sample_current))
  = mkVector (- 3 / 5) (4 / 5) 0.
Proof.
  unfold normalized. rewrite sample_chord_length.
  destruct (Rlt_dec _ _) as [_|n].
  - apply Vector_eq; simpl; field.
  - exfalso. apply n. unfold length_squared, dot. simpl. lra.
Qed.

Lemma sample_regular :
  0.0001 < Mathutils.length (sub (of_tuple sample_next)
                                  (of_tuple sample_current))
  /\ Rabs (dot (normalized (sub (of_tuple sample_next)
                                (of_tuple sample_current)))
               (neg (normalized (of_tuple sample_current)))) <= 0.999.
Proof.
  split; [rewrite sample_chord_length; lra|].
  rewrite sample_direction, (normalized_unit _ sample_current_unit).
  unfold dot, neg. simpl.
  replace (- 3 / 5 * - (1) + 4 / 5 * - 0 + 0 * - 0) with (3 / 5) by field.
  rewrite Rabs_pos_eq; lra.
Qed.

(** C6 fails on [render_flight_simple.py]: for two samples on the equator,
    in the regular case, [right] is not [forward x up] and [up] is not
    [right x forward]. *)
Lemma orientation_not_forward_cross_up :
  let b := (orientation no_props sample_current sample_next).2 in
  Rabs (dot (normalized (sub (of_tuple sample_next)
                             (of_tuple sample_current)))
            (neg (normalized (of_tuple sample_current)))) <= 0.999
  /\ final_right b <> cross (final_forward b) (final_up b)
  /\ final_up b <> cross (final_right b) (final_forward b).
Proof.
  destruct sample_regular as [Hfar Hreg].
  destruct (orientation_regular no_props sample_current sample_next
              sample_current_unit Hfar Hreg)
    as (Hunit & _ & _ & Hup & Hr & Hu).
  cbv zeta in *. split; [exact Hreg|]. split.
  - intros Heq. rewrite cross_anticomm, <- Hr in Heq.
    now apply (unit_not_opposite _ Hunit).
  - intros Heq. rewrite cross_anticomm, <- Hu in Heq.
    apply (unit_not_opposite (final_up
             (orientation no_props sample_current sample_next).2));
      [|exact Heq].
    rewrite Hup.
    destruct (up_vector_unit _ sample_current_unit) as [-> H]. exact H.
Qed.


(** Flying from one pole to the other: the direction of travel is the
radial vector itself, and the test of line 387 sends the computation down
the pole-crossing path. *)
Lemma pole_crossing_is_degenerate :
let current := of_tuple (0, 0, 1) in
let next := of_tuple (0, 0, -1) in
fgt (Rabs (dot (travel_direction no_props current next)
               (neg (normalized current)))) 0.999 = true.
Proof.
cbv zeta.
assert (Hlen : Mathutils.length (sub (of_tuple (0, 0, -1))
                                     (of_tuple (0, 0, 1))) = 2).
{ unfold Mathutils.length, length_squared, dot. simpl.
  apply sqrt_lem_1; lra. }
assert (Hdir : travel_direction no_props (of_tuple (0, 0, 1))
                                (of_tuple (0, 0, -1))
               = mkVector 0 0 (-1)).
{ unfold travel_direction, fgt. rewrite Hlen.
  destruct (flt 0.0001 2) eqn:E; [|apply flt_false in E; lra].
  unfold normalized. rewrite Hlen.
  destruct (Rlt_dec _ _) as [_|n].
  - apply Vector_eq; simpl; field.
  - exfalso. apply n. unfold length_squared, dot. simpl. lra. }
assert (Hup : unit_vector (of_tuple (0, 0, 1))).
{ unfold unit_vector, length_squared, dot. simpl. ring. }
rewrite Hdir, (normalized_unit _ Hup).
unfold fgt. apply flt_true. unfold dot, neg. simpl.
replace (0 * - 0 + 0 * - 0 + -1 * - (1)) with 1 by ring.
rewrite Rabs_R1. lra.
Qed.
End Frames.

(** ** The flight plan: which frames each segment keys *)

Section Plan.
Import Py RenderFlightSimple.
Local Open Scope Z_scope.

Lemma animate_segments_frames F frame_end waypoints segments props out :
  animate_segments F frame_end waypoints segments props = Ok out ->
  map (map kf_frame) out
  = map (fun i => segment_frames F frame_end i
                    (Z.to_nat (num_gcp_steps F + 1))) segments.
Proof.
  revert props out. induction segments as [|i segments IH];
    intros props out; cbn [animate_segments].
  - now intros [= <-].
  - destruct (nth (Z.to_nat i) waypoints _) as [start_lat start_lon].
    destruct (nth (Z.to_nat (i + 1)) waypoints _) as [end_lat end_lon].
    destruct (great_circle_points _ _ _ _ _) as [pts|e] eqn:Hgcp;
      cbn [bind]; [|discriminate].
    pose proof (segment_keyframes_frames F frame_end i pts props) as Hk.
    destruct (fold_left _ _ _) as [props' kfs]. cbn [snd] in Hk.
    destruct (animate_segments _ _ _ _ props') as [rest|e] eqn:Hrest;
      cbn [bind]; [|discriminate].
    intros [= <-]. cbn [map]. rewrite Hk, (IH _ _ Hrest).
    now rewrite (great_circle_points_length _ _ _ _ _ _ Hgcp).
Qed.

Lemma animate_segments_ok F frame_end waypoints segments props :
  1 <= num_gcp_steps F ->
  exists out, animate_segments F frame_end waypoints segments props = Ok out.
Proof.
  intros Hsteps. revert props.
  induction segments as [|i segments IH]; intros props;
    cbn [animate_segments]; [eauto|].
  destruct (nth (Z.to_nat i) waypoints _) as [start_lat start_lon].
  destruct (nth (Z.to_nat (i + 1)) waypoints _) as [end_lat end_lon].
  destruct (great_circle_points_ok start_lat start_lon end_lat end_lon
              _ Hsteps) as [pts ->].
  cbn [bind]. destruct (fold_left _ _ _) as [props' kfs].
  destruct (IH props') as [rest ->].
  cbn [bind]. eauto.
Qed.

(** What a plan that [animate_plane] returns was computed from: the frame
    rate and the number of frames fit a C [int], and the segment loop ran
    against the last frame of the scene. *)
Lemma animate_plane_inv waypoints fps duration segs :
  animate_plane waypoints fps duration = Ok segs ->
  let total := total_frames fps duration in
  let total_segments := Z.of_nat (length waypoints) - 1 in
  Bpy.INT_MIN <= fps <= Bpy.INT_MAX
  /\ Bpy.INT_MIN <= total <= Bpy.INT_MAX
  /\ animate_segments (frames_per_segment total total_segments)
                      (scene_frame_end total) waypoints
                      (range total_segments) no_props
     = Ok segs.
Proof.
  intros H total total_segments.
  unfold animate_plane, Bpy.set_frame_end, Bpy.int_property in H.
  fold total total_segments in H.
  destruct (Z.ltb_spec fps Bpy.INT_MIN); [discriminate|].
  destruct (Z.ltb_spec Bpy.INT_MAX fps); [discriminate|].
  cbn [orb bind] in H.
  destruct (Z.ltb_spec total Bpy.INT_MIN); [discriminate|].
  destruct (Z.ltb_spec Bpy.INT_MAX total); [discriminate|].
  cbn [orb bind] in H.
  split; [lia|]. split; [lia|]. exact H.
Qed.

Lemma scene_frame_end_pos total :
  1 <= total -> scene_frame_end total = Z.min total Bpy.MAXFRAME.
Proof. unfold scene_frame_end, Bpy.MINFRAME, Bpy.MAXFRAME. lia. Qed.

Lemma keyed_frames_animate_plane waypoints fps duration segs :
  animate_plane waypoints fps duration = Ok segs ->
  let total_segments := Z.of_nat (length waypoints) - 1 in
  let F := frames_per_segment (total_frames fps duration) total_segments in
  length segs = Z.to_nat total_segments
  /\ forall i : nat,
       (i < Z.to_nat total_segments)%nat ->
       keyed_frames segs i
       = segment_frames F (scene_frame_end (total_frames fps duration))
                        (Z.of_nat i) (Z.to_nat (num_gcp_steps F + 1)).
Proof.
  intros H total_segments F. apply animate_plane_inv in H as (_ & _ & H).
  apply animate_segments_frames in H. fold total_segments F in H.
  split.
  - apply (f_equal (@length _)) in H.
    now rewrite !length_map, length_range in H.
  - intros i Hi. unfold keyed_frames.
      rewrite <- (map_nth (map kf_frame)). cbn [map].
    rewrite H.
    erewrite nth_indep; [|now rewrite length_map, length_range].
    rewrite (map_nth (fun i => segment_frames F _ i _) (range total_segments) 0).
    f_equal. unfold range.
    rewrite (map_nth Z.of_nat _ 0%nat), seq_nth by lia. reflexivity.
Qed.


Lemma frames_per_segment_ge_1 fps duration n :
  (2 <= n)%nat -> 1 <= fps -> 1 <= duration ->
  let F := frames_per_segment (total_frames fps duration) (Z.of_nat n - 1) in
  F = Z.max 1 (total_frames fps duration / (Z.of_nat n - 1)) /\ 1 <= F.
Proof.
  intros Hn Hfps Hdur F. subst F. unfold total_frames.
  rewrite frames_per_segment_max by nia. split; lia.
Qed.

(** The frames of segment [i] run from [i * F + 1] to [(i + 1) * F], cut
    at the last frame of the scene. *)
Lemma keyed_frames_range waypoints fps duration segs :
  (2 <= length waypoints)%nat -> 1 <= fps -> 1 <= duration ->
  animate_plane waypoints fps duration = Ok segs ->
  let total_segments := Z.of_nat (length waypoints) - 1 in
  let total := total_frames fps duration in
  let F := frames_per_segment total total_segments in
  forall (i : nat) (f : Z),
    In f (keyed_frames segs i)
    <-> Z.of_nat i < total_segments
        /\ Z.of_nat i * F + 1 <= f
           <= Z.min ((Z.of_nat i + 1) * F) (Z.min total Bpy.MAXFRAME).
Proof.
  intros Hn Hfps Hdur Hplan total_segments total F i f.
  assert (Hend : scene_frame_end total = Z.min total Bpy.MAXFRAME)
    by (apply scene_frame_end_pos; unfold total, total_frames; nia).
  destruct (frames_per_segment_ge_1 fps duration _ Hn Hfps Hdur) as [_ HF].
  fold total_segments total F in HF.
  destruct (keyed_frames_animate_plane _ _ _ _ Hplan) as [Hlen Hkf].
  fold total_segments total F in Hlen, Hkf. rewrite Hend in Hkf.
  destruct (Nat.lt_ge_cases i (Z.to_nat total_segments)) as [Hi|Hi].
  - rewrite (Hkf i Hi), in_segment_frames, num_gcp_steps_pos by exact HF.
    replace (F - 1 + 1) with F by ring. rewrite Z2Nat.id by lia.
    split; intros H; (split; [lia|]); lia.
  - unfold keyed_frames. rewrite nth_overflow by lia. cbn [map].
    split; [intros [] | lia].
Qed.

Lemma NoDup_keyed_frames waypoints fps duration segs i :
  animate_plane waypoints fps duration = Ok segs ->
  List.NoDup (keyed_frames segs i).
Proof.
  intros Hplan.
  destruct (keyed_frames_animate_plane _ _ _ _ Hplan) as [Hlen Hkf].
  destruct (Nat.lt_ge_cases i (Z.to_nat (Z.of_nat (length waypoints) - 1)))
    as [Hi|Hi].
  - rewrite (Hkf i Hi). apply NoDup_segment_frames.
  - unfold keyed_frames. rewrite nth_overflow by lia. constructor.
Qed.

Lemma animate_plane_ok waypoints fps duration :
  2 <= frames_per_segment (total_frames fps duration)
                          (Z.of_nat (length waypoints) - 1) ->
  Bpy.INT_MIN <= fps <= Bpy.INT_MAX ->
  Bpy.INT_MIN <= total_frames fps duration <= Bpy.INT_MAX ->
  exists segs, animate_plane waypoints fps duration = Ok segs.
Proof.
  intros HF Hfps Htotal.
  unfold animate_plane, Bpy.set_frame_end, Bpy.int_property.
  destruct (Z.ltb_spec fps Bpy.INT_MIN); [lia|].
  destruct (Z.ltb_spec Bpy.INT_MAX fps); [lia|].
  cbn [orb bind].
  destruct (Z.ltb_spec (total_frames fps duration) Bpy.INT_MIN); [lia|].
  destruct (Z.ltb_spec Bpy.INT_MAX (total_frames fps duration)); [lia|].
  cbn [orb bind].
  apply animate_segments_ok. rewrite num_gcp_steps_pos; lia.
Qed.

Lemma animate_plane_overflow waypoints fps duration :
  1 <= fps -> Bpy.INT_MAX < total_frames fps duration ->
  exists e, animate_plane waypoints fps duration = Raise e.
Proof.
  intros Hfps Htotal.
  unfold animate_plane, Bpy.set_frame_end, Bpy.int_property.
  destruct (_ || _); cbn [bind]; [eauto|].
  destruct (Z.ltb_spec (total_frames fps duration) Bpy.INT_MIN);
    cbn [orb bind]; [eauto|].
  destruct (Z.ltb_spec Bpy.INT_MAX (total_frames fps duration));
    cbn [orb bind]; [eauto|lia].
Qed.

(** C1, as amended.  For at least two waypoints, [fps >= 1] and
    [duration >= 1], [frames_per_segment] is [floor(total / (N-1))] and at
    least 1.  The last frame of the scene is [total], up to the largest
    frame Blender supports, [MAXFRAME].  Segment [i] keys the frames from
    [i * F + 1] to [(i + 1) * F], cut at the last frame of the scene; no
    frame is keyed twice; every frame from 1 to [(N-1) * F], as far as the
    scene goes, is keyed by exactly one segment; and the frames after
    [(N-1) * F] are keyed by none: the last segment is cut at the end of
    the scene but never extended to it.  The plan exists whenever
    [F >= 2] and [total] fits a C [int]; when [total] does not fit, the
    script raises and keys nothing. *)
Theorem segments_cover_without_overlap waypoints fps duration :
  (2 <= length waypoints)%nat -> 1 <= fps -> 1 <= duration ->
  let total_segments := Z.of_nat (length waypoints) - 1 in
  let total := total_frames fps duration in
  let F := frames_per_segment total total_segments in
  let frame_end := Z.min total Bpy.MAXFRAME in
  F = Z.max 1 (total / total_segments)
  /\ (forall segs,
        animate_plane waypoints fps duration = Ok segs ->
        (forall (i : nat) (f : Z),
           In f (keyed_frames segs i)
           <-> Z.of_nat i < total_segments
               /\ Z.of_nat i * F + 1 <= f
                  <= Z.min ((Z.of_nat i + 1) * F) frame_end)
        /\ (forall i, List.NoDup (keyed_frames segs i))
        /\ (forall f, 1 <= f <= Z.min (total_segments * F) frame_end ->
              exists! i, In f (keyed_frames segs i))
        /\ (forall f, total_segments * F < f ->
              forall i, ~ In f (keyed_frames segs i)))
  /\ (2 <= F -> total <= Bpy.INT_MAX ->
      exists segs, animate_plane waypoints fps duration = Ok segs)
  /\ (Bpy.INT_MAX < total ->
      exists e, animate_plane waypoints fps duration = Raise e).
Proof.
  intros Hn Hfps Hdur total_segments total F frame_end.
  destruct (frames_per_segment_ge_1 fps duration _ Hn Hfps Hdur) as [HFeq HF].
  fold total_segments total F in HFeq, HF.
  assert (Htot : fps <= total) by (unfold total, total_frames; nia).
  split; [exact HFeq|].
  split; [|split;
           [intros H2 Hmax; apply animate_plane_ok;
            [exact H2 | unfold Bpy.INT_MIN; lia
            | fold total; unfold Bpy.INT_MIN; lia]
           |now apply animate_plane_overflow]].
  intros segs Hplan.
  pose proof (keyed_frames_range _ _ _ _ Hn Hfps Hdur Hplan) as Hrange.
  fold total_segments total F frame_end in Hrange.
  split; [exact Hrange|].
  split; [intros i; eapply NoDup_keyed_frames; eassumption|].
  split.
  - intros f Hf.
    assert (Hq : 0 <= (f - 1) / F) by (apply Z.div_pos; lia).
    pose proof (Z.div_mod (f - 1) F ltac:(lia)) as Hdm.
    pose proof (Z.mod_pos_bound (f - 1) F ltac:(lia)) as Hmod.
    exists (Z.to_nat ((f - 1) / F)). split.
    + apply Hrange. rewrite Z2Nat.id by exact Hq.
      assert ((f - 1) / F < total_segments)
        by (apply Z.div_lt_upper_bound; lia).
      split; [assumption|]. nia.
    + intros i' Hi'. apply Hrange in Hi' as [_ Hi'].
      assert (Z.of_nat i' = (f - 1) / F); [|lia].
      apply Z.div_unique with (r := f - 1 - Z.of_nat i' * F); lia.
  - intros f Hf i Hi. apply Hrange in Hi as [Hlt Hi]. nia.
Qed.


(** C1 fails for five waypoints, 30 frames per second and one second:
    [F = 7], the four segments key frames 1 to 28, and frame 29 of the 30
    frames is keyed by no segment. *)
Lemma five_cities_frame_29_unkeyed :
  exists segs,
    animate_plane five_cities 30 1 = Ok segs
    /\ 1 <= 29 <= total_frames 30 1
    /\ ~ exists i, In 29 (keyed_frames segs i).
Proof.
  destruct (animate_plane_ok five_cities 30 1) as [segs Hplan].
  - change (Z.of_nat (length five_cities) - 1) with 4.
    vm_compute. discriminate.
  - unfold Bpy.INT_MIN, Bpy.INT_MAX. lia.
  - unfold Bpy.INT_MIN, Bpy.INT_MAX. vm_compute. split; discriminate.
  - exists segs. split; [exact Hplan|]. split; [vm_compute; split; discriminate|].
    intros [i Hi].
    apply (keyed_frames_range five_cities 30 1 segs) in Hi;
      [|simpl; lia|lia|lia|exact Hplan].
    change (Z.of_nat (length five_cities) - 1) with 4 in Hi.
    change (frames_per_segment (total_frames 30 1) 4) with 7 in Hi.
    change (total_frames 30 1) with 30 in Hi. unfold Bpy.MAXFRAME in Hi.
    lia.
Qed.


(** Every rotation the plan keys is an orthonormal basis: the samples it is
computed from lie on the unit sphere. *)
Lemma fold_animate_point_rotations F frame_end i pts jps props kfs :
(forall j p, In (j, p) jps -> sq_norm p = 1%R) ->
Forall (fun kf => forall b, kf_rotation kf = Some b -> orthonormal b) kfs ->
Forall (fun kf => forall b, kf_rotation kf = Some b -> orthonormal b)
       (fold_left (animate_point F frame_end i pts) jps (props, kfs)).2.
Proof.
revert props kfs. induction jps as [|[j p] jps IH]; intros props kfs Hu Hk;
  cbn [fold_left]; [exact Hk|].
assert (Hu' : forall j p, In (j, p) jps -> sq_norm p = 1%R)
  by (intros j' p' Hin; apply (Hu j'); now right).
assert (Hp : unit_vector (Mathutils.of_tuple p)).
{ apply unit_of_tuple. specialize (Hu j p (or_introl eq_refl)).
  now destruct p as [[x y] z]. }
unfold animate_point at 2.
destruct (frame_end <? i * F + j + 1); [now apply IH|].
destruct (j <? Z.of_nat (length pts) - 1).
- pose proof (orientation_orthonormal_exact props p
                (nth (Z.to_nat (j + 1)) pts p) Hp) as Hb.
  destruct (orientation props p _) as [props' b]. cbn [snd] in Hb.
  apply IH; [exact Hu'|]. apply Forall_app. split; [exact Hk|].
  constructor; [|constructor]. cbn [kf_rotation]. now intros b' [= <-].
- apply IH; [exact Hu'|]. apply Forall_app. split; [exact Hk|].
  constructor; [|constructor]. cbn [kf_rotation]. discriminate.
Qed.

Lemma animate_segments_rotations F frame_end waypoints segments props out :
animate_segments F frame_end waypoints segments props = Ok out ->
Forall (Forall (fun kf =>
                  forall b, kf_rotation kf = Some b -> orthonormal b)) out.
Proof.
revert props out. induction segments as [|i segments IH];
  intros props out; cbn [animate_segments].
- intros [= <-]. constructor.
- destruct (nth (Z.to_nat i) waypoints _) as [start_lat start_lon].
  destruct (nth (Z.to_nat (i + 1)) waypoints _) as [end_lat end_lon].
  destruct (great_circle_points _ _ _ _ _) as [pts|e] eqn:Hgcp;
    cbn [bind]; [|discriminate].
  pose proof (fold_animate_point_rotations F frame_end i pts (enumerate pts)
                props []) as Hk.
  destruct (fold_left _ _ _) as [props' kfs]. cbn [snd] in Hk.
  destruct (animate_segments _ _ _ _ props') as [rest|e] eqn:Hrest;
    cbn [bind]; [|discriminate].
  intros [= <-]. constructor; [|now apply (IH props')].
  apply Hk; [|constructor].
  intros j p Hin. apply in_combine_r in Hin.
  apply great_circle_points_unit in Hgcp.
  rewrite List.Forall_forall in Hgcp. now apply Hgcp.
Qed.

(** The plan for New York to London at 30 frames per second, with no
    duration in the request. *)
Lemma two_cities_plan :
  exists seg,
    planned_keyframes two_cities 30 None = Ok [seg]
    /\ map kf_frame seg = map Z.of_nat (seq 1 150).
Proof.
  unfold planned_keyframes.
  change (Renderer.effective_duration (Z.of_nat (length two_cities)) None)
    with 5.
  destruct (animate_plane_ok two_cities 30 5) as [segs Hplan].
  - change (Z.of_nat (length two_cities) - 1) with 1.
    vm_compute. discriminate.
  - unfold Bpy.INT_MIN, Bpy.INT_MAX. lia.
  - unfold Bpy.INT_MIN, Bpy.INT_MAX. vm_compute. split; discriminate.
  - destruct (keyed_frames_animate_plane _ _ _ _ Hplan) as [Hlen Hkf].
    change (Z.of_nat (length two_cities) - 1) with 1 in Hlen, Hkf.
    specialize (Hkf 0%nat ltac:(simpl; lia)).
    destruct segs as [|seg [|seg' segs]]; try discriminate Hlen.
    exists seg. split; [exact Hplan|].
    unfold keyed_frames in Hkf. cbn [nth] in Hkf. rewrite Hkf.
    vm_compute. reflexivity.
Qed.

Lemma visible_when_never_hidden (fcurve : gmap Z bool) (frame : Z) :
  (forall k v, In (k, v) (map_to_list fcurve) -> v = false) ->
  label_visible fcurve frame = true.
Proof.
  intros Hall. unfold label_visible, fcurve_eval.
  assert (Hl : forall l acc kv,
    (forall k v, In (k, v) l -> v = false) ->
    (forall kv', acc = Some kv' -> kv'.2 = false) ->
    foldr (latest_upto frame) acc l = Some kv -> kv.2 = false).
  { induction l as [|[k v] l IH]; intros acc kv Hlv Hacc; cbn [foldr].
    - apply Hacc.
    - unfold latest_upto at 1. cbn [fst].
      assert (Hv : v = false) by (apply (Hlv k); now left).
      assert (Hl' : forall k v, In (k, v) l -> v = false)
        by (intros k' v' Hin; apply (Hlv k'); now right).
      destruct (k <=? frame); [|now apply IH].
      destruct (foldr (latest_upto frame) acc l) as [[k0 v0]|] eqn:E.
      + destruct (k0 <? k); intros [= <-]; [exact Hv|].
        apply (IH acc (k0, v0) Hl' Hacc E).
      + intros [= <-]. exact Hv. }
  assert (He : forall l kv,
    (forall k v, In (k, v) l -> v = false) ->
    foldr earliest None l = Some kv -> kv.2 = false).
  { induction l as [|[k v] l IH]; intros kv Hlv; cbn [foldr];
      [discriminate|].
    unfold earliest at 1. cbn [fst].
    assert (Hv : v = false) by (apply (Hlv k); now left).
    assert (Hl' : forall k v, In (k, v) l -> v = false)
      by (intros k' v' Hin; apply (Hlv k'); now right).
    destruct (foldr earliest None l) as [[k0 v0]|] eqn:E.
    - destruct (k <? k0); intros [= <-]; [exact Hv|].
      apply (IH (k0, v0) Hl' eq_refl).
    - intros [= <-]. exact Hv. }
  destruct (foldr (latest_upto frame) None (map_to_list fcurve))
    as [kv|] eqn:E1.
  - rewrite (Hl _ None kv Hall ltac:(discriminate) E1). reflexivity.
  - destruct (foldr earliest None (map_to_list fcurve)) as [kv|] eqn:E2;
      cbn [fmap option_fmap option_map]; [|reflexivity].
    rewrite (He _ kv Hall E2). reflexivity.
Qed.

Lemma two_cities_labels :
  exists label0 label1,
    planned_labels two_cities 30 None = [label0; label1]
    /\ label0 !! 1 = Some false
    /\ (forall f, label_visible label0 f = true)
    /\ label1 !! 150 = Some false
    /\ label_visible label1 150 = true.
Proof.
  exists (animate_label 150 1 150 0), (animate_label 150 1 150 1).
  split; [reflexivity|].
  split; [vm_compute; reflexivity|].
  split.
  - intros f. apply visible_when_never_hidden.
    replace (map_to_list (animate_label 150 1 150 0))
      with [(150, false); (1, false)] by (vm_compute; reflexivity).
    intros k v [[= _ <-]|[[= _ <-]|[]]]; reflexivity.
  - split; vm_compute; reflexivity.
Qed.

(** C2, as amended.  For New York and London at 30 frames per second and
    no duration in the request: the duration is 5 seconds, there are 150
    frames, [frames_per_segment] is 150, the interpolation is called with
    149 steps, the plan has one segment of exactly 150 position samples on
    the frames 1 to 150, label 0 has a visible keyframe at frame 1 and is
    visible at every frame, and label 1 has a visible keyframe at frame 150
    and is visible there. *)
Theorem two_cities_end_to_end :
  Renderer.effective_duration (Z.of_nat (length two_cities)) None = 5
  /\ total_frames 30 5 = 150
  /\ frames_per_segment 150 (Z.of_nat (length two_cities) - 1) = 150
  /\ num_gcp_steps 150 = 149
  /\ (exists seg,
        planned_keyframes two_cities 30 None = Ok [seg]
        /\ length seg = 150%nat
        /\ map kf_frame seg = map Z.of_nat (seq 1 150))
  /\ (exists label0 label1,
        planned_labels two_cities 30 None = [label0; label1]
        /\ label0 !! 1 = Some false
        /\ (forall f, label_visible label0 f = true)
        /\ label1 !! 150 = Some false
        /\ label_visible label1 150 = true).
Proof.
  split; [reflexivity|]. split; [reflexivity|]. split; [reflexivity|].
  split; [reflexivity|]. split; [|exact two_cities_labels].
  destruct two_cities_plan as (seg & Hplan & Hframes).
  exists seg. split; [exact Hplan|]. split; [|exact Hframes].
  apply (f_equal (@length _)) in Hframes.
  now rewrite !length_map, length_seq in Hframes.
Qed.

(** C2 fails on the number of samples: the plan has 150 of them, not 151,
    and the interpolation is called with 149 steps, not 150. *)
Lemma two_cities_not_151_samples :
  exists segs,
    planned_keyframes two_cities 30 None = Ok segs
    /\ length (concat segs) <> 151%nat
    /\ num_gcp_steps
         (frames_per_segment (total_frames 30 5)
                             (Z.of_nat (length two_cities) - 1)) <> 150.
Proof.
  destruct two_cities_plan as (seg & Hplan & Hframes).
  exists [seg]. split; [exact Hplan|]. split; [|vm_compute; discriminate].
  cbn [concat]. rewrite app_nil_r.
  apply (f_equal (@length _)) in Hframes.
  rewrite !length_map, length_seq in Hframes. rewrite Hframes. lia.
Qed.

End Plan.

(** ** Geocoding: retries and the cache *)

Section GeocoderFacts.
Import Py Geocoder.

Lemma queries_app t1 t2 : queries (t1 ++ t2) = (queries t1 + queries t2)%nat.
Proof. unfold queries. now rewrite filter_app, length_app. Qed.

Lemma queries_log t line : queries (t ++ [Log line]) = queries t.
Proof. rewrite queries_app. change (queries [Log line]) with 0%nat. lia. Qed.

Lemma queries_sleep t s : queries (t ++ [Sleep s]) = queries t.
Proof. rewrite queries_app. change (queries [Sleep s]) with 0%nat. lia. Qed.

Lemma queries_query t n : queries (t ++ [Query n]) = S (queries t).
Proof. rewrite queries_app. change (queries [Query n]) with 1%nat. lia. Qed.

Lemma timeline_app t1 t2 : timeline (t1 ++ t2) = timeline t1 ++ timeline t2.
Proof. unfold timeline. apply List.filter_app. Qed.

Lemma timeline_log t line : timeline (t ++ [Log line]) = timeline t.
Proof. rewrite timeline_app. cbn. apply app_nil_r. Qed.

Lemma timeline_query t n : timeline (t ++ [Query n]) = timeline t ++ [Query n].
Proof. now rewrite timeline_app. Qed.

Lemma timeline_sleep t s : timeline (t ++ [Sleep s]) = timeline t ++ [Sleep s].
Proof. now rewrite timeline_app. Qed.

Lemma failed_attempts_S location_name from k :
  failed_attempts location_name from (S k)
  = Query location_name :: Sleep (2 ^ (from + 1))%Z
      :: failed_attempts location_name (from + 1) k.
Proof.
  unfold failed_attempts. cbn [seq flat_map app].
  replace (from + 1 + Z.of_nat 0)%Z with (from + 1)%Z by lia.
  do 2 f_equal. rewrite <- seq_shift, flat_map_concat_map, map_map,
    <- flat_map_concat_map.
  apply flat_map_ext. intros i.
  replace (from + 1 + Z.of_nat (S i))%Z with (from + 1 + 1 + Z.of_nat i)%Z
    by lia.
  reflexivity.
Qed.

(** What one run of the retry loop does, by the first reply that is not
    a transient failure. *)
Lemma geocode_loop_spec svc location_name max_retries fuel retry_count tr :
  fuel = Z.to_nat (max_retries - retry_count) ->
  let '(r, tr') :=
    geocode_loop svc location_name max_retries fuel retry_count tr in
  let n0 := queries tr in
  ((forall j, (j < fuel)%nat -> transient (svc (n0 + j)%nat location_name))
   /\ r = None
   /\ queries tr' = (n0 + fuel)%nat
   /\ timeline tr' = timeline tr ++ failed_attempts location_name retry_count fuel
   /\ last tr' = Some (Log (FailedAfter location_name max_retries)))
  \/ (exists k,
        (k < fuel)%nat
        /\ (forall j, (j < k)%nat ->
              transient (svc (n0 + j)%nat location_name))
        /\ ~ transient (svc (n0 + k)%nat location_name)
        /\ queries tr' = (n0 + k + 1)%nat
        /\ timeline tr'
           = timeline tr ++ failed_attempts location_name retry_count k
               ++ [Query location_name]
        /\ match svc (n0 + k)%nat location_name with
           | Located latitude longitude =>
               r = Some (latitude, longitude)
               /\ last tr'
                  = Some (Log (Geocoded location_name (latitude, longitude)))
           | NoLocation =>
               r = None
               /\ last tr' = Some (Log (CouldNotGeocode location_name))
           | OtherException msg =>
               r = None /\ last tr' = Some (Log (UnexpectedError msg))
           | _ => False
           end).
Proof.
  revert retry_count tr. induction fuel as [|fuel IH]; intros rc tr Hfuel.
  - cbn [geocode_loop]. cbv zeta. left.
    split; [intros j Hj; lia|]. split; [reflexivity|].
    split; [rewrite queries_log; lia|].
    split; [rewrite timeline_log; cbn; now rewrite app_nil_r|].
    apply last_snoc.
  - cbn [geocode_loop].
    destruct (Z.ltb_spec rc max_retries) as [Hlt|Hge]; [|lia].
    rewrite queries_log.
    set (tr1 := (tr ++ [Log (Geocoding location_name)])
                  ++ [Query location_name]).
    assert (Hq1 : queries tr1 = S (queries tr)).
    { unfold tr1. now rewrite queries_query, queries_log. }
    assert (Hs1 : timeline tr1 = timeline tr ++ [Query location_name]).
    { unfold tr1. now rewrite timeline_query, timeline_log. }
    assert (Hfinal : forall r0 line,
      ~ transient (svc (queries tr) location_name) ->
      match svc (queries tr) location_name with
      | Located latitude longitude =>
          r0 = Some (latitude, longitude)
          /\ Some (Log line)
             = Some (Log (Geocoded location_name (latitude, longitude)))
      | NoLocation =>
          r0 = None
          /\ Some (Log line) = Some (Log (CouldNotGeocode location_name))
      | OtherException msg =>
          r0 = None /\ Some (Log line) = Some (Log (UnexpectedError msg))
      | _ => False
      end ->
      exists k,
        (k < S fuel)%nat
        /\ (forall j, (j < k)%nat ->
              transient (svc (queries tr + j)%nat location_name))
        /\ ~ transient (svc (queries tr + k)%nat location_name)
        /\ queries (tr1 ++ [Log line]) = (queries tr + k + 1)%nat
        /\ timeline (tr1 ++ [Log line])
           = timeline tr ++ failed_attempts location_name rc k
               ++ [Query location_name]
        /\ match svc (queries tr + k)%nat location_name with
           | Located latitude longitude =>
               r0 = Some (latitude, longitude)
               /\ last (tr1 ++ [Log line])
                  = Some (Log (Geocoded location_name (latitude, longitude)))
           | NoLocation =>
               r0 = None
               /\ last (tr1 ++ [Log line])
                  = Some (Log (CouldNotGeocode location_name))
           | OtherException msg =>
               r0 = None
               /\ last (tr1 ++ [Log line]) = Some (Log (UnexpectedError msg))
           | _ => False
           end).
    { intros r0 line Hnt Hm. exists 0%nat.
      rewrite !Nat.add_0_r.
      split; [lia|]. split; [intros j Hj; lia|]. split; [exact Hnt|].
      split; [rewrite queries_log, Hq1; lia|].
      split; [now rewrite timeline_log, Hs1|].
      rewrite last_snoc. exact Hm. }
    assert (Hretry : forall msg r tr',
      transient (svc (queries tr) location_name) ->
      geocode_loop svc location_name max_retries fuel (rc + 1)
        (tr1 ++ [Log (AttemptFailed (rc + 1) (2 ^ (rc + 1)) msg);
                 Sleep (2 ^ (rc + 1))]) = (r, tr') ->
      ((forall j, (j < S fuel)%nat ->
          transient (svc (queries tr + j)%nat location_name))
       /\ r = None
       /\ queries tr' = (queries tr + S fuel)%nat
       /\ timeline tr'
          = timeline tr ++ failed_attempts location_name rc (S fuel)
       /\ last tr' = Some (Log (FailedAfter location_name max_retries)))
      \/ (exists k,
            (k < S fuel)%nat
            /\ (forall j, (j < k)%nat ->
                  transient (svc (queries tr + j)%nat location_name))
            /\ ~ transient (svc (queries tr + k)%nat location_name)
            /\ queries tr' = (queries tr + k + 1)%nat
            /\ timeline tr'
               = timeline tr ++ failed_attempts location_name rc k
                   ++ [Query location_name]
            /\ match svc (queries tr + k)%nat location_name with
               | Located latitude longitude =>
                   r = Some (latitude, longitude)
                   /\ last tr'
                      = Some (Log (Geocoded location_name
                                            (latitude, longitude)))
               | NoLocation =>
                   r = None
                   /\ last tr' = Some (Log (CouldNotGeocode location_name))
               | OtherException msg =>
                   r = None /\ last tr' = Some (Log (UnexpectedError msg))
               | _ => False
               end)).
    { intros msg r tr' Htr Hloop.
      set (tr2 := tr1 ++ [Log (AttemptFailed (rc + 1) (2 ^ (rc + 1)) msg);
                          Sleep (2 ^ (rc + 1))]) in *.
      assert (Hq2 : queries tr2 = S (queries tr)).
      { unfold tr2.
        change [Log (AttemptFailed (rc + 1) (2 ^ (rc + 1)) msg);
                Sleep (2 ^ (rc + 1))]
          with ([Log (AttemptFailed (rc + 1) (2 ^ (rc + 1)) msg)]
                  ++ [Sleep (2 ^ (rc + 1))]).
        now rewrite app_assoc, queries_sleep, queries_log. }
      assert (Hs2 : timeline tr2
                    = timeline tr ++ [Query location_name;
                                      Sleep (2 ^ (rc + 1))%Z]).
      { unfold tr2.
        change [Log (AttemptFailed (rc + 1) (2 ^ (rc + 1)) msg);
                Sleep (2 ^ (rc + 1))]
          with ([Log (AttemptFailed (rc + 1) (2 ^ (rc + 1)) msg)]
                  ++ [Sleep (2 ^ (rc + 1))]).
        now rewrite app_assoc, timeline_sleep, timeline_log, Hs1, <- app_assoc. }
      specialize (IH (rc + 1)%Z tr2 ltac:(lia)).
      rewrite Hloop in IH. cbv zeta in IH. rewrite Hq2, Hs2 in IH.
      assert (Hshift : forall k,
        (forall j, (j < k)%nat ->
           transient (svc (S (queries tr) + j)%nat location_name)) ->
        forall j, (j < S k)%nat ->
           transient (svc (queries tr + j)%nat location_name)).
      { intros k Hall [|j] Hj; [now rewrite Nat.add_0_r|].
        replace (queries tr + S j)%nat with (S (queries tr) + j)%nat by lia.
        apply Hall. lia. }
      destruct IH as [(Hall & Hr0 & Hq & Hs & Hl)
                     |(k & Hk & Hall & Hnt & Hq & Hs & Hm)].
      - left. split; [now apply Hshift|].
        split; [exact Hr0|]. split; [lia|].
        split; [now rewrite Hs, failed_attempts_S, <- app_assoc|]. exact Hl.
      - right. exists (S k). split; [lia|].
        split; [now apply Hshift|].
        replace (queries tr + S k)%nat with (S (queries tr) + k)%nat by lia.
        split; [exact Hnt|]. split; [lia|].
        split; [now rewrite Hs, failed_attempts_S, <- !app_assoc|]. exact Hm. }
    destruct (svc (queries tr) location_name) as [la lo| |msg|msg|msg] eqn:Hr.
    + right. apply (Hfinal _ _ (fun H => H)). split; reflexivity.
    + right. apply (Hfinal _ _ (fun H => H)). split; reflexivity.
    + fold tr1.
      destruct (geocode_loop _ _ _ _ _ _) as [r tr'] eqn:Hloop.
      apply (Hretry msg r tr' I Hloop).
    + fold tr1.
      destruct (geocode_loop _ _ _ _ _ _) as [r tr'] eqn:Hloop.
      apply (Hretry msg r tr' I Hloop).
    + right. apply (Hfinal _ _ (fun H => H)). split; reflexivity.
Qed.


Lemma geocode_uncached_spec svc location_name max_retries tr :
  location_name <> EmptyString ->
  geocode_uncached svc location_name max_retries tr
  = geocode_loop svc location_name max_retries (Z.to_nat max_retries) 0 tr.
Proof.
  intros Hne. unfold geocode_uncached.
  destruct (String.eqb_spec location_name EmptyString); [contradiction|reflexivity].
Qed.

Lemma cache_get_fresh key v (c : cache_t) :
  cache_get key (take maxsize ((key, v) :: c)) = Some v.
Proof.
  change maxsize with (S 999). cbn [take firstn cache_get].
  now rewrite String.eqb_refl.
Qed.

Lemma geocode_hit svc location_name st v :
  cache_get location_name (cache st) = Some v ->
  geocode svc location_name st
  = (v, mkState ((location_name, v)
                   :: cache_remove location_name (cache st))
                (trace st)).
Proof. intros H. unfold geocode. now rewrite H. Qed.

(** Whatever [geocode] returns is in the cache afterwards. *)
Lemma geocode_caches_result svc location_name st :
  let '(r, st') := geocode svc location_name st in
  cache_get location_name (cache st') = Some r.
Proof.
  unfold geocode.
  destruct (cache_get location_name (cache st)) as [v|] eqn:E.
  - cbn [cache cache_get]. now rewrite String.eqb_refl.
  - destruct (geocode_uncached _ _ _ _) as [r tr'].
    cbn [cache]. apply cache_get_fresh.
Qed.

Lemma geocode_all_repeat_hit svc location_name v n st :
  cache_get location_name (cache st) = Some v ->
  let '(rs, st') := geocode_all svc (repeat location_name n) st in
  rs = repeat v n
  /\ trace st' = trace st
  /\ cache_get location_name (cache st') = Some v.
Proof.
  revert st. induction n as [|n IH]; intros st Hhit; cbn [repeat geocode_all].
  - auto.
  - rewrite (geocode_hit _ _ _ _ Hhit).
    set (st1 := mkState _ _).
    assert (Hhit1 : cache_get location_name (cache st1) = Some v).
    { unfold st1. cbn [cache cache_get]. now rewrite String.eqb_refl. }
    specialize (IH st1 Hhit1).
    destruct (geocode_all svc (repeat location_name n) st1) as [rs st'].
    destruct IH as (-> & Htr & Hc). repeat split; assumption.
Qed.

(** C8, as amended.  For a non-empty name, one run of [geocode] queries the
    collaborator at most [max_retries] times, and every query but the last
    one failed transiently (timed out or unavailable).  Queries and waits
    alternate: attempt number [a], when it fails transiently, is followed by
    a wait of [2 ^ a] seconds, attempts being counted from 1.  If all
    [max_retries] queries fail transiently the run gives up: it returns
    [None] and its last log line is the one for exhausted retries.  If,
    after [k] transient failures, the collaborator reports no match, the
    run returns [None] at once, with no further query and no further wait.
    A match is returned in the same way.  The code reports every failure as
    [None]; the kinds of failure differ in the log line. *)
Theorem geocode_retry_policy svc location_name max_retries tr :
  location_name <> EmptyString ->
  let '(r, tr') := geocode_uncached svc location_name max_retries tr in
  let n0 := queries tr in
  let attempts := (queries tr' - n0)%nat in
  (attempts <= Z.to_nat max_retries)%nat
  /\ (forall j, (j + 1 < attempts)%nat ->
        transient (svc (n0 + j)%nat location_name))
  /\ ((forall j, (j < Z.to_nat max_retries)%nat ->
         transient (svc (n0 + j)%nat location_name)) ->
      r = None
      /\ attempts = Z.to_nat max_retries
      /\ timeline tr'
         = timeline tr
             ++ failed_attempts location_name 0 (Z.to_nat max_retries)
      /\ last tr' = Some (Log (FailedAfter location_name max_retries)))
  /\ (forall k,
        (k < Z.to_nat max_retries)%nat ->
        (forall j, (j < k)%nat ->
           transient (svc (n0 + j)%nat location_name)) ->
        svc (n0 + k)%nat location_name = NoLocation ->
        r = None
        /\ attempts = (k + 1)%nat
        /\ timeline tr'
           = timeline tr ++ failed_attempts location_name 0 k
               ++ [Query location_name]
        /\ last tr' = Some (Log (CouldNotGeocode location_name)))
  /\ (forall k latitude longitude,
        (k < Z.to_nat max_retries)%nat ->
        (forall j, (j < k)%nat ->
           transient (svc (n0 + j)%nat location_name)) ->
        svc (n0 + k)%nat location_name = Located latitude longitude ->
        r = Some (latitude, longitude)
        /\ attempts = (k + 1)%nat
        /\ timeline tr'
           = timeline tr ++ failed_attempts location_name 0 k
               ++ [Query location_name]).
Proof.
  intros Hne. rewrite (geocode_uncached_spec _ _ _ _ Hne).
  pose proof (geocode_loop_spec svc location_name max_retries
                (Z.to_nat max_retries) 0 tr
                ltac:(now rewrite Z.sub_0_r)) as H.
  destruct (geocode_loop _ _ _ _ _ _) as [r tr']. cbv zeta in *.
  set (n0 := queries tr) in *. set (fuel := Z.to_nat max_retries) in *.
  assert (Hdef : forall k k',
    (forall j, (j < k)%nat -> transient (svc (n0 + j)%nat location_name)) ->
    ~ transient (svc (n0 + k)%nat location_name) ->
    (forall j, (j < k')%nat -> transient (svc (n0 + j)%nat location_name)) ->
    ~ transient (svc (n0 + k')%nat location_name) ->
    k = k').
  { intros k k' H1 H2 H3 H4.
    destruct (Nat.lt_trichotomy k k') as [Hlt|[Heq|Hgt]]; [|exact Heq|].
    - exfalso. apply H2, H3, Hlt.
    - exfalso. apply H4, H1, Hgt. }
  destruct H as [(Hall & Hr & Hq & Hs & Hl)
                |(k & Hk & Hall & Hnt & Hq & Hs & Hm)].
  - rewrite Hq. replace (n0 + fuel - n0)%nat with fuel by lia.
    split; [lia|]. split; [intros j Hj; apply Hall; lia|].
    split; [intros _; auto|].
    split.
    + intros k Hk _ Hno. exfalso.
      specialize (Hall k Hk). now rewrite Hno in Hall.
    + intros k la lo Hk _ Hloc. exfalso.
      specialize (Hall k Hk). now rewrite Hloc in Hall.
  - rewrite Hq. replace (n0 + k + 1 - n0)%nat with (k + 1)%nat by lia.
    split; [lia|]. split; [intros j Hj; apply Hall; lia|].
    split; [intros Hall'; exfalso; apply Hnt, Hall', Hk|].
    split.
    + intros k' Hk' Hall' Hno.
      assert (k = k').
      { apply Hdef; try assumption. now rewrite Hno. }
      subst k'. rewrite Hno in Hm. destruct Hm as [-> Hl]. auto.
    + intros k' la lo Hk' Hall' Hloc.
      assert (k = k').
      { apply Hdef; try assumption. now rewrite Hloc. }
      subst k'. rewrite Hloc in Hm. destruct Hm as [-> Hl]. auto.
Qed.

(** C8 fails on the kind of failure and on the waits.  A service that is
    always down and a service that knows no such place make [geocode]
    return the same value, [None]: no error tells exhausted retries from a
    missing place.  And the run waits after every failed attempt, the last
    one included: 2, 4 and 8 seconds for three attempts. *)
Lemma geocode_failures_are_one_value :
  fst (geocode_uncached always_down "Paris" 3 []) = None
  /\ fst (geocode_uncached finds_nothing "Paris" 3 []) = None
  /\ fst (geocode_uncached always_down "Paris" 3 [])
     = fst (geocode_uncached finds_nothing "Paris" 3 [])
  /\ timeline (snd (geocode_uncached always_down "Paris" 3 []))
     = [Query "Paris"; Sleep 2; Query "Paris"; Sleep 4;
        Query "Paris"; Sleep 8]
  /\ last (timeline (snd (geocode_uncached always_down "Paris" 3 [])))
     = Some (Sleep 8).
Proof. repeat split. Qed.

(** C9, as amended.  The cache keeps whatever [geocode] returns, a
    coordinate or [None]: after any call for a name, every directly
    repeated call for that name returns the same result without a query to
    the collaborator, whether the first call succeeded or failed. *)
Theorem geocode_cache_keeps_every_result svc location_name st :
  let '(r1, st1) := geocode svc location_name st in
  cache_get location_name (cache st1) = Some r1
  /\ forall svc' n,
       let '(rs, st') := geocode_all svc' (repeat location_name n) st1 in
       rs = repeat r1 n
       /\ queries (trace st') = queries (trace st1)
       /\ trace st' = trace st1.
Proof.
  pose proof (geocode_caches_result svc location_name st) as H.
  destruct (geocode svc location_name st) as [r1 st1].
  split; [exact H|]. intros svc' n.
  pose proof (geocode_all_repeat_hit svc' location_name r1 n st1 H) as Hn.
  destruct (geocode_all _ _ _) as [rs st'].
  destruct Hn as (-> & -> & _). auto.
Qed.

(** C9 fails after a failed call: a service that is down for three queries
    and works afterwards leaves [None] in the cache, and the next call for
    the same name returns [None] without asking the service, which would
    now answer. *)
Lemma failed_geocode_is_cached :
  let st0 := mkState [] [] in
  let '(r1, st1) := geocode down_then_up "Paris" st0 in
  let '(r2, st2) := geocode down_then_up "Paris" st1 in
  r1 = None
  /\ cache st1 <> cache st0
  /\ down_then_up (queries (trace st1)) "Paris" = Located 48.86 2.35
  /\ r2 = None
  /\ queries (trace st2) = queries (trace st1).
Proof.
  cbv zeta.
  destruct (geocode down_then_up "Paris" (mkState [] [])) as [r1 st1] eqn:E1.
  destruct (geocode down_then_up "Paris" st1) as [r2 st2] eqn:E2.
  assert (H1 : r1 = None /\ cache st1 = [("Paris", None)]
               /\ queries (trace st1) = 3%nat).
  { cbv in E1. injection E1 as <- <-. repeat split. }
  destruct H1 as (-> & Hc & Hq).
  rewrite (geocode_hit _ _ _ None) in E2 by (now rewrite Hc).
  injection E2 as <- <-. cbn [trace cache].
  split; [reflexivity|]. split; [now rewrite Hc|].
  split; [now rewrite Hq|]. split; reflexivity.
Qed.

End GeocoderFacts.

(** ** The job life cycle *)

Section JobFacts.
Import Py Renderer Main.

Context {S : Type}.
Variable geocode : string -> S -> result (option (R * R)) * S.
Variable render_animation :
  list (R * R) -> VideoQuality -> Z -> option Z -> S ->
  result (option string) * R * S.

Lemma update_job_present request_id f (jobs : gmap string Job) j :
  jobs !! request_id = Some j ->
  update_job request_id f jobs = Ok (<[request_id := f j]> jobs).
Proof. intros H. unfold update_job. now rewrite H. Qed.

Lemma fail_job_present request_id msg (jobs : gmap string Job) j :
  jobs !! request_id = Some j ->
  fail_job request_id msg jobs
  = Ok (<[request_id := with_error msg (with_status "failed" j)]> jobs).
Proof.
  intros H. unfold fail_job. rewrite (update_job_present _ _ _ _ H).
  cbn [bind].
  rewrite (update_job_present _ _ _ (with_status "failed" j))
    by apply lookup_insert_eq.
  now rewrite insert_insert_eq.
Qed.

Lemma complete_job_present request_id url t (jobs : gmap string Job) j :
  jobs !! request_id = Some j ->
  complete_job request_id url t jobs
  = Ok (<[request_id :=
            with_duration t
              (with_video_path url (with_status "completed" j))]> jobs).
Proof.
  intros H. unfold complete_job. rewrite (update_job_present _ _ _ _ H).
  cbn [bind].
  rewrite (update_job_present _ _ _ (with_status "completed" j))
    by apply lookup_insert_eq.
  cbn [bind]. rewrite insert_insert_eq.
  rewrite (update_job_present _ _ _
             (with_video_path url (with_status "completed" j)))
    by apply lookup_insert_eq.
  now rewrite insert_insert_eq.
Qed.

Lemma resolve_locations_app pre rest acc s :
  resolve_locations geocode (pre ++ rest) acc s
  = match resolve_locations geocode pre acc s with
    | (Resolved processed, s1) => resolve_locations geocode rest processed s1
    | other => other
    end.
Proof.
  revert acc s. induction pre as [|loc pre IH]; intros acc s;
    cbn [app resolve_locations]; [reflexivity|].
  destruct (lat loc), (lon loc); try apply IH;
    (destruct (name loc) as [n|]; [|reflexivity];
     destruct (nonempty n); [|reflexivity];
     destruct (geocode n s) as [[[c|]|e] s1]; try reflexivity; apply IH).
Qed.


(** The registry that [process_animation_request] leaves, case by case. *)
Lemma process_animation_request_outcome request_id locations quality fps
    duration (jobs : gmap string Job) s j :
  jobs !! request_id = Some j ->
  let j1 := with_status "processing" j in
  let failed msg := <[request_id := with_error msg (with_status "failed" j1)]> jobs in
  process_animation_request geocode render_animation request_id locations
                            quality fps duration jobs s
  = match resolve_locations geocode locations [] s with
    | (Raised e, s1) =>
        (failed ("Error processing animation: " +:+ str_exn e), s1, None)
    | (Unresolved error_msg, s1) => (failed error_msg, s1, None)
    | (Resolved processed_locations, s1) =>
        match render_animation processed_locations quality fps duration s1
        with
        | (Raise e, _, s2) =>
            (failed ("Error processing animation: " +:+ str_exn e), s2, None)
        | (Ok (Some path), render_time, s2) =>
            if nonempty path then
              (<[request_id :=
                   with_duration render_time
                     (with_video_path ("/videos/" +:+ basename path)
                        (with_status "completed" j1))]> jobs, s2, None)
            else (failed "Failed to render animation", s2, None)
        | (Ok None, _, s2) => (failed "Failed to render animation", s2, None)
        end
    end.
Proof.
  intros Hj j1 failed.
  unfold process_animation_request, try_block.
  rewrite (update_job_present _ _ _ _ Hj). fold j1.
  set (jobs1 := <[request_id := j1]> jobs).
  assert (Hj1 : jobs1 !! request_id = Some j1) by apply lookup_insert_eq.
  assert (Hfail : forall msg,
    fail_job request_id msg jobs1 = Ok (failed msg)).
  { intros msg. rewrite (fail_job_present _ _ _ _ Hj1).
    unfold jobs1, failed. now rewrite insert_insert_eq. }
  destruct (resolve_locations geocode locations [] s)
    as [[processed|error_msg|e] s1].
  - destruct (render_animation processed quality fps duration s1)
      as [[[[path|]|e] render_time] s2].
    + destruct (nonempty path).
      * rewrite (complete_job_present _ _ _ _ _ Hj1). cbn [finish].
        unfold jobs1. now rewrite insert_insert_eq.
      * rewrite Hfail. reflexivity.
    + rewrite Hfail. reflexivity.
    + rewrite Hfail. reflexivity.
  - rewrite Hfail. reflexivity.
  - rewrite Hfail. reflexivity.
Qed.

(** C7.  When the job is in the registry, [process_animation_request]
    lets no exception escape, touches no other job, and leaves the job
    [completed] or [failed], never [processing]; a failed job carries an
    error message.  A location that cannot be resolved, an exception of a
    collaborator, and a renderer that returns no video each end in
    [failed] with the corresponding message.  In particular, when the
    locations before it resolve and the geocoder returns [None] for a named
    location, the job fails with a message that names that location, and
    is not [completed]. *)
Theorem job_failures_end_in_failed request_id locations quality fps
    duration (jobs : gmap string Job) s j :
  jobs !! request_id = Some j ->
  let '(jobs', _, escaped) :=
    process_animation_request geocode render_animation request_id locations
                              quality fps duration jobs s in
  escaped = None
  /\ (forall k, k <> request_id -> jobs' !! k = jobs !! k)
  /\ exists j',
       jobs' !! request_id = Some j'
       /\ (job_status j' = "completed" \/ job_status j' = "failed")
       /\ (job_status j' = "failed" -> exists msg, job_error j' = Some msg)
       /\ (forall error_msg s1,
             resolve_locations geocode locations [] s
             = (Unresolved error_msg, s1) ->
             failed_with error_msg j')
       /\ (forall e s1,
             resolve_locations geocode locations [] s = (Raised e, s1) ->
             failed_with ("Error processing animation: " +:+ str_exn e) j')
       /\ (forall processed s1,
             resolve_locations geocode locations [] s
             = (Resolved processed, s1) ->
             match render_animation processed quality fps duration s1 with
             | (Raise e, _, _) =>
                 failed_with
                   ("Error processing animation: " +:+ str_exn e) j'
             | (Ok (Some path), render_time, _) =>
                 if nonempty path
                 then completed_with ("/videos/" +:+ basename path)
                                     render_time j'
                 else failed_with "Failed to render animation" j'
             | (Ok None, _, _) =>
                 failed_with "Failed to render animation" j'
             end)
       /\ (forall pre loc post n processed s1 s2,
             locations = pre ++ loc :: post ->
             resolve_locations geocode pre [] s = (Resolved processed, s1) ->
             needs_geocoding loc n ->
             geocode n s1 = (Ok None, s2) ->
             failed_with ("Failed to geocode location: " +:+ n) j'
             /\ job_status j' <> "completed").
Proof.
  intros Hj.
  rewrite (process_animation_request_outcome _ _ _ _ _ _ _ _ Hj).
  cbv zeta.
  assert (Hgeo : forall pre loc post n processed s1 s2,
    locations = pre ++ loc :: post ->
    resolve_locations geocode pre [] s = (Resolved processed, s1) ->
    needs_geocoding loc n ->
    geocode n s1 = (Ok None, s2) ->
    resolve_locations geocode locations [] s
    = (Unresolved ("Failed to geocode location: " +:+ n), s2)).
  { intros pre loc post n processed s1 s2 -> Hpre (Hname & Hne & Hco) Hg.
    rewrite resolve_locations_app, Hpre. cbn [resolve_locations].
    rewrite Hname, Hne, Hg.
    destruct Hco as [-> | ->]; [reflexivity|].
    now destruct (lat loc). }
  destruct (resolve_locations geocode locations [] s)
    as [[processed|error_msg|e] s1] eqn:Hres.
  - destruct (render_animation processed quality fps duration s1)
      as [[[[path|]|e] render_time] s2] eqn:Hren;
      [destruct (nonempty path) eqn:Hpath|..];
      (split; [reflexivity|];
       split; [intros k Hk; now rewrite lookup_insert_ne|];
       eexists; split; [apply lookup_insert_eq|];
       cbn [job_status job_error job_video_path job_duration
            with_status with_error with_video_path with_duration];
       split; [auto|];
       split; [intros Hf; try discriminate Hf; eauto|];
       split; [intros m sx [=]|];
       split; [intros ex sx [=]|];
       split;
       [intros px sx [= <- <-]; rewrite Hren; rewrite ?Hpath;
        repeat split
       |intros pre loc post n px sx sy Hl Hp Hn Hg;
        specialize (Hgeo _ _ _ _ _ _ _ Hl Hp Hn Hg); discriminate Hgeo]).
  - split; [reflexivity|].
    split; [intros k Hk; now rewrite lookup_insert_ne|].
    eexists; split; [apply lookup_insert_eq|].
    cbn [job_status job_error with_status with_error].
    split; [auto|]. split; [eauto|].
    split; [intros m sx [= <- <-]; split; reflexivity|].
    split; [intros ex sx [=]|]. split; [intros px sx [=]|].
    intros pre loc post n px sx sy Hl Hp Hn Hg.
    specialize (Hgeo _ _ _ _ _ _ _ Hl Hp Hn Hg).
    injection Hgeo as <- <-.
    split; [split; reflexivity | discriminate].
  - split; [reflexivity|].
    split; [intros k Hk; now rewrite lookup_insert_ne|].
    eexists; split; [apply lookup_insert_eq|].
    cbn [job_status job_error with_status with_error].
    split; [auto|]. split; [eauto|].
    split; [intros m sx [=]|].
    split; [intros ex sx [= <- <-]; split; reflexivity|].
    split; [intros px sx [=]|].
    intros pre loc post n px sx sy Hl Hp Hn Hg.
    specialize (Hgeo _ _ _ _ _ _ _ Hl Hp Hn Hg). discriminate Hgeo.
Qed.

End JobFacts.

(** ** Submitting a request *)

Section SubmitFacts.
Import Py Renderer Main.

(** The guard in the handler never decides: a request with fewer than two
    locations does not reach it, and if it did the handler would answer
    500, not 400, and still create nothing. *)
Lemma handler_guard_creates_nothing request stamp created object_id srv :
  (length (locations request) < 2)%nat ->
  generate_animation request stamp created object_id srv
  = (Raise (HTTPException 500 "400: At least 2 locations are required"),
     srv).
Proof.
  intros H. unfold generate_animation.
  destruct (Z.ltb_spec (Z.of_nat (length (locations request))) 2); [|lia].
  reflexivity.
Qed.

(** A body that names a place, and nothing else, is a valid location. *)
Lemma Location_validate_named n :
  Location_validate (named n) = Ok (mkLocation (Some n) None None).
Proof. reflexivity. Qed.

(** Whatever fails in the validation of a location fails as a
    [ValidationError]. *)
Lemma Location_validate_raises body e :
  Location_validate body = Raise e -> exists msg, e = ValidationError msg.
Proof.
  unfold Location_validate.
  destruct (validate_field "name" _ _ _ _ _) as [[n|e1] values1];
    destruct (validate_field "lat" _ _ _ _ _) as [[la|e2] values2];
    destruct (validate_field "lon" _ _ _ _ _) as [[lo|e3] values3];
    intros [= <-]; eauto.
Qed.

(** The validator of [lat] asks whether [lon] is among the fields that
    were validated before [lat].  It never is: [lon] is declared after
    [lat].  So a location that carries a latitude is refused, with or
    without a longitude. *)
Lemma Location_validate_latitude body x :
  body_lat body = Supplied (Some x) ->
  exists msg, Location_validate body = Raise (ValidationError msg).
Proof.
  intros Hlat. unfold Location_validate. rewrite Hlat.
  destruct (validate_field "name" PStr Ok validate_name_or_coordinates
              (body_name body) ∅) as [name values] eqn:Hname.
  assert (Hlon : values !! "lon" = None).
  { unfold validate_field in Hname. destruct (body_name body) as [|v].
    - injection Hname as _ <-. now rewrite lookup_insert_ne.
    - destruct (let! v0 := _ in validate_name_or_coordinates v0 ∅);
        injection Hname as _ <-;
        [now rewrite lookup_insert_ne | apply lookup_empty]. }
  assert (Hl : exists e,
    validate_field "lat" PFloat (in_range (-90) 90) validate_lat_lon_pair
                   (Supplied (Some x)) values = (Raise e, values)).
  { unfold validate_field, in_range.
    destruct (_ || _); cbn [bind]; [eauto|].
    unfold validate_lat_lon_pair. rewrite Hlon. eauto. }
  destruct Hl as [e ->].
  destruct (validate_field "lon" _ _ _ _ _) as [[lo|e3] values3];
    destruct name; eauto.
Qed.

Lemma mapM_raises {A B} (f : A -> result B) (P : exn -> Prop) xs x e :
  (forall y e', f y = Raise e' -> P e') ->
  In x xs -> f x = Raise e ->
  exists e', mapM f xs = Raise e' /\ P e'.
Proof.
  intros HP. induction xs as [|y xs IH]; intros Hin Hx; [destruct Hin|].
  cbn [mapM]. destruct (f y) as [b|e'] eqn:Hy; cbn [bind].
  - destruct Hin as [->|Hin]; [congruence|].
    destruct (IH Hin Hx) as (e'' & -> & He). cbn [bind]. eauto.
  - eauto.
Qed.

(** X19.  What the endpoint does with a body, by what its validation gives:
    fewer than two locations, or a location with a latitude, are refused
    with a [ValidationError] and nothing is created; a body of at least
    two locations that pass the validation is answered with the new job
    id and the status [queued], the registry holds the job in the state
    [queued], no other job is touched, and the call of
    [process_animation_request] is appended to the background tasks, not
    run. *)
Theorem submit_validates_then_queues :
  (forall bodies quality duration stamp created object_id srv,
     (length bodies < 2)%nat ->
     exists msg,
       post_generate_animation bodies quality duration stamp created
                               object_id srv
       = (Raise (ValidationError msg), srv))
  /\ (forall bodies quality duration stamp created object_id srv body x,
        In body bodies -> body_lat body = Supplied (Some x) ->
        exists msg,
          post_generate_animation bodies quality duration stamp created
                                  object_id srv
          = (Raise (ValidationError msg), srv))
  /\ (forall bodies locations quality duration stamp created object_id srv,
        (2 <= length bodies)%nat ->
        mapM Location_validate bodies = Ok locations ->
        let request_id := "job_" +:+ stamp +:+ "_" +:+ object_id in
        exists srv' job,
          post_generate_animation bodies quality duration stamp created
                                  object_id srv
          = (Ok (mkResponse request_id "queued"
                   "Animation request has been queued for processing"),
             srv')
          /\ animation_jobs srv' !! request_id = Some job
          /\ job_id job = request_id
          /\ job_status job = "queued"
          /\ job_video_path job = None
          /\ job_error job = None
          /\ (forall k, k <> request_id ->
                animation_jobs srv' !! k = animation_jobs srv !! k)
          /\ background_tasks srv'
             = background_tasks srv
               ++ [mkTask request_id locations (default HD_1080P quality)
                          30 duration]).
Proof.
  split; [|split].
  - intros bodies quality duration stamp created object_id srv H.
    unfold post_generate_animation, AnimationRequest_validate.
    destruct (Z.ltb_spec (Z.of_nat (length bodies)) 2); [|lia].
    eauto.
  - intros bodies quality duration stamp created object_id srv body x
           Hin Hlat.
    unfold post_generate_animation, AnimationRequest_validate.
    destruct (Z.of_nat (length bodies) <? 2)%Z; [eauto|].
    destruct (Location_validate_latitude body x Hlat) as [msg Hbody].
    destruct (mapM_raises Location_validate
                (fun e => exists msg, e = ValidationError msg)
                bodies body _ Location_validate_raises Hin Hbody)
      as (e' & -> & msg' & ->).
    cbn [bind]. eauto.
  - intros bodies locations quality duration stamp created object_id srv H
           Hvalid request_id.
    assert (Hlen : length locations = length bodies)
      by (apply mapM_length in Hvalid; exact Hvalid).
    unfold post_generate_animation, AnimationRequest_validate.
    destruct (Z.ltb_spec (Z.of_nat (length bodies)) 2); [lia|].
    rewrite Hvalid. cbn [bind].
    destruct (Z.ltb_spec (Z.of_nat (length locations)) 2); [lia|].
    unfold generate_animation. cbn [Main.locations Main.quality Main.duration].
    destruct (Z.ltb_spec (Z.of_nat (length locations)) 2); [lia|].
    fold request_id.
    eexists _, _. split; [reflexivity|].
    cbn [animation_jobs background_tasks].
    split; [apply lookup_insert_eq|].
    cbn [job_id job_status job_video_path job_error].
    repeat split.
    intros k Hk. now rewrite lookup_insert_ne.
Qed.

(** C10.  A tour given by coordinates, New York to London, is refused by
    the endpoint with a [ValidationError]: no job is created and nothing
    is queued. *)
Lemma coordinates_only_submission_is_refused :
  exists msg,
    post_generate_animation two_cities_body None None "20250101120000"
                            "2025-01-01T12:00:00" "1" empty_server
    = (Raise (ValidationError msg), empty_server).
Proof.
  destruct (Location_validate_latitude (at_coordinates 40.7 (-74.0)) 40.7%R
              eq_refl) as [msg H].
  exists msg. unfold post_generate_animation, AnimationRequest_validate.
  change (Z.of_nat (length two_cities_body) <? 2)%Z with false.
  cbv iota. unfold two_cities_body. cbn [mapM]. rewrite H. reflexivity.
Qed.

End SubmitFacts.

(** * The theorems at concrete inputs *)

Section Instances.
Import Py RenderFlightSimple.

(** Five cities, one second: seven frames per segment. *)
Lemma five_cities_segments :
  (2 <= length five_cities)%nat /\ (1 <= 30)%Z /\ (1 <= 1)%Z
  /\ frames_per_segment (total_frames 30 1)
                        (Z.of_nat (length five_cities) - 1)
     = Z.max 1 (total_frames 30 1 / (Z.of_nat (length five_cities) - 1)).
Proof.
  assert (H2 : (2 <= length five_cities)%nat) by (simpl; lia).
  assert (Hf : (1 <= 30)%Z) by lia.
  assert (Hd : (1 <= 1)%Z) by lia.
  split; [exact H2|]. split; [exact Hf|]. split; [exact Hd|].
  exact (proj1 (segments_cover_without_overlap five_cities 30 1 H2 Hf Hd)).
Defined.

(** Two antipodes on the equator, two steps: three samples, from the one
    point to the other. *)
Lemma equator_antipodes_samples :
  (1 <= 2)%Z
  /\ exists pts first last,
       great_circle_points 0 0 0 180 2 = Ok pts
       /\ length pts = Z.to_nat (2 + 1)
       /\ nth_error pts 0 = Some first
       /\ nth_error pts (Z.to_nat 2) = Some last
       /\ close 1e-9 first (latlon_to_xyz 0 0 1)
       /\ close 1e-9 last (latlon_to_xyz 0 180 1)
       /\ (~ coincident 0 0 0 180 ->
           first = latlon_to_xyz 0 0 1
           /\ last = latlon_to_xyz 0 180 1)
       /\ (coincident 0 0 0 180 ->
           pts = repeat (latlon_to_xyz 0 0 1) (Z.to_nat (2 + 1))).
Proof.
  assert (Hs : (1 <= 2)%Z) by lia.
  split; [exact Hs|].
  exact (great_circle_points_samples 0 0 0 180 2 Hs).
Defined.

(** From pole to pole in 149 steps: the samples lie on the unit sphere. *)
Lemma pole_to_pole_unit :
  (1 <= 149)%Z
  /\ exists pts,
       great_circle_points 90 0 (-90) 0 149 = Ok pts
       /\ Forall (fun p => Rabs (magnitude p - 1) <= 1e-6)%R pts.
Proof.
  assert (Hs : (1 <= 149)%Z) by lia.
  split; [exact Hs|].
  exact (great_circle_points_unit_magnitude 90 0 (-90) 0 149 Hs).
Defined.

(** From the north pole straight to the south pole. *)
Lemma pole_crossing_orthonormal :
  (0 ^ 2 + 0 ^ 2 + 1 ^ 2 = 1)%R
  /\ (0 <= 1e-6)%R
  /\ orthonormal_within 1e-6
       (orientation no_props (0, 0, 1)%R (0, 0, -1)%R).2.
Proof.
  assert (Hu : (0 ^ 2 + 0 ^ 2 + 1 ^ 2 = 1)%R) by lra.
  assert (Ht : (0 <= 1e-6)%R) by lra.
  split; [exact Hu|]. split; [exact Ht|].
  exact (orientation_orthonormal no_props (0, 0, 1)%R (0, 0, -1)%R 1e-6
           Hu Ht).
Defined.

(** Two samples on the equator: the frame is [right = up x forward]. *)
Lemma equator_sample_handedness :
  let b := (orientation no_props sample_current sample_next).2 in
  final_right b = Mathutils.cross (final_up b) (final_forward b)
  /\ final_up b = Mathutils.cross (final_forward b) (final_right b).
Proof.
  assert (Hu : (1 ^ 2 + 0 ^ 2 + 0 ^ 2 = 1)%R) by lra.
  destruct sample_regular as [Hfar Hreg].
  destruct (orientation_handedness no_props sample_current sample_next
              Hu Hfar Hreg) as [(_ & _ & _ & H1 & H2) _].
  exact (conj H1 H2).
Defined.

End Instances.

Section ServiceInstances.
Import Py Renderer Geocoder Main.

(** A service that is down: three queries, waits of 2, 4 and 8 seconds. *)
Lemma always_down_gives_up :
  "Paris" <> EmptyString
  /\ fst (geocode_uncached always_down "Paris" 3 []) = None
  /\ queries (snd (geocode_uncached always_down "Paris" 3 [])) = 3%nat
  /\ timeline (snd (geocode_uncached always_down "Paris" 3 []))
     = [Query "Paris"; Sleep 2; Query "Paris"; Sleep 4;
        Query "Paris"; Sleep 8].
Proof.
  assert (Hne : "Paris" <> EmptyString) by discriminate.
  split; [exact Hne|].
  pose proof (geocode_retry_policy always_down "Paris" 3 [] Hne) as H.
  destruct (geocode_uncached always_down "Paris" 3 []) as [r tr'].
  destruct H as (_ & _ & Hexh & _).
  destruct (Hexh (fun _ _ => I)) as (Hr & Ha & Hs & _).
  cbn [fst snd]. split; [exact Hr|]. split; [|exact Hs].
  change (queries []) with 0%nat in Ha. rewrite Nat.sub_0_r in Ha.
  exact Ha.
Defined.

(** A tour that starts in Atlantis fails, and says why. *)
Lemma atlantis_job_fails :
  ({[ "job_20250101120000_1" := atlantis_job ]} : gmap string Job)
    !! "job_20250101120000_1" = Some atlantis_job
  /\ exists j',
       (run_task lost_environment atlantis_task
                 {[ "job_20250101120000_1" := atlantis_job ]}
                 (mkState [] [])).1.1 !! "job_20250101120000_1" = Some j'
       /\ failed_with "Failed to geocode location: Atlantis" j'.
Proof.
  assert (Hj : ({[ "job_20250101120000_1" := atlantis_job ]}
                 : gmap string Job)
                 !! "job_20250101120000_1" = Some atlantis_job)
    by apply lookup_singleton_eq.
  split; [exact Hj|].
  pose proof (job_failures_end_in_failed
                (service_geocode lost_environment)
                (service_render lost_environment)
                "job_20250101120000_1" atlantis_tour HD_720P 30 None
                _ (mkState [] []) atlantis_job Hj) as H.
  unfold run_task. cbn [task_request_id task_locations task_quality
                        task_fps task_duration atlantis_task].
  destruct (process_animation_request _ _ _ _ _ _ _ _ _)
    as [[jobs' s'] escaped].
  destruct H as (_ & _ & j' & Hj' & _ & _ & _ & _ & _ & Hgeo).
  exists j'. split; [exact Hj'|].
  apply (Hgeo [] (mkLocation (Some "Atlantis") None None)
              [mkLocation (Some "London") None None] "Atlantis" []
              (mkState [] [])
              (mkState [("Atlantis", None)]
                 [Log (Geocoding "Atlantis"); Query "Atlantis";
                  Log (CouldNotGeocode "Atlantis")])).
  - reflexivity.
  - reflexivity.
  - repeat split. now left.
  - reflexivity.
Defined.

(** An empty request is refused; the tour of two named places is
    queued. *)
Lemma submit_atlantis_tour :
  (length (@nil LocationBody) < 2)%nat
  /\ (exists msg,
        post_generate_animation [] None None "20250101120000"
                                "2025-01-01T12:00:00" "1" empty_server
        = (Raise (ValidationError msg), empty_server))
  /\ (2 <= length atlantis_body)%nat
  /\ mapM Location_validate atlantis_body = Ok atlantis_tour
  /\ (exists srv' job,
        post_generate_animation atlantis_body (Some HD_720P) None
                                "20250101120000" "2025-01-01T12:00:00" "1"
                                empty_server
        = (Ok (mkResponse "job_20250101120000_1" "queued"
                 "Animation request has been queued for processing"), srv')
        /\ animation_jobs srv' !! "job_20250101120000_1" = Some job
        /\ job_status job = "queued"
        /\ background_tasks srv' = [atlantis_task]).
Proof.
  assert (H0 : (length (@nil LocationBody) < 2)%nat) by (simpl; lia).
  assert (H2 : (2 <= length atlantis_body)%nat) by (simpl; lia).
  assert (Hv : mapM Location_validate atlantis_body = Ok atlantis_tour)
    by reflexivity.
  split; [exact H0|].
  split; [exact (proj1 submit_validates_then_queues [] None None
                   "20250101120000" "2025-01-01T12:00:00" "1"
                   empty_server H0)|].
  split; [exact H2|]. split; [exact Hv|].
  destruct (proj2 (proj2 submit_validates_then_queues) atlantis_body
              atlantis_tour (Some HD_720P)
              None "20250101120000" "2025-01-01T12:00:00" "1"
              empty_server H2 Hv)
    as (srv' & job & Hpost & Hjob & _ & Hst & _ & _ & _ & Htasks).
  exists srv', job. repeat split; assumption.
Defined.

End ServiceInstances.
(** * Status queries, unknown jobs and the location loop *)

Section StatusFacts.
Import Py Renderer Main.

(** X1.  [get_job_status] answers 404 exactly for the ids the registry does not
    hold. *)
Theorem job_status_unknown_id job_id (jobs : gmap string Job) :
  get_job_status job_id jobs = Raise (HTTPException 404 "Job not found")
  <-> jobs !! job_id = None.
Proof.
  unfold get_job_status. split.
  - destruct (jobs !! job_id) as [j|]; [|reflexivity].
    destruct (String.eqb (job_status j) "completed").
    + destruct (job_video_path j); [|discriminate].
      destruct (job_duration j); discriminate.
    + destruct (String.eqb (job_status j) "failed"); discriminate.
  - now intros ->.
Qed.

(** X2.  A status query right after a submission reports the new job as
    [queued], without a video and without an error. *)
Theorem submitted_job_is_queued bodies locations quality duration stamp
    created object_id srv :
  (2 <= length bodies)%nat ->
  mapM Location_validate bodies = Ok locations ->
  let request_id := "job_" +:+ stamp +:+ "_" +:+ object_id in
  let '(r, srv') :=
    post_generate_animation bodies quality duration stamp created
                            object_id srv in
  (exists message, r = Ok (mkResponse request_id "queued" message))
  /\ get_job_status request_id (animation_jobs srv')
     = Ok (StatusReply request_id "queued").
Proof.
  intros H Hvalid request_id.
  assert (Hlen : length locations = length bodies)
    by (apply mapM_length in Hvalid; exact Hvalid).
  unfold post_generate_animation, AnimationRequest_validate.
  destruct (Z.ltb_spec (Z.of_nat (length bodies)) 2); [lia|].
  rewrite Hvalid. cbn [bind].
  destruct (Z.ltb_spec (Z.of_nat (length locations)) 2); [lia|].
  unfold generate_animation. cbn [Main.locations Main.quality Main.duration].
  destruct (Z.ltb_spec (Z.of_nat (length locations)) 2); [lia|].
  fold request_id. split; [eauto|].
  cbn [animation_jobs]. unfold get_job_status.
  rewrite lookup_insert_eq. reflexivity.
Qed.

Lemma submitted_atlantis_tour_is_queued :
  (2 <= length atlantis_body)%nat
  /\ mapM Location_validate atlantis_body = Ok atlantis_tour
  /\ let '(r, srv') :=
       post_generate_animation atlantis_body None None "20250101120000"
         "2025-01-01T12:00:00" "1" empty_server in
     (exists message,
        r = Ok (mkResponse "job_20250101120000_1" "queued" message))
     /\ get_job_status "job_20250101120000_1" (animation_jobs srv')
        = Ok (StatusReply "job_20250101120000_1" "queued").
Proof.
  assert (H : (2 <= length atlantis_body)%nat) by (simpl; lia).
  assert (Hv : mapM Location_validate atlantis_body = Ok atlantis_tour)
    by reflexivity.
  split; [exact H|]. split; [exact Hv|].
  exact (submitted_job_is_queued atlantis_body atlantis_tour None None
           "20250101120000" "2025-01-01T12:00:00" "1" empty_server H Hv).
Defined.

(** X3.  Once the queued task of a job has run, a status query answers
    [completed], with the URL of the video under [/videos/] and the render
    time, or [failed] with an error message: never 404, [queued] or
    [processing], and never a [KeyError] for a missing entry. *)
Theorem finished_job_status env t (jobs : gmap string Job) st j :
  jobs !! task_request_id t = Some j ->
  let '(jobs', _, escaped) := run_task env t jobs st in
  escaped = None
  /\ (get_job_status (task_request_id t) jobs'
      = Ok (CompletedReply (task_request_id t)
              ("/videos/" +:+ basename (env_output_path env))
              (env_render_time env))
      \/ exists msg,
           get_job_status (task_request_id t) jobs'
           = Ok (FailedReply (task_request_id t) msg)).
Proof.
  intros Hj. unfold run_task.
  rewrite (process_animation_request_outcome _ _ _ _ _ _ _ _ _ _ Hj).
  cbv zeta.
  assert (Hfailed : forall msg (jobs0 : gmap string Job) j0,
    exists m,
      get_job_status (task_request_id t)
        (<[task_request_id t := with_error msg (with_status "failed" j0)]>
           jobs0)
      = Ok (FailedReply (task_request_id t) m)).
  { intros msg jobs0 j0. exists msg. unfold get_job_status.
    rewrite lookup_insert_eq. reflexivity. }
  destruct (resolve_locations (service_geocode env) (task_locations t) [] st)
    as [[processed|error_msg|e] s1].
  - unfold service_render.
    destruct (Renderer.render_animation (env_blender env)
                (env_output_path env) processed (task_quality t)
                (task_fps t) (task_duration t)) as [path|] eqn:Hr.
    + destruct (nonempty path) eqn:Hp.
      * split; [reflexivity|]. left.
        unfold get_job_status. rewrite lookup_insert_eq.
        cbn [job_status with_duration with_video_path with_status
             job_video_path job_duration].
        cbn [String.eqb Ascii.eqb Bool.eqb].
        assert (path = env_output_path env) as ->; [|reflexivity].
        unfold Renderer.render_animation in Hr.
        destruct (Z.of_nat (length processed) <? 2)%Z; [discriminate|].
        destruct (env_blender env _ _) as [|rc ex]; [discriminate|].
        destruct (negb (rc =? 0)%Z); [discriminate|].
        destruct ex; [now injection Hr|discriminate].
      * split; [reflexivity|]. right. apply Hfailed.
    + split; [reflexivity|]. right. apply Hfailed.
  - split; [reflexivity|]. right. apply Hfailed.
  - split; [reflexivity|]. right. apply Hfailed.
Qed.

Lemma finished_job_status_atlantis :
  ({["job_20250101120000_1" := atlantis_job]} : gmap string Job)
    !! task_request_id atlantis_task = Some atlantis_job
  /\ let '(jobs', _, escaped) :=
       run_task lost_environment atlantis_task
                {["job_20250101120000_1" := atlantis_job]}
                (Geocoder.mkState [] []) in
     escaped = None
     /\ (get_job_status (task_request_id atlantis_task) jobs'
         = Ok (CompletedReply (task_request_id atlantis_task)
                 ("/videos/" +:+ basename (env_output_path lost_environment))
                 (env_render_time lost_environment))
         \/ exists msg,
              get_job_status (task_request_id atlantis_task) jobs'
              = Ok (FailedReply (task_request_id atlantis_task) msg)).
Proof.
  assert (H : ({["job_20250101120000_1" := atlantis_job]} : gmap string Job)
                !! task_request_id atlantis_task = Some atlantis_job)
    by apply lookup_singleton_eq.
  split; [exact H|].
  exact (finished_job_status lost_environment atlantis_task _
           (Geocoder.mkState [] []) atlantis_job H).
Defined.

End StatusFacts.

Section UnknownJob.
Import Py Renderer Main.

Context {S : Type}.
Variable geocode : string -> S -> result (option (R * R)) * S.
Variable render_animation :
  list (R * R) -> VideoQuality -> Z -> option Z -> S ->
  result (option string) * R * S.

(** X4.  [process_animation_request] for an id the registry does not hold: the
    first update raises [KeyError], the handler's own update raises it
    again, and that one escapes.  Nothing is geocoded or rendered, and the
    registry is left as it was. *)
Theorem unknown_job_raises_key_error request_id locations quality fps
    duration (jobs : gmap string Job) s :
  jobs !! request_id = None ->
  process_animation_request geocode render_animation request_id locations
                            quality fps duration jobs s
  = (jobs, s, Some (KeyError request_id)).
Proof.
  intros H. unfold process_animation_request, try_block, fail_job, update_job.
  rewrite H. cbn [bind finish]. rewrite H. reflexivity.
Qed.

(** X5.  Locations that carry both coordinates are taken as they are, in their
    order: the geocoder is not called for them, whatever their names. *)
Theorem coordinates_are_not_geocoded locations coords processed s :
  Forall2 has_coordinates locations coords ->
  resolve_locations geocode locations processed s
  = (Resolved (processed ++ coords), s).
Proof.
  intros H. revert processed.
  induction H as [|loc c locations coords [Hla Hlo] _ IH]; intros processed.
  - cbn. now rewrite app_nil_r.
  - cbn [resolve_locations]. rewrite Hla, Hlo, IH.
    rewrite <- app_assoc. destruct c. reflexivity.
Qed.

End UnknownJob.

Section UnknownJobInstances.
Import Py Renderer Main.

Lemma unknown_job_raises_key_error_empty :
  (∅ : gmap string Job) !! "job_0" = None
  /\ run_task lost_environment
       (mkTask "job_0" atlantis_tour HD_720P 30 None) ∅
       (Geocoder.mkState [] [])
     = (∅, Geocoder.mkState [] [], Some (KeyError "job_0")).
Proof.
  assert (H : (∅ : gmap string Job) !! "job_0" = None) by apply lookup_empty.
  split; [exact H|].
  exact (unknown_job_raises_key_error (service_geocode lost_environment)
           (service_render lost_environment) "job_0" atlantis_tour HD_720P
           30 None ∅ (Geocoder.mkState [] []) H).
Defined.

Lemma coordinates_are_not_geocoded_two_cities :
  Forall2 has_coordinates
    [mkLocation (Some "New York") (Some 40.7%R) (Some (-74.0)%R);
     mkLocation None (Some 51.5%R) (Some (-0.12)%R)]
    two_cities
  /\ resolve_locations (service_geocode lost_environment)
       [mkLocation (Some "New York") (Some 40.7%R) (Some (-74.0)%R);
        mkLocation None (Some 51.5%R) (Some (-0.12)%R)]
       [] (Geocoder.mkState [] [])
     = (Resolved ([] ++ two_cities), Geocoder.mkState [] []).
Proof.
  assert (H : Forall2 has_coordinates
    [mkLocation (Some "New York") (Some 40.7%R) (Some (-74.0)%R);
     mkLocation None (Some 51.5%R) (Some (-0.12)%R)]
    two_cities).
  { repeat constructor. }
  split; [exact H|].
  exact (coordinates_are_not_geocoded (service_geocode lost_environment)
           _ _ [] (Geocoder.mkState [] []) H).
Defined.

End UnknownJobInstances.
(** * The renderer: success, file names and the default duration *)

Section RendererFacts.
Import Py Renderer Main RenderFlightSimple.
Local Open Scope Z_scope.

(** X6.  [render_animation] returns a path exactly when there are at least two
    locations and Blender, run on the configuration of [_prepare_config]
    with the effective duration, exits with code 0 and has written the
    output file; the path is then the output path. *)
Theorem render_animation_some_iff blender output_path locations quality fps
    duration p :
  render_animation blender output_path locations quality fps duration
  = Some p
  <-> p = output_path
      /\ (2 <= length locations)%nat
      /\ blender (_prepare_config locations quality fps
                    (effective_duration (Z.of_nat (length locations))
                                        duration))
                 output_path
         = Exited 0 true.
Proof.
  unfold render_animation, _prepare_config.
  destruct (Z.ltb_spec (Z.of_nat (length locations)) 2) as [Hlt|Hge].
  - split; [discriminate|]. intros (_ & H & _). lia.
  - destruct (blender _ output_path) as [msg|rc ex].
    + split; [discriminate|]. intros (_ & _ & H). discriminate.
    + destruct (Z.eqb_spec rc 0) as [->|Hrc]; cbn [negb].
      * destruct ex.
        -- split; [intros [= <-]; repeat split; lia|].
           now intros (-> & _).
        -- split; [discriminate|]. intros (_ & _ & H). discriminate.
      * split; [discriminate|]. intros (_ & _ & [= H _]). contradiction.
Qed.

Lemma append_cons c a b : String c a +:+ b = String c (a +:+ b).
Proof. reflexivity. Qed.

Lemma append_nil_r a : a +:+ EmptyString = a.
Proof. induction a as [|c a IH]; [reflexivity|]. now rewrite append_cons, IH. Qed.

Lemma append_snoc a c b :
  (a +:+ String c EmptyString) +:+ b = a +:+ String c b.
Proof.
  induction a as [|c' a IH]; [reflexivity|]. now rewrite !append_cons, IH.
Qed.

Lemma basename_from_app a b acc :
  basename_from (a +:+ b) acc = basename_from b (basename_from a acc).
Proof.
  revert acc. induction a as [|c a IH]; intros acc; simpl; [reflexivity|].
  destruct (Ascii.eqb c "/"); apply IH.
Qed.

Lemma basename_from_no_slash b acc :
  no_slash b = true -> basename_from b acc = acc +:+ b.
Proof.
  revert acc. induction b as [|c b IH]; intros acc H; simpl in *.
  - now rewrite append_nil_r.
  - apply andb_prop in H as [Hc Hb].
    apply negb_true_iff in Hc. rewrite Hc, (IH _ Hb).
    apply append_snoc.
Qed.

Lemma basename_from_endswith_slash a acc :
  endswith_slash a = true -> basename_from a acc = EmptyString.
Proof.
  revert acc. induction a as [|c a IH]; intros acc H; [discriminate|].
  cbn [basename_from]. destruct a as [|c' a].
  - cbn in H. now rewrite H.
  - change (endswith_slash (String c (String c' a)))
      with (endswith_slash (String c' a)) in H.
    destruct (Ascii.eqb c "/"); now apply IH.
Qed.

Lemma no_slash_app a b :
  no_slash (a +:+ b) = no_slash a && no_slash b.
Proof.
  induction a as [|c a IH]; [reflexivity|].
  rewrite append_cons. simpl. now rewrite IH, andb_assoc.
Qed.

Lemma basename_path_join a b :
  no_slash b = true -> basename (path_join a b) = b.
Proof.
  intros Hb. unfold basename, path_join.
  destruct b as [|c b].
  - cbn [String.prefix].
    destruct (String.eqb a EmptyString || endswith_slash a) eqn:Ha.
    + rewrite basename_from_app. cbn [basename_from].
      apply orb_prop in Ha as [Ha|Ha].
      * apply String.eqb_eq in Ha as ->. reflexivity.
      * now apply basename_from_endswith_slash.
    + rewrite basename_from_app. reflexivity.
  - assert (Hc : Ascii.eqb c "/" = false).
    { cbn in Hb. apply andb_prop in Hb as [Hc _].
      now apply negb_true_iff in Hc. }
    assert (Hp : String.prefix "/" (String c b) = false).
    { cbn [String.prefix]. rewrite Ascii.eqb_sym in Hc.
      destruct (ascii_dec "/" c) as [<-|_]; [discriminate|reflexivity]. }
    rewrite Hp.
    destruct (String.eqb a EmptyString || endswith_slash a) eqn:Ha.
    + rewrite basename_from_app.
      rewrite (basename_from_no_slash _ _ Hb).
      apply orb_prop in Ha as [Ha|Ha].
      * apply String.eqb_eq in Ha as ->. reflexivity.
      * now rewrite (basename_from_endswith_slash _ _ Ha).
    + rewrite basename_from_app, basename_from_app.
      rewrite (basename_from_no_slash _ _ Hb). reflexivity.
Qed.

(** X7.  The file that [_generate_output_filename] names lies in the output
    directory under [earth_tour_<timestamp>_<quality>.mp4], so its base
    name, which the job's video URL is built from, is that file name:
    the directory does not leak into the URL. *)
Theorem generated_file_basename output_dir timestamp quality :
  no_slash timestamp = true ->
  basename (_generate_output_filename output_dir timestamp quality)
  = "earth_tour_" +:+ timestamp +:+ "_" +:+ quality_value quality
      +:+ ".mp4".
Proof.
  intros H. unfold _generate_output_filename. apply basename_path_join.
  rewrite !no_slash_app, H. now destruct quality.
Qed.

Lemma generated_file_basename_new_year :
  no_slash "20250101_120000" = true
  /\ basename (_generate_output_filename "/srv/earth-tour/output"
                 "20250101_120000" UHD_4K)
     = "earth_tour_20250101_120000_4K.mp4".
Proof.
  assert (H : no_slash "20250101_120000" = true) by reflexivity.
  split; [exact H|].
  exact (generated_file_basename "/srv/earth-tour/output" "20250101_120000"
           UHD_4K H).
Defined.

(** X8.  With the default duration every leg of the tour gets at least three
    seconds of frames, so the script has at least one interpolation step
    per leg, and it computes its plan of keyframes without an exception
    as long as the number of frames fits a C [int]. *)
Theorem default_duration_plan waypoints fps :
  (2 <= length waypoints)%nat -> 1 <= fps ->
  let duration := effective_duration (Z.of_nat (length waypoints)) None in
  let F := frames_per_segment (total_frames fps duration)
                              (Z.of_nat (length waypoints) - 1) in
  3 * fps <= F
  /\ (total_frames fps duration <= Bpy.INT_MAX ->
      exists segs, animate_plane waypoints fps duration = Ok segs).
Proof.
  intros Hn Hfps duration F.
  assert (HF : 3 * fps <= F).
  { unfold F, duration, effective_duration, total_frames.
    rewrite frames_per_segment_max by nia.
    apply Z.max_le_iff. right.
    apply Z.div_le_lower_bound; nia. }
  split; [exact HF|]. intros Hmax.
  assert (Htot : fps <= total_frames fps duration)
    by (unfold duration, effective_duration, total_frames; nia).
  apply animate_plane_ok;
    [fold duration; fold F; lia | unfold Bpy.INT_MIN; lia
    | unfold Bpy.INT_MIN; lia].
Qed.

Lemma default_duration_plan_five_cities :
  (2 <= length five_cities)%nat /\ 1 <= 30
  /\ 3 * 30
     <= frames_per_segment
          (total_frames 30
             (effective_duration (Z.of_nat (length five_cities)) None))
          (Z.of_nat (length five_cities) - 1)
  /\ (total_frames 30
        (effective_duration (Z.of_nat (length five_cities)) None)
      <= Bpy.INT_MAX ->
      exists segs,
        animate_plane five_cities 30
          (effective_duration (Z.of_nat (length five_cities)) None)
        = Ok segs).
Proof.
  assert (Hn : (2 <= length five_cities)%nat) by (simpl; lia).
  assert (Hfps : 1 <= 30) by lia.
  split; [exact Hn|]. split; [exact Hfps|].
  exact (default_duration_plan five_cities 30 Hn Hfps).
Defined.

End RendererFacts.
(** * The geocoder: waits, edge cases and the LRU cache *)

Section WaitFacts.
Import Py Geocoder.
Local Open Scope Z_scope.

Lemma total_sleep_app t1 t2 :
  total_sleep (t1 ++ t2) = total_sleep t1 + total_sleep t2.
Proof.
  induction t1 as [|e t1 IH]; [reflexivity|].
  cbn [app total_sleep fold_right]. fold (total_sleep (t1 ++ t2)).
  fold (total_sleep t1). destruct e; lia.
Qed.

Lemma total_sleep_log t line : total_sleep (t ++ [Log line]) = total_sleep t.
Proof. rewrite total_sleep_app. cbn. lia. Qed.

Lemma total_sleep_query t n : total_sleep (t ++ [Query n]) = total_sleep t.
Proof. rewrite total_sleep_app. cbn. lia. Qed.

Lemma geocode_loop_sleep svc location_name max_retries fuel retry_count tr :
  0 <= retry_count <= max_retries ->
  fuel = Z.to_nat (max_retries - retry_count) ->
  let tr' :=
    (geocode_loop svc location_name max_retries fuel retry_count tr).2 in
  total_sleep tr <= total_sleep tr'
  <= total_sleep tr + 2 ^ (max_retries + 1) - 2 ^ (retry_count + 1).
Proof.
  revert retry_count tr.
  induction fuel as [|fuel IH]; intros retry_count tr Hr Hfuel.
  - cbn [geocode_loop snd]. rewrite total_sleep_log.
    assert (2 ^ (retry_count + 1) <= 2 ^ (max_retries + 1))
      by (apply Z.pow_le_mono_r; lia).
    lia.
  - assert (Hlt : retry_count < max_retries) by lia.
    cbn [geocode_loop].
    destruct (Z.ltb_spec retry_count max_retries); [|lia].
    assert (Hpow : 2 ^ (retry_count + 1) <= 2 ^ (max_retries + 1))
      by (apply Z.pow_le_mono_r; lia).
    assert (Hstep : forall msg,
      let tr2 :=
        (tr ++ [Log (Geocoding location_name)]) ++ [Query location_name]
        ++ [Log (AttemptFailed (retry_count + 1) (2 ^ (retry_count + 1)) msg);
            Sleep (2 ^ (retry_count + 1))] in
      total_sleep tr
      <= total_sleep
           (geocode_loop svc location_name max_retries fuel
                         (retry_count + 1) tr2).2
      <= total_sleep tr + 2 ^ (max_retries + 1) - 2 ^ (retry_count + 1)).
    { intros msg tr2.
      assert (H2 : total_sleep tr2 = total_sleep tr + 2 ^ (retry_count + 1)).
      { unfold tr2. rewrite !total_sleep_app. cbn. lia. }
      specialize (IH (retry_count + 1) tr2).
      cbv zeta in IH.
      assert (Hp2 : 2 ^ (retry_count + 1 + 1) = 2 * 2 ^ (retry_count + 1)).
      { replace (retry_count + 1 + 1) with (Z.succ (retry_count + 1)) by lia.
        apply Z.pow_succ_r. lia. }
      assert (0 < 2 ^ (retry_count + 1)) by (apply Z.pow_pos_nonneg; lia).
      lapply IH; [|lia]. intros IH'. lapply IH'; [|lia]. lia. }
    destruct (svc (queries (tr ++ [Log (Geocoding location_name)]))
                  location_name) as [la lo| |msg|msg|msg];
      cbn [snd];
      rewrite <- ?app_assoc in *;
      try (rewrite ?total_sleep_app; cbn; lia).
    + specialize (Hstep msg). cbv zeta in Hstep.
      rewrite <- ?app_assoc in Hstep. exact Hstep.
    + specialize (Hstep msg). cbv zeta in Hstep.
      rewrite <- ?app_assoc in Hstep. exact Hstep.
Qed.

(** X9.  However the collaborator answers, one run of [geocode] sleeps at
    most [2 + 4 + ... + 2 ^ max_retries] seconds, which is 14 seconds for
    the default of three attempts. *)
Theorem geocode_wait_is_bounded svc location_name max_retries tr :
  0 <= max_retries ->
  let tr' := (geocode_uncached svc location_name max_retries tr).2 in
  total_sleep tr <= total_sleep tr'
  <= total_sleep tr + 2 ^ (max_retries + 1) - 2.
Proof.
  intros Hm. unfold geocode_uncached.
  destruct (String.eqb location_name EmptyString).
  - cbn [snd]. rewrite total_sleep_log.
    assert (2 ^ 1 <= 2 ^ (max_retries + 1)) by (apply Z.pow_le_mono_r; lia).
    lia.
  - pose proof (geocode_loop_sleep svc location_name max_retries
                  (Z.to_nat max_retries) 0 tr) as H.
    cbv zeta in *. replace (2 ^ (0 + 1)) with 2 in H by reflexivity.
    apply H; [lia|f_equal; lia].
Qed.

Lemma geocode_wait_is_bounded_always_down :
  0 <= 3
  /\ total_sleep []
     <= total_sleep (geocode_uncached always_down "Paris" 3 []).2
     <= total_sleep [] + 2 ^ (3 + 1) - 2.
Proof.
  assert (H : 0 <= 3) by lia.
  split; [exact H|].
  exact (geocode_wait_is_bounded always_down "Paris" 3 [] H).
Defined.

(** X10.  An empty name, or a number of attempts that is not positive, ends
    the run with [None] at once: the collaborator is not queried and
    nothing is waited for. *)
Theorem geocode_without_queries svc location_name max_retries tr :
  location_name = EmptyString \/ max_retries <= 0 ->
  let '(r, tr') := geocode_uncached svc location_name max_retries tr in
  r = None
  /\ queries tr' = queries tr
  /\ total_sleep tr' = total_sleep tr.
Proof.
  intros H. unfold geocode_uncached.
  destruct (String.eqb_spec location_name EmptyString) as [->|Hne].
  - rewrite queries_log, total_sleep_log. auto.
  - destruct H as [H|H]; [contradiction|].
    replace (Z.to_nat max_retries) with 0%nat by lia.
    cbn [geocode_loop]. rewrite queries_log, total_sleep_log. auto.
Qed.

Lemma geocode_without_queries_empty_name :
  (EmptyString = EmptyString \/ 3 <= 0)
  /\ let '(r, tr') := geocode_uncached down_then_up EmptyString 3 [] in
     r = None /\ queries tr' = queries [] /\ total_sleep tr' = total_sleep [].
Proof.
  assert (H : EmptyString = EmptyString \/ 3 <= 0) by (left; reflexivity).
  split; [exact H|].
  exact (geocode_without_queries down_then_up EmptyString 3 [] H).
Defined.

Lemma total_sleep_timeline t : total_sleep (timeline t) = total_sleep t.
Proof.
  induction t as [|e t IH]; [reflexivity|].
  destruct e; cbn -[Z.add]; fold (timeline t); cbn -[Z.add];
    fold (total_sleep (timeline t)); fold (total_sleep t); lia.
Qed.

Lemma total_sleep_failed_attempts location_name from k :
  0 <= from ->
  total_sleep (failed_attempts location_name from k)
  = 2 ^ (from + 1 + Z.of_nat k) - 2 ^ (from + 1).
Proof.
  revert from. induction k as [|k IH]; intros from Hfrom.
  - change (Z.of_nat 0) with 0. rewrite Z.add_0_r.
    change (failed_attempts location_name from 0) with (@nil event).
    cbn [total_sleep fold_right]. lia.
  - rewrite failed_attempts_S. cbn [total_sleep fold_right].
    fold (total_sleep (failed_attempts location_name (from + 1) k)).
    rewrite IH by lia.
    replace (from + 1 + 1 + Z.of_nat k) with (from + 1 + Z.of_nat (S k))
      by lia.
    replace (from + 1 + 1) with (Z.succ (from + 1)) by lia.
    rewrite Z.pow_succ_r by lia. lia.
Qed.

(** X11.  An exception of the collaborator that is neither a timeout nor
    unavailability is not retried: after [k] transient failures it ends
    the run with [None] right after that query, without a further wait,
    and the unexpected error is logged. *)
Theorem unexpected_error_is_not_retried svc location_name max_retries tr
    (k : nat) msg :
  location_name <> EmptyString ->
  (k < Z.to_nat max_retries)%nat ->
  (forall j, (j < k)%nat ->
     transient (svc (queries tr + j)%nat location_name)) ->
  svc (queries tr + k)%nat location_name = OtherException msg ->
  let '(r, tr') := geocode_uncached svc location_name max_retries tr in
  r = None
  /\ queries tr' = (queries tr + k + 1)%nat
  /\ timeline tr'
     = timeline tr ++ failed_attempts location_name 0 k
         ++ [Query location_name]
  /\ total_sleep tr' = total_sleep tr + (2 ^ (Z.of_nat k + 1) - 2)
  /\ last tr' = Some (Log (UnexpectedError msg)).
Proof.
  intros Hne Hk Hall Hex. rewrite (geocode_uncached_spec _ _ _ _ Hne).
  pose proof (geocode_loop_spec svc location_name max_retries
                (Z.to_nat max_retries) 0 tr
                ltac:(now rewrite Z.sub_0_r)) as H.
  destruct (geocode_loop _ _ _ _ _ _) as [r tr']. cbv zeta in *.
  destruct H as [(Hall' & _)|(k' & Hk' & Hall' & Hnt & Hq & Hs & Hm)].
  - exfalso. specialize (Hall' k Hk). now rewrite Hex in Hall'.
  - assert (k' = k) as ->.
    { destruct (Nat.lt_trichotomy k' k) as [Hlt|[Heq|Hgt]]; [|exact Heq|].
      - exfalso. apply Hnt, Hall, Hlt.
      - exfalso. specialize (Hall' k Hgt). now rewrite Hex in Hall'. }
    rewrite Hex in Hm. destruct Hm as [-> Hl].
    repeat split; try assumption.
    rewrite <- (total_sleep_timeline tr'), Hs, !total_sleep_app.
    rewrite total_sleep_timeline, total_sleep_failed_attempts by lia.
    cbn [total_sleep fold_right].
    replace (0 + 1 + Z.of_nat k) with (Z.of_nat k + 1) by lia.
    replace (2 ^ (0 + 1)) with 2 by reflexivity. lia.
Qed.

Lemma unexpected_error_after_one_timeout :
  "Paris" <> EmptyString
  /\ (1 < Z.to_nat 3)%nat
  /\ (forall j, (j < 1)%nat ->
        transient (times_out_then_breaks (queries [] + j)%nat "Paris"))
  /\ times_out_then_breaks (queries [] + 1)%nat "Paris"
     = OtherException "connection reset"
  /\ let '(r, tr') := geocode_uncached times_out_then_breaks "Paris" 3 [] in
     r = None
     /\ queries tr' = (queries [] + 1 + 1)%nat
     /\ timeline tr'
        = timeline [] ++ failed_attempts "Paris" 0 1 ++ [Query "Paris"]
     /\ total_sleep tr' = total_sleep [] + (2 ^ (Z.of_nat 1 + 1) - 2)
     /\ last tr' = Some (Log (UnexpectedError "connection reset")).
Proof.
  assert (H1 : "Paris" <> EmptyString) by discriminate.
  assert (H2 : (1 < Z.to_nat 3)%nat) by (simpl; lia).
  assert (H3 : forall j, (j < 1)%nat ->
     transient (times_out_then_breaks (queries [] + j)%nat "Paris")).
  { intros j Hj. assert (j = 0%nat) as -> by lia. exact I. }
  assert (H4 : times_out_then_breaks (queries [] + 1)%nat "Paris"
               = OtherException "connection reset") by reflexivity.
  split; [exact H1|]. split; [exact H2|]. split; [exact H3|].
  split; [exact H4|].
  exact (unexpected_error_is_not_retried times_out_then_breaks "Paris" 3 []
           1 "connection reset" H1 H2 H3 H4).
Defined.

(** X12.  Coordinates that [geocode] returns are the ones the collaborator
    reported for that name, in one of the at most [max_retries] queries of
    the run: the service never makes up a position. *)
Theorem coordinates_come_from_collaborator svc location_name max_retries tr
    coords :
  (geocode_uncached svc location_name max_retries tr).1 = Some coords ->
  exists k : nat,
    (k < Z.to_nat max_retries)%nat
    /\ svc (queries tr + k)%nat location_name
       = Located coords.1 coords.2.
Proof.
  unfold geocode_uncached.
  destruct (String.eqb location_name EmptyString); [discriminate|].
  pose proof (geocode_loop_spec svc location_name max_retries
                (Z.to_nat max_retries) 0 tr
                ltac:(now rewrite Z.sub_0_r)) as H.
  destruct (geocode_loop _ _ _ _ _ _) as [r tr']. cbv zeta in *.
  cbn [fst]. intros ->.
  destruct H as [(_ & Hr & _)|(k & Hk & _ & _ & _ & _ & Hm)];
    [discriminate|].
  exists k. split; [exact Hk|].
  destruct (svc (queries tr + k)%nat location_name)
    as [la lo| |m|m|m]; try contradiction;
    destruct Hm as [Hr _]; try discriminate.
  now injection Hr as ->.
Qed.

Lemma coordinates_come_from_down_then_up :
  (geocode_uncached down_then_up "Paris" 4 []).1 = Some (48.86, 2.35)%R
  /\ exists k : nat,
       (k < Z.to_nat 4)%nat
       /\ down_then_up (queries [] + k)%nat "Paris"
          = Located (48.86, 2.35)%R.1 (48.86, 2.35)%R.2.
Proof.
  assert (H : (geocode_uncached down_then_up "Paris" 4 []).1
              = Some (48.86, 2.35)%R) by reflexivity.
  split; [exact H|].
  exact (coordinates_come_from_collaborator down_then_up "Paris" 4 []
           (48.86, 2.35)%R H).
Defined.

End WaitFacts.

Section CacheFacts.
Import Py Geocoder.

Lemma cache_get_None key (c : cache_t) :
  cache_get key c = None <-> key ∉ cache_keys c.
Proof.
  induction c as [|[k v] c IH]; cbn [cache_get cache_keys map fst].
  - split; [intros _; apply not_elem_of_nil|reflexivity].
  - fold (cache_keys c). rewrite not_elem_of_cons.
    destruct (String.eqb_spec k key) as [->|Hk].
    + split; [discriminate|]. intros [H _]. contradiction.
    + rewrite IH. split; [intros H; split; [congruence|exact H]|tauto].
Qed.

Lemma cache_remove_cons key k v (c : cache_t) :
  cache_remove key ((k, v) :: c)
  = if String.eqb k key then cache_remove key c
    else (k, v) :: cache_remove key c.
Proof.
  unfold cache_remove. destruct (String.eqb k key) eqn:E.
  - apply filter_cons_False. cbn [fst]. rewrite E. intros [].
  - apply filter_cons_True. cbn [fst]. rewrite E. exact I.
Qed.

Lemma cache_get_remove_ne key other (c : cache_t) :
  other <> key -> cache_get other (cache_remove key c) = cache_get other c.
Proof.
  intros Hne. induction c as [|[k v] c IH]; [reflexivity|].
  rewrite cache_remove_cons. cbn [cache_get].
  destruct (String.eqb_spec k key) as [->|Hk].
  - destruct (String.eqb_spec key other); [congruence|exact IH].
  - cbn [cache_get]. now rewrite IH.
Qed.

Lemma cache_remove_keys key (c : cache_t) :
  (key ∉ cache_keys (cache_remove key c))
  /\ (cache_keys (cache_remove key c) `sublist_of` cache_keys c).
Proof.
  induction c as [|[k v] c [IH1 IH2]]; [split; [apply not_elem_of_nil|constructor]|].
  rewrite cache_remove_cons.
  destruct (String.eqb_spec k key) as [->|Hk].
  - split; [exact IH1|]. now apply sublist_cons.
  - split.
    + cbn [cache_keys map fst]. apply not_elem_of_cons. split; [congruence|exact IH1].
    + now apply sublist_skip.
Qed.

Lemma cache_remove_shorter key v (c : cache_t) :
  cache_get key c = Some v ->
  (length (cache_remove key c) < length c)%nat.
Proof.
  induction c as [|[k w] c IH]; [discriminate|].
  rewrite cache_remove_cons. cbn [cache_get].
  destruct (String.eqb k key).
  - intros _.
    assert (length (cache_remove key c) <= length c)%nat
      by apply length_filter.
    cbn [length]. lia.
  - intros H. specialize (IH H). cbn [length]. lia.
Qed.

(** X13.  [geocode] keeps the cache an LRU cache: no name occurs twice, there
    are never more than [maxsize] entries, and the name just looked up is
    the most recent entry, with the result that was returned. *)
Theorem cache_stays_well_formed svc location_name st :
  cache_wf (cache st) ->
  let '(r, st') := geocode svc location_name st in
  cache_wf (cache st')
  /\ exists rest, cache st' = (location_name, r) :: rest.
Proof.
  intros [Hnd Hlen]. unfold geocode.
  destruct (cache_get location_name (cache st)) as [v|] eqn:E.
  - split; [|eauto]. cbn [cache]. split.
    + cbn [cache_keys map fst]. apply NoDup_cons.
      destruct (cache_remove_keys location_name (cache st)) as [H1 H2].
      split; [exact H1|]. exact (sublist_NoDup _ _ Hnd H2).
    + pose proof (cache_remove_shorter _ _ _ E). cbn [length]. lia.
  - destruct (geocode_uncached _ _ _ _) as [r tr']. cbn [cache].
    split.
    + split.
      * unfold cache_keys. rewrite <- firstn_map.
        eapply sublist_NoDup; [|apply sublist_take].
        cbn [map fst]. apply NoDup_cons.
        split; [now apply cache_get_None|exact Hnd].
      * apply firstn_le_length.
    + change maxsize with (S 999). cbn [take firstn]. eauto.
Qed.

Lemma cache_stays_well_formed_from_empty :
  cache_wf (cache (mkState [] []))
  /\ let '(r, st') := geocode finds_nothing "Atlantis" (mkState [] []) in
     cache_wf (cache st')
     /\ exists rest, cache st' = ("Atlantis", r) :: rest.
Proof.
  assert (H : cache_wf (cache (mkState [] []))).
  { split; [apply NoDup_nil_2|cbn; unfold maxsize; lia]. }
  split; [exact H|].
  exact (cache_stays_well_formed finds_nothing "Atlantis" (mkState [] []) H).
Defined.

(** X14.  A call for one name leaves what the cache holds for every other
    name alone, as long as the call is a hit or the cache is not full. *)
Theorem cache_keeps_other_entries svc location_name other st :
  other <> location_name ->
  (length (cache st) < maxsize)%nat
  \/ cache_get location_name (cache st) <> None ->
  cache_get other (cache (geocode svc location_name st).2)
  = cache_get other (cache st).
Proof.
  intros Hne Hroom. unfold geocode.
  destruct (cache_get location_name (cache st)) as [v|] eqn:E.
  - cbn [snd cache cache_get].
    destruct (String.eqb_spec location_name other); [congruence|].
    now apply cache_get_remove_ne.
  - destruct Hroom as [Hroom|Hhit]; [|contradiction].
    destruct (geocode_uncached _ _ _ _) as [r tr']. cbn [snd cache].
    rewrite take_ge by (cbn [length]; lia).
    cbn [cache_get].
    destruct (String.eqb_spec location_name other); [congruence|reflexivity].
Qed.

Lemma cache_keeps_other_entries_atlantis :
  "London" <> "Atlantis"
  /\ ((length (cache (mkState [("London", Some (51.5, -0.12)%R)] []))
       < maxsize)%nat
      \/ cache_get "Atlantis"
           (cache (mkState [("London", Some (51.5, -0.12)%R)] [])) <> None)
  /\ cache_get "London"
       (cache (geocode finds_nothing "Atlantis"
                 (mkState [("London", Some (51.5, -0.12)%R)] [])).2)
     = cache_get "London"
         (cache (mkState [("London", Some (51.5, -0.12)%R)] [])).
Proof.
  assert (H1 : "London" <> "Atlantis") by discriminate.
  assert (H2 : (length (cache (mkState [("London", Some (51.5, -0.12)%R)] []))
                < maxsize)%nat
               \/ cache_get "Atlantis"
                    (cache (mkState [("London", Some (51.5, -0.12)%R)] []))
                  <> None).
  { left. cbn. unfold maxsize. lia. }
  split; [exact H1|]. split; [exact H2|].
  exact (cache_keeps_other_entries finds_nothing "Atlantis" "London"
           (mkState [("London", Some (51.5, -0.12)%R)] []) H1 H2).
Defined.

(** X15.  A miss on a full cache evicts the entry that was used least
    recently, the last one, and only that one: the new entry goes to the
    front of the others, and the evicted name is a miss afterwards. *)
Theorem cache_evicts_least_recent svc location_name st older k v :
  cache_wf (cache st) ->
  cache st = older ++ [(k, v)] ->
  length (cache st) = maxsize ->
  cache_get location_name (cache st) = None ->
  let '(r, st') := geocode svc location_name st in
  cache st' = (location_name, r) :: older
  /\ cache_get k (cache st') = None.
Proof.
  intros [Hnd _] Hc Hlen Hmiss. unfold geocode. rewrite Hmiss.
  destruct (geocode_uncached _ _ _ _) as [r tr']. cbn [cache].
  rewrite Hc in *. rewrite length_app in Hlen. cbn [length] in Hlen.
  assert (Htake : take maxsize ((location_name, r) :: older ++ [(k, v)])
                  = (location_name, r) :: older).
  { change ((location_name, r) :: older ++ [(k, v)])
      with (((location_name, r) :: older) ++ [(k, v)]).
    rewrite take_app_le by (cbn [length]; lia).
    apply take_ge. cbn [length]. lia. }
  rewrite Htake. split; [reflexivity|].
  apply cache_get_None. cbn [cache_keys map fst]. apply not_elem_of_cons.
  unfold cache_keys in Hnd. rewrite map_app in Hnd. cbn [map fst] in Hnd.
  apply NoDup_app in Hnd as (_ & Hdisj & _).
  split.
  - intros ->. apply cache_get_None in Hmiss. apply Hmiss.
    unfold cache_keys. rewrite map_app. apply elem_of_app. right.
    cbn. left.
  - intros Hin. apply (Hdisj k Hin). left.
Qed.

Lemma full_cache_shape :
  full_cache
  = map (fun i => (numbered_place i, None)) (seq 0 999)
      ++ [(numbered_place 999, None)].
Proof. reflexivity. Qed.

Lemma distinct_names_NoDup names :
  distinct_names names = true -> NoDup names.
Proof.
  induction names as [|n names IH]; cbn [distinct_names]; intros H.
  - apply NoDup_nil_2.
  - apply andb_prop in H as [Hn Hrest]. apply NoDup_cons.
    split; [|now apply IH].
    intros Hin. apply negb_true_iff in Hn.
    assert (existsb (String.eqb n) names = true); [|congruence].
    apply existsb_exists. exists n. split.
    + now apply list_elem_of_In.
    + apply String.eqb_refl.
Qed.

Lemma full_cache_wf : cache_wf full_cache.
Proof.
  split; [|unfold maxsize; vm_compute; lia].
  apply distinct_names_NoDup. vm_compute. reflexivity.
Qed.

Lemma cache_evicts_place_999 :
  cache_wf (cache (mkState full_cache []))
  /\ length (cache (mkState full_cache [])) = maxsize
  /\ cache_get "Atlantis" (cache (mkState full_cache [])) = None
  /\ let '(r, st') :=
       geocode finds_nothing "Atlantis" (mkState full_cache []) in
     cache st'
     = ("Atlantis", r)
         :: map (fun i => (numbered_place i, None)) (seq 0 999)
     /\ cache_get (numbered_place 999) (cache st') = None.
Proof.
  assert (H1 : cache_wf (cache (mkState full_cache []))) by exact full_cache_wf.
  assert (H2 : length (cache (mkState full_cache [])) = maxsize)
    by reflexivity.
  assert (H3 : cache_get "Atlantis" (cache (mkState full_cache [])) = None)
    by (vm_compute; reflexivity).
  split; [exact H1|]. split; [exact H2|]. split; [exact H3|].
  exact (cache_evicts_least_recent finds_nothing "Atlantis"
           (mkState full_cache []) _ _ _ H1 full_cache_shape H2 H3).
Defined.

End CacheFacts.
(** * Label visibility over the whole animation *)

Section LabelFacts.
Import Py RenderFlightSimple.
Local Open Scope Z_scope.

Lemma foldr_latest_spec (l : list (Z * bool)) frame :
  match foldr (latest_upto frame) None l with
  | Some kv =>
      In kv l /\ kv.1 <= frame
      /\ forall kv', In kv' l -> kv'.1 <= frame -> kv'.1 <= kv.1
  | None => forall kv', In kv' l -> frame < kv'.1
  end.
Proof.
  induction l as [|[k v] l IH]; cbn [foldr]; [intros kv' []|].
  unfold latest_upto at 1. cbn [fst].
  destruct (Z.leb_spec k frame) as [Hk|Hk].
  - destruct (foldr (latest_upto frame) None l) as [[k0 v0]|].
    + destruct IH as (Hin & Hle & Hmax). cbn [fst] in *.
      destruct (Z.ltb_spec k0 k) as [Hlt|Hge]; cbn [fst].
      * split; [now left|]. split; [exact Hk|].
        intros kv' [<-|Hin'] Hf; cbn [fst]; [lia|].
        specialize (Hmax kv' Hin' Hf). lia.
      * split; [now right|]. split; [exact Hle|].
        intros kv' [<-|Hin'] Hf; cbn [fst]; [lia|].
        now apply Hmax.
    + cbn [fst]. split; [now left|]. split; [exact Hk|].
      intros kv' [<-|Hin'] Hf; cbn [fst]; [lia|].
      specialize (IH kv' Hin'). lia.
  - destruct (foldr (latest_upto frame) None l) as [[k0 v0]|].
    + destruct IH as (Hin & Hle & Hmax).
      split; [now right|]. split; [exact Hle|].
      intros kv' [<-|Hin'] Hf; cbn [fst] in *; [lia|].
      now apply Hmax.
    + intros kv' [<-|Hin']; cbn [fst]; [lia|]. now apply IH.
Qed.

Lemma foldr_earliest_spec (l : list (Z * bool)) :
  match foldr earliest None l with
  | Some kv => In kv l /\ forall kv', In kv' l -> kv.1 <= kv'.1
  | None => l = []
  end.
Proof.
  induction l as [|[k v] l IH]; cbn [foldr]; [reflexivity|].
  unfold earliest at 1. cbn [fst].
  destruct (foldr earliest None l) as [[k0 v0]|].
  - destruct IH as (Hin & Hmin). cbn [fst] in *.
    destruct (Z.ltb_spec k k0) as [Hlt|Hge]; cbn [fst].
    + split; [now left|].
      intros kv' [<-|Hin']; cbn [fst]; [lia|].
      specialize (Hmin kv' Hin'). lia.
    + split; [now right|].
      intros kv' [<-|Hin']; cbn [fst]; [lia|]. now apply Hmin.
  - subst l. cbn [fst]. split; [now left|].
    intros kv' [<-|[]]. cbn [fst]. lia.
Qed.

Lemma in_map_to_list (fcurve : gmap Z bool) k v :
  In (k, v) (map_to_list fcurve) <-> fcurve !! k = Some v.
Proof. rewrite <- list_elem_of_In. apply elem_of_map_to_list. Qed.

(** The curve holds the value of the latest keyframe at or before the
    frame. *)
Lemma fcurve_eval_at (fcurve : gmap Z bool) frame k v :
  fcurve !! k = Some v -> k <= frame ->
  (forall k', k < k' <= frame -> fcurve !! k' = None) ->
  fcurve_eval fcurve frame = Some v.
Proof.
  intros Hk Hle Hgap. unfold fcurve_eval.
  pose proof (foldr_latest_spec (map_to_list fcurve) frame) as H.
  destruct (foldr (latest_upto frame) None (map_to_list fcurve))
    as [[k0 v0]|].
  - destruct H as (Hin & Hle0 & Hmax). cbn [fst snd] in *.
    apply in_map_to_list in Hin.
    specialize (Hmax (k, v) (proj2 (in_map_to_list _ _ _) Hk) Hle).
    cbn [fst] in Hmax.
    destruct (Z.eq_dec k0 k) as [->|Hne]; [congruence|].
    rewrite Hgap in Hin by lia. discriminate.
  - specialize (H (k, v) (proj2 (in_map_to_list _ _ _) Hk)).
    cbn [fst] in H. lia.
Qed.

(** Before its first keyframe the curve holds the value of that
    keyframe. *)
Lemma fcurve_eval_before (fcurve : gmap Z bool) frame k v :
  fcurve !! k = Some v -> frame < k ->
  (forall k', k' < k -> fcurve !! k' = None) ->
  fcurve_eval fcurve frame = Some v.
Proof.
  intros Hk Hlt Hfirst. unfold fcurve_eval.
  pose proof (foldr_latest_spec (map_to_list fcurve) frame) as H.
  destruct (foldr (latest_upto frame) None (map_to_list fcurve))
    as [[k0 v0]|].
  - destruct H as (Hin & Hle0 & _). cbn [fst] in *.
    apply in_map_to_list in Hin. rewrite Hfirst in Hin by lia.
    discriminate.
  - clear H.
    pose proof (foldr_earliest_spec (map_to_list fcurve)) as H.
    destruct (foldr earliest None (map_to_list fcurve)) as [[k0 v0]|].
    + destruct H as (Hin & Hmin). cbn [fst] in *.
      apply in_map_to_list in Hin.
      specialize (Hmin (k, v) (proj2 (in_map_to_list _ _ _) Hk)).
      cbn [fst] in Hmin.
      destruct (Z.eq_dec k0 k) as [->|Hne].
      * cbn. congruence.
      * rewrite Hfirst in Hin by lia. discriminate.
    + apply (proj2 (in_map_to_list _ _ _)) in Hk. rewrite H in Hk.
      destruct Hk.
Qed.

Ltac lookup_keys :=
  repeat first
    [ rewrite lookup_insert_eq
    | rewrite lookup_insert_ne by lia
    | rewrite lookup_empty ];
  try reflexivity.

(** X16.  A label of a waypoint that is not the last one, and whose segment
    ends before the last frame, is visible exactly on the frames of its
    segment: from [i * F + 1], the frame at which the aircraft leaves
    waypoint [i], to [(i + 1) * F].  The label of the first waypoint is
    also visible on whatever comes before frame 1. *)
Theorem label_visible_during_its_segment F total_segments frames i frame :
  1 <= F -> 0 <= i < total_segments -> (i + 1) * F < frames ->
  label_visible (animate_label F total_segments frames i) frame = true
  <-> (i = 0 \/ i * F < frame) /\ frame <= (i + 1) * F.
Proof.
  intros HF Hi Hend. unfold label_visible, animate_label.
  destruct (Z.ltb_spec i total_segments); [|lia].
  destruct (Z.ltb_spec ((i + 1) * F) frames); [|lia].
  assert (HiF : 0 <= i * F) by nia.
  assert (Hnext : (i + 1) * F = i * F + F) by ring.
  destruct (Z.ltb_spec 1 (i * F + 1)) as [Hpos|Hzero].
  - assert (i <> 0) by nia.
    replace (i * F + 1 - 1) with (i * F) by lia.
    destruct (Z.le_gt_cases frame (i * F)) as [Hbefore|Hafter].
    + assert (Hev : fcurve_eval
        (<[(i + 1) * F + 1 := true]>
           (<[i * F + 1 := false]>
              (<[i * F := true]> (∅ : gmap Z bool)))) frame
        = Some true).
      { destruct (Z.eq_dec frame (i * F)) as [->|Hne].
        - apply (fcurve_eval_at _ _ (i * F));
            [lookup_keys|lia|intros k' Hk'; first [lia | lookup_keys]].
        - apply (fcurve_eval_before _ _ (i * F));
            [lookup_keys|lia|intros k' Hk'; lookup_keys]. }
      rewrite Hev. cbn [negb]. split; [discriminate|lia].
    + destruct (Z.le_gt_cases frame ((i + 1) * F)) as [Hin|Hout].
      * rewrite (fcurve_eval_at _ _ (i * F + 1) false);
          [|lookup_keys|lia|intros k' Hk'; lookup_keys].
        cbn [negb]. split; [lia|reflexivity].
      * rewrite (fcurve_eval_at _ _ ((i + 1) * F + 1) true);
          [|lookup_keys|lia|intros k' Hk'; first [lia | lookup_keys]].
        cbn [negb]. split; [discriminate|lia].
  - assert (i = 0) as -> by nia.
    replace ((0 + 1) * F) with F in * by ring.
    replace (0 * F + 1) with 1 by ring.
    destruct (Z.le_gt_cases frame F) as [Hin|Hout].
    + assert (Hev : fcurve_eval
        (<[F + 1 := true]> (<[1 := false]> (∅ : gmap Z bool))) frame
        = Some false).
      { destruct (Z.le_gt_cases 1 frame).
        - apply (fcurve_eval_at _ _ 1);
            [lookup_keys|lia|intros k' Hk'; lookup_keys].
        - apply (fcurve_eval_before _ _ 1);
            [lookup_keys|lia|intros k' Hk'; lookup_keys]. }
      rewrite Hev. cbn [negb]. split; [lia|reflexivity].
    + rewrite (fcurve_eval_at _ _ (F + 1) true);
        [|lookup_keys|lia|intros k' Hk'; first [lia | lookup_keys]].
      cbn [negb]. split; [discriminate|lia].
Qed.

Lemma label_visible_during_its_segment_five_cities :
  1 <= 7 /\ 0 <= 1 < 4 /\ (1 + 1) * 7 < 30
  /\ (label_visible (animate_label 7 4 30 1) 10 = true
      <-> (1 = 0 \/ 1 * 7 < 10) /\ 10 <= (1 + 1) * 7).
Proof.
  assert (H1 : 1 <= 7) by lia.
  assert (H2 : 0 <= 1 < 4) by lia.
  assert (H3 : (1 + 1) * 7 < 30) by lia.
  split; [exact H1|]. split; [exact H2|]. split; [exact H3|].
  exact (label_visible_during_its_segment 7 4 30 1 10 H1 H2 H3).
Defined.

(** X17.  The label of the last waypoint is hidden up to the frame before it
    appears and visible from the frame [i * F + 1] on.  But when the
    animation ends on that hidden keyframe, at frame [i * F], the keyframe
    of the last frame replaces it, and the label is visible at every
    frame. *)
Theorem last_label_visibility F total_segments frames frame :
  1 <= F -> 1 <= total_segments -> total_segments * F <= frames ->
  label_visible (animate_label F total_segments frames total_segments) frame
  = true
  <-> total_segments * F < frame \/ frames = total_segments * F.
Proof.
  intros HF Hts Hend. unfold label_visible, animate_label.
  set (i := total_segments) in *.
  destruct (Z.ltb_spec i i); [lia|].
  assert (HiF : 1 <= i * F) by nia.
  destruct (Z.ltb_spec 1 (i * F + 1)); [|lia].
  replace (i * F + 1 - 1) with (i * F) by lia.
  destruct (Z.eq_dec frames (i * F)) as [Heq|Hne].
  - rewrite Heq.
    assert (Hev : fcurve_eval
      (<[i * F := false]>
         (<[i * F + 1 := false]>
            (<[i * F := true]> (∅ : gmap Z bool)))) frame
      = Some false).
    { destruct (Z.le_gt_cases frame (i * F)) as [Hb|Ha].
      - destruct (Z.eq_dec frame (i * F)) as [->|Hn].
        + apply (fcurve_eval_at _ _ (i * F));
            [lookup_keys|lia|intros k' Hk'; first [lia | lookup_keys]].
        + apply (fcurve_eval_before _ _ (i * F));
            [lookup_keys|lia|intros k' Hk'; lookup_keys].
      - apply (fcurve_eval_at _ _ (i * F + 1));
          [lookup_keys|lia|intros k' Hk'; first [lia | lookup_keys]]. }
    rewrite Hev. cbn [negb]. split; [auto|reflexivity].
  - destruct (Z.le_gt_cases frame (i * F)) as [Hb|Ha].
    + assert (Hev : fcurve_eval
        (<[frames := false]>
           (<[i * F + 1 := false]>
              (<[i * F := true]> (∅ : gmap Z bool)))) frame
        = Some true).
      { destruct (Z.eq_dec frame (i * F)) as [->|Hn].
        - apply (fcurve_eval_at _ _ (i * F));
            [lookup_keys|lia|intros k' Hk'; first [lia | lookup_keys]].
        - apply (fcurve_eval_before _ _ (i * F));
            [lookup_keys|lia|intros k' Hk'; lookup_keys]. }
      rewrite Hev. cbn [negb]. split; [discriminate|lia].
    + assert (Hev : fcurve_eval
        (<[frames := false]>
           (<[i * F + 1 := false]>
              (<[i * F := true]> (∅ : gmap Z bool)))) frame
        = Some false).
      { destruct (Z.le_gt_cases frames frame) as [Hl|Hl].
        - apply (fcurve_eval_at _ _ frames);
            [lookup_keys|lia|intros k' Hk'; first [lia | lookup_keys]].
        - apply (fcurve_eval_at _ _ (i * F + 1));
            [|lia|intros k' Hk'; lookup_keys].
          destruct (Z.eq_dec frames (i * F + 1)) as [->|Hn1];
            lookup_keys. }
      rewrite Hev. cbn [negb]. split; [auto|reflexivity].
Qed.

Lemma last_label_visibility_two_cities :
  1 <= 150 /\ 1 <= 1 /\ 1 * 150 <= 150
  /\ (label_visible (animate_label 150 1 150 1) 1 = true
      <-> 1 * 150 < 1 \/ 150 = 1 * 150).
Proof.
  assert (H1 : 1 <= 150) by lia.
  assert (H2 : 1 <= 1) by lia.
  assert (H3 : 1 * 150 <= 150) by lia.
  split; [exact H1|]. split; [exact H2|]. split; [exact H3|].
  exact (last_label_visibility 150 1 150 1 H1 H2 H3).
Defined.

End LabelFacts.
(** * The camera *)

Section CameraFacts.
Import Py Mathutils RenderFlightSimple.
Local Open Scope R_scope.

Lemma length_lt_iff v t :
  0 < t -> (Mathutils.length v < t <-> length_squared v < t * t).
Proof.
  intros Ht. unfold Mathutils.length.
  pose proof (length_squared_nonneg v) as H0.
  split; intros H.
  - destruct (Rlt_le_dec (length_squared v) (t * t)) as [Hlt|Hge];
      [exact Hlt|].
    apply sqrt_le_1_alt in Hge. rewrite sqrt_square in Hge by lra. lra.
  - rewrite <- (sqrt_square t) by lra. apply sqrt_lt_1_alt. lra.
Qed.

Lemma project_out_perp axis d :
  unit_vector d -> dot (project_out axis d) d = 0.
Proof.
  unfold unit_vector, length_squared, project_out, dot, sub, scale.
  cbn [vx vy vz]. intros Hd.
  replace ((vx axis - vx d * (vx axis * vx d + vy axis * vy d + vz axis * vz d))
             * vx d
           + (vy axis - vy d * (vx axis * vx d + vy axis * vy d + vz axis * vz d))
             * vy d
           + (vz axis - vz d * (vx axis * vx d + vy axis * vy d + vz axis * vz d))
             * vz d)
    with ((vx axis * vx d + vy axis * vy d + vz axis * vz d)
          * (1 - (vx d * vx d + vy d * vy d + vz d * vz d))) by ring.
  rewrite Hd. ring.
Qed.

Lemma project_out_length axis d :
  unit_vector d ->
  length_squared (project_out axis d)
  = length_squared axis - dot axis d ^ 2.
Proof.
  unfold unit_vector, length_squared, project_out, dot, sub, scale.
  cbn [vx vy vz]. intros Hd.
  set (s := vx axis * vx d + vy axis * vy d + vz axis * vz d).
  replace ((vx axis - vx d * s) * (vx axis - vx d * s)
           + (vy axis - vy d * s) * (vy axis - vy d * s)
           + (vz axis - vz d * s) * (vz axis - vz d * s))
    with ((vx axis * vx axis + vy axis * vy axis + vz axis * vz axis)
          - 2 * s * s
          + s * s * (vx d * vx d + vy d * vy d + vz d * vz d))
    by (unfold s; ring).
  rewrite Hd. ring.
Qed.

(** The direction the camera takes for "up" is perpendicular to the
    radial direction and not short: when north is too close to the radial
    direction, the first replacement is not. *)
Lemma projected_north_spec d :
  unit_vector d ->
  dot (projected_north d) d = 0
  /\ 1e-35 < length_squared (projected_north d).
Proof.
  intros Hd. unfold projected_north.
  pose proof (project_out_length (mkVector 0 1 0) d Hd) as Hy.
  pose proof (project_out_length (mkVector 1 0 0) d Hd) as Hx.
  unfold length_squared at 2, dot at 1 2 in Hy.
  unfold length_squared at 2, dot at 1 2 in Hx.
  cbn [vx vy vz] in Hy, Hx.
  pose proof Hd as Hd'. unfold unit_vector, length_squared, dot in Hd'.
  pose proof (pow2_ge_0 (vx d)). pose proof (pow2_ge_0 (vy d)).
  pose proof (pow2_ge_0 (vz d)).
  assert (Hsq : forall x : R, x * x = x ^ 2) by (intros; ring).
  rewrite !Hsq in Hd'.
  destruct (flt (Mathutils.length (project_out (mkVector 0 1 0) d)) 0.001)
    eqn:E1.
  - apply flt_true, length_lt_iff in E1; [|lra].
    assert (Hbig : 0.001 * 0.001
                   <= length_squared (project_out (mkVector 1 0 0) d)).
    { rewrite Hx. rewrite Hy in E1. nra. }
    assert (E2 : flt (Mathutils.length (project_out (mkVector 1 0 0) d))
                     0.001 = false).
    { apply flt_false.
      destruct (Rle_lt_dec 0.001
                  (Mathutils.length (project_out (mkVector 1 0 0) d)))
        as [Hle|Hlt]; [exact Hle|].
      apply length_lt_iff in Hlt; lra. }
    rewrite E2, E2.
    split; [now apply project_out_perp | lra].
  - apply flt_false in E1.
    split; [now apply project_out_perp|].
    destruct (Rlt_le_dec 1e-35
                (length_squared (project_out (mkVector 0 1 0) d)))
      as [Hlt|Hle]; [exact Hlt|].
    assert (Mathutils.length (project_out (mkVector 0 1 0) d) < 0.001);
      [|lra].
    apply length_lt_iff; lra.
Qed.

Lemma feq_length_unit v : unit_vector v -> feq (Mathutils.length v) 0 = false.
Proof. intros Hv. apply feq_false. rewrite (unit_length v Hv). lra. Qed.

Lemma fgt_length_unit v t :
  t < 1 -> unit_vector v -> fgt (Mathutils.length v) t = true.
Proof.
  intros Ht Hv. unfold fgt. apply flt_true. rewrite (unit_length v Hv).
  exact Ht.
Qed.

(** X18.  For every position of the aircraft away from the centre of the
    Earth, the camera is put 0.8 above the aircraft on the line from the
    centre through it, and looks straight down that line: its z axis is
    the radial direction.  Its three axes are unit vectors perpendicular
    to one another, right-handed, with the y axis along the direction of
    north projected on the ground (or of its replacement when the
    aircraft is over a pole). *)
Theorem camera_looks_down_at_aircraft plane_pos_eval :
  1e-35 < length_squared plane_pos_eval ->
  let d := normalized plane_pos_eval in
  let c := camera_pose plane_pos_eval in
  camera_location c = add plane_pos_eval (scale d 0.8)
  /\ cam_z_axis c = d
  /\ cam_y_axis c = normalized (projected_north d)
  /\ cam_x_axis c = cross (cam_y_axis c) (cam_z_axis c)
  /\ cam_z_axis c = cross (cam_x_axis c) (cam_y_axis c)
  /\ orthonormal_axes (cam_x_axis c) (cam_y_axis c) (cam_z_axis c).
Proof.
  intros Hp d c.
  destruct (normalized_big plane_pos_eval Hp) as [Hd _]. fold d in Hd.
  destruct (projected_north_spec d Hd) as [Hperp Hlong].
  destruct (normalized_big (projected_north d) Hlong) as [Hup Hupd].
  specialize (Hupd d Hperp).
  set (up := normalized (projected_north d)) in *.
  assert (Hfwd : sub plane_pos_eval (add plane_pos_eval (scale d 0.8))
                 = scale d (- 0.8)).
  { apply Vector_eq; unfold sub, add, scale; cbn [vx vy vz]; lra. }
  assert (Hfl : length_squared (scale d (- 0.8)) = 0.8 * 0.8).
  { rewrite length_squared_scale. unfold unit_vector in Hd. rewrite Hd.
    lra. }
  assert (Hflen : Mathutils.length (scale d (- 0.8)) = 0.8).
  { unfold Mathutils.length. rewrite Hfl. apply sqrt_square. lra. }
  assert (Hfn : normalized (scale d (- 0.8)) = neg d).
  { unfold normalized. rewrite Hflen, Hfl.
    destruct (Rlt_dec 1e-35 (0.8 * 0.8)); [|lra].
    apply Vector_eq; unfold scale, neg; cbn [vx vy vz]; lra. }
  assert (Hnn : neg (neg d) = d).
  { apply Vector_eq; unfold neg; cbn [vx vy vz]; lra. }
  assert (Hx : unit_vector (cross up d)) by now apply cross_unit.
  assert (Hy : cross d (cross up d) = up) by now apply cross_cross_l.
  assert (Hpose : c = mkCameraKey (add plane_pos_eval (scale d 0.8))
                                  (cross up d) up d).
  { unfold c, camera_pose. fold d.
    rewrite (feq_length_unit d Hd). fold up.
    rewrite (feq_length_unit up Hup).
    rewrite Hfwd.
    assert (Hg : fgt (Mathutils.length (scale d (- 0.8))) 0.0001 = true).
    { unfold fgt. apply flt_true. rewrite Hflen. lra. }
    rewrite Hg, Hfn, Hnn.
    rewrite (fgt_length_unit (cross up d) 0.0001 ltac:(lra) Hx).
    rewrite (normalized_unit _ Hx), Hy, (normalized_unit _ Hup).
    rewrite (feq_length_unit up Hup). reflexivity. }
  rewrite Hpose. cbn [camera_location cam_x_axis cam_y_axis cam_z_axis].
  split; [reflexivity|]. split; [reflexivity|]. split; [reflexivity|].
  split; [reflexivity|].
  split; [symmetry; apply cross_cross_r; [exact Hup|exact Hupd]|].
  unfold orthonormal_axes.
  split; [exact Hx|]. split; [exact Hup|]. split; [exact Hd|].
  split; [apply dot_cross_l|]. split; [exact Hupd|].
  rewrite dot_comm. apply dot_cross_r.
Qed.

Lemma camera_over_the_north_pole :
  1e-35 < length_squared (mkVector 0 0 1.02)
  /\ let d := normalized (mkVector 0 0 1.02) in
     let c := camera_pose (mkVector 0 0 1.02) in
     camera_location c = add (mkVector 0 0 1.02) (scale d 0.8)
     /\ cam_z_axis c = d
     /\ cam_y_axis c = normalized (projected_north d)
     /\ cam_x_axis c = cross (cam_y_axis c) (cam_z_axis c)
     /\ cam_z_axis c = cross (cam_x_axis c) (cam_y_axis c)
     /\ orthonormal_axes (cam_x_axis c) (cam_y_axis c) (cam_z_axis c).
Proof.
  assert (H : 1e-35 < length_squared (mkVector 0 0 1.02)).
  { unfold length_squared, dot. cbn [vx vy vz]. lra. }
  split; [exact H|].
  exact (camera_looks_down_at_aircraft (mkVector 0 0 1.02) H).
Defined.

End CameraFacts.
(** * The render size and the keyframes of the aircraft *)

Section RenderSize.
Import Py Renderer RenderFlightSimple.
Local Open Scope Z_scope.

Lemma lower_char_idempotent c : lower_char (lower_char c) = lower_char c.
Proof.
  destruct c as [b0 b1 b2 b3 b4 b5 b6 b7].
  destruct b0, b1, b2, b3, b4, b5, b6, b7; reflexivity.
Qed.

Lemma lower_idempotent s : lower (lower s) = lower s.
Proof.
  induction s as [|c s IH]; [reflexivity|].
  cbn [lower]. now rewrite lower_char_idempotent, IH.
Qed.

(** X20.  Whatever the configuration gives as quality, the script renders
    at one of the four sizes of its table, all of them upright, and the
    case of the letters of the quality makes no difference. *)
Theorem resolution_is_upright quality :
  In (resolution quality)
     [(480, 854); (720, 1280); (1080, 1920); (2160, 3840)]
  /\ (resolution quality).1 < (resolution quality).2
  /\ resolution (lower quality) = resolution quality.
Proof.
  assert (Hin : In (resolution quality)
                   [(480, 854); (720, 1280); (1080, 1920); (2160, 3840)]).
  { unfold resolution, resolution_table.
    destruct (_ !! lower quality) as [v|] eqn:E; cbn [default];
      [|right; now left].
    apply lookup_insert_Some in E as [[_ <-]|[_ E]]; [now left|].
    apply lookup_insert_Some in E as [[_ <-]|[_ E]]; [right; now left|].
    apply lookup_insert_Some in E as [[_ <-]|[_ E]];
      [right; right; now left|].
    apply lookup_insert_Some in E as [[_ <-]|[_ E]];
      [right; right; right; now left|].
    now rewrite lookup_empty in E. }
  split; [exact Hin|]. split.
  - destruct Hin as [<-|[<-|[<-|[<-|[]]]]]; cbn; lia.
  - unfold resolution. now rewrite lower_idempotent.
Qed.

(** X21.  The sizes the qualities of the API are rendered at: [720p],
    [1080p] and [4K] have their entry in the table of the script, the
    last one because the script lowers the case; [1440p] has none and is
    rendered at the size of [720p]. *)
Theorem api_quality_resolution q :
  resolution (quality_value q)
  = match q with
    | HD_720P => (720, 1280)
    | HD_1080P => (1080, 1920)
    | QHD_1440P => (720, 1280)
    | UHD_4K => (2160, 3840)
    end
  /\ (resolution_table !! quality_value q = None
      <-> q = QHD_1440P \/ q = UHD_4K).
Proof.
  destruct q; (split; [vm_compute; reflexivity|]);
    (split;
     [ intros H; first [ now left | now right | vm_compute in H; discriminate ]
     | intros [H|H]; try discriminate H; vm_compute; reflexivity ]).
Qed.

End RenderSize.

Section KeyframeFacts.
Import Py Mathutils RenderFlightSimple.
Local Open Scope Z_scope.

Lemma fold_animate_point_locations F frame_end i pts jps props kfs :
  (forall j p, In (j, p) jps -> sq_norm p = 1%R) ->
  Forall (fun kf => length_squared (kf_location kf) = (1.02 * 1.02)%R) kfs ->
  Forall (fun kf => length_squared (kf_location kf) = (1.02 * 1.02)%R)
         (fold_left (animate_point F frame_end i pts) jps (props, kfs)).2.
Proof.
  revert props kfs. induction jps as [|[j p] jps IH]; intros props kfs Hu Hk;
    cbn [fold_left]; [exact Hk|].
  assert (Hu' : forall j p, In (j, p) jps -> sq_norm p = 1%R)
    by (intros j' p' Hin; apply (Hu j'); now right).
  assert (Hp : length_squared (scale (of_tuple p) 1.02) = (1.02 * 1.02)%R).
  { rewrite length_squared_scale.
    assert (H1 : unit_vector (of_tuple p)).
    { apply unit_of_tuple. specialize (Hu j p (or_introl eq_refl)).
      now destruct p as [[x y] z]. }
    unfold unit_vector in H1. rewrite H1. lra. }
  unfold animate_point at 2.
  destruct (frame_end <? i * F + j + 1); [now apply IH|].
  destruct (j <? Z.of_nat (List.length pts) - 1).
  - destruct (orientation props p _) as [props' b].
    apply IH; [exact Hu'|]. apply Forall_app. split; [exact Hk|].
    constructor; [|constructor]. exact Hp.
  - apply IH; [exact Hu'|]. apply Forall_app. split; [exact Hk|].
    constructor; [|constructor]. exact Hp.
Qed.

Lemma animate_segments_locations F frame_end waypoints segments props out :
  animate_segments F frame_end waypoints segments props = Ok out ->
  Forall (Forall (fun kf =>
                    length_squared (kf_location kf) = (1.02 * 1.02)%R)) out.
Proof.
  revert props out. induction segments as [|i segments IH];
    intros props out; cbn [animate_segments].
  - intros [= <-]. constructor.
  - destruct (nth (Z.to_nat i) waypoints _) as [start_lat start_lon].
    destruct (nth (Z.to_nat (i + 1)) waypoints _) as [end_lat end_lon].
    destruct (great_circle_points _ _ _ _ _) as [pts|e] eqn:Hgcp;
      cbn [bind]; [|discriminate].
    pose proof (fold_animate_point_locations F frame_end i pts
                  (enumerate pts) props []) as Hk.
    destruct (fold_left _ _ _) as [props' kfs]. cbn [snd] in Hk.
    destruct (animate_segments _ _ _ _ props') as [rest|e] eqn:Hrest;
      cbn [bind]; [|discriminate].
    intros [= <-]. constructor; [|now apply (IH props')].
    apply Hk; [|constructor].
    intros j p Hin. apply in_combine_r in Hin.
    apply great_circle_points_unit in Hgcp.
    rewrite List.Forall_forall in Hgcp. now apply Hgcp.
Qed.

(** X22.  In every plan the script computes, each keyframe puts the
    aircraft at the distance 1.02 from the centre of the Earth, and each
    rotation it keys is an orthonormal basis. *)
Theorem keyframes_on_the_flight_sphere waypoints fps duration segs :
  animate_plane waypoints fps duration = Ok segs ->
  Forall (Forall (fun kf =>
            Mathutils.length (kf_location kf) = 1.02%R
            /\ forall b, kf_rotation kf = Some b -> orthonormal b)) segs.
Proof.
  intros H. apply animate_plane_inv in H as (_ & _ & H).
  pose proof (animate_segments_locations _ _ _ _ _ _ H) as Hl.
  pose proof (animate_segments_rotations _ _ _ _ _ _ H) as Hr.
  clear H. induction Hl as [|seg segs Hseg _ IH]; [constructor|].
  apply List.Forall_cons_iff in Hr as [Hrs Hr].
  constructor; [|exact (IH Hr)].
  clear IH Hr. induction Hseg as [|kf seg Hkf _ IH]; [constructor|].
  apply List.Forall_cons_iff in Hrs as [Hrk Hrs].
  constructor; [|exact (IH Hrs)].
  split; [|exact Hrk].
  unfold Mathutils.length. rewrite Hkf. apply sqrt_square. lra.
Qed.

Lemma keyframes_on_the_flight_sphere_two_cities :
  exists segs,
    animate_plane two_cities 30 5 = Ok segs
    /\ Forall (Forall (fun kf =>
                 Mathutils.length (kf_location kf) = 1.02%R
                 /\ forall b, kf_rotation kf = Some b -> orthonormal b))
              segs.
Proof.
  destruct (animate_plane_ok two_cities 30 5) as [segs H].
  - vm_compute. discriminate.
  - unfold Bpy.INT_MIN, Bpy.INT_MAX. lia.
  - unfold Bpy.INT_MIN, Bpy.INT_MAX. vm_compute. split; discriminate.
  - exists segs. split; [exact H|].
    exact (keyframes_on_the_flight_sphere two_cities 30 5 segs H).
Defined.

Lemma range_head n : 1 <= n -> exists tl, range n = 0 :: tl.
Proof.
  intros H. unfold range.
  replace (Z.to_nat n) with (S (Z.to_nat (n - 1))) by lia.
  cbn [seq map]. eauto.
Qed.

(** X23.  When the frames are fewer than twice the legs, every leg has a
    single frame and the interpolation is asked for no step: unless the
    first two waypoints pass the test for coinciding, the segment loop
    raises [ZeroDivisionError] on the first leg. *)
Theorem too_few_frames_divide_by_zero slat slon elat elon rest fps
    duration :
  let waypoints := (slat, slon) :: (elat, elon) :: rest in
  let total := total_frames fps duration in
  Bpy.INT_MIN <= fps <= Bpy.INT_MAX ->
  Bpy.INT_MIN <= total <= Bpy.INT_MAX ->
  total < 2 * (Z.of_nat (List.length waypoints) - 1) ->
  flt (Rabs (radians elat - radians slat)) 1e-10
  && flt (Rabs (radians elon - radians slon)) 1e-10 = false ->
  animate_plane waypoints fps duration = Raise ZeroDivisionError.
Proof.
  intros waypoints total Hfps Htot Hfew Hbr.
  unfold animate_plane, Bpy.set_frame_end, Bpy.int_property.
  fold total.
  destruct (Z.ltb_spec fps Bpy.INT_MIN); [lia|].
  destruct (Z.ltb_spec Bpy.INT_MAX fps); [lia|].
  cbn [orb bind].
  destruct (Z.ltb_spec total Bpy.INT_MIN); [lia|].
  destruct (Z.ltb_spec Bpy.INT_MAX total); [lia|].
  cbn [orb bind].
  set (ts := Z.of_nat (List.length waypoints) - 1) in *.
  assert (Hts : 1 <= ts) by (unfold ts, waypoints; cbn [List.length]; lia).
  assert (HF : num_gcp_steps (frames_per_segment total ts) = 0).
  { unfold num_gcp_steps, frames_per_segment.
    destruct (Z.ltb_spec 0 ts); [|lia].
    assert (total / ts < 2) by (apply Z.div_lt_upper_bound; lia).
    destruct (Z.eqb_spec (total / ts) 0); cbn [andb].
    - reflexivity.
    - destruct (Z.ltb_spec 0 (total / ts)); lia. }
  destruct (range_head ts Hts) as [tl ->].
  cbn [animate_segments]. unfold waypoints.
  change (Z.to_nat 0) with 0%nat. change (Z.to_nat (0 + 1)) with 1%nat.
  cbn [nth].
  rewrite HF, (great_circle_points_zero_steps _ _ _ _ Hbr).
  reflexivity.
Qed.

Lemma too_few_frames_three_cities :
  Bpy.INT_MIN <= 1 <= Bpy.INT_MAX
  /\ Bpy.INT_MIN <= total_frames 1 3 <= Bpy.INT_MAX
  /\ total_frames 1 3
     < 2 * (Z.of_nat (List.length [(0, 0); (0, 90); (0, 180)]%R) - 1)
  /\ flt (Rabs (radians 0 - radians 0)) 1e-10
     && flt (Rabs (radians 90 - radians 0)) 1e-10 = false
  /\ animate_plane [(0, 0); (0, 90); (0, 180)]%R 1 3
     = Raise ZeroDivisionError.
Proof.
  assert (H1 : Bpy.INT_MIN <= 1 <= Bpy.INT_MAX)
    by (unfold Bpy.INT_MIN, Bpy.INT_MAX; lia).
  assert (H2 : Bpy.INT_MIN <= total_frames 1 3 <= Bpy.INT_MAX)
    by (unfold Bpy.INT_MIN, Bpy.INT_MAX, total_frames; lia).
  assert (H3 : total_frames 1 3
               < 2 * (Z.of_nat (List.length [(0, 0); (0, 90); (0, 180)]%R) - 1))
    by (unfold total_frames; cbn [List.length]; lia).
  assert (H4 : flt (Rabs (radians 0 - radians 0)) 1e-10
               && flt (Rabs (radians 90 - radians 0)) 1e-10 = false).
  { apply andb_false_iff. right. apply flt_false.
    unfold radians. pose proof PI_RGT_0 as Hpi. pose proof PI2_1 as Hpi2.
    rewrite Rabs_pos_eq; lra. }
  split; [exact H1|]. split; [exact H2|]. split; [exact H3|].
  split; [exact H4|].
  exact (too_few_frames_divide_by_zero 0 0 0 90 [(0, 180)%R] 1 3
           H1 H2 H3 H4).
Defined.

Lemma gcp_point_zero slat slon elat elon d_sigma steps p :
  gcp_point slat slon elat elon d_sigma steps 0 = Ok p ->
  p = start_xyz slat slon.
Proof.
  intros H.
  destruct (Req_dec_T (IZR steps) 0) as [Hs|Hs].
  { unfold gcp_point, truediv in H.
    destruct (Req_dec_T (IZR steps) 0); [discriminate|contradiction]. }
  destruct (flt (Rabs d_sigma) 1e-10) eqn:E.
  { apply flt_true in E.
    rewrite (gcp_point_degenerate _ _ _ _ _ _ _ Hs E) in H. congruence. }
  destruct (Req_dec_T (sin d_sigma) 0) as [Hd|Hd].
  { unfold gcp_point, truediv in H.
    destruct (Req_dec_T (IZR steps) 0); [contradiction|]. cbn [bind] in H.
    rewrite E in H.
    destruct (Req_dec_T (sin d_sigma) 0); [discriminate|contradiction]. }
  rewrite (gcp_point_first _ _ _ _ _ _ Hs Hd) in H. congruence.
Qed.

Lemma great_circle_points_head slat slon elat elon steps pts :
  0 <= steps ->
  great_circle_points slat slon elat elon steps = Ok pts ->
  exists tl, pts = start_xyz (radians slat) (radians slon) :: tl.
Proof.
  intros Hs. unfold great_circle_points.
  destruct (range_head (steps + 1) ltac:(lia)) as [tl ->].
  destruct (_ && _).
  - intros [= <-]. cbn [map]. eauto.
  - cbn [mapM].
    destruct (gcp_point _ _ _ _ _ _ 0) as [p|e] eqn:E; cbn [bind];
      [|discriminate].
    destruct (mapM _ tl) as [ps|e]; cbn [bind]; [|discriminate].
    intros [= <-]. apply gcp_point_zero in E as ->. eauto.
Qed.

Lemma fold_animate_point_head F frame_end i pts jps props kf kfs :
  exists tl,
    (fold_left (animate_point F frame_end i pts) jps (props, kf :: kfs)).2
    = kf :: tl.
Proof.
  revert props kfs. induction jps as [|[j p] jps IH]; intros props kfs;
    cbn [fold_left]; [cbn; eauto|].
  unfold animate_point at 2.
  destruct (frame_end <? i * F + j + 1); [apply IH|].
  destruct (j <? Z.of_nat (List.length pts) - 1).
  - destruct (orientation props p _) as [props' b].
    rewrite <- app_comm_cons. apply IH.
  - rewrite <- app_comm_cons. apply IH.
Qed.

Lemma segment_first_keyframe F frame_end i p0 pts props :
  i * F + 1 <= frame_end ->
  exists kf tl,
    (fold_left (animate_point F frame_end i (p0 :: pts))
               (enumerate (p0 :: pts)) (props, [])).2
    = kf :: tl
    /\ kf_frame kf = i * F + 1
    /\ kf_location kf = scale (of_tuple p0) 1.02.
Proof.
  intros Hend. unfold enumerate. cbn [List.length seq map combine fold_left].
  unfold animate_point at 2. change (Z.of_nat 0) with 0.
  destruct (Z.ltb_spec frame_end (i * F + 0 + 1)); [lia|].
  destruct (0 <? _).
  - destruct (orientation props p0 _) as [props' b]. cbn [app].
    destruct (fold_animate_point_head F frame_end i (p0 :: pts)
                (combine (map Z.of_nat (seq 1 (List.length pts))) pts) props'
                (mkKeyframe (i * F + 0 + 1) (scale (of_tuple p0) 1.02)
                            (Some b)) [])
      as [tl ->].
    eexists _, _. split; [reflexivity|]. cbn [kf_frame kf_location].
    split; [lia|reflexivity].
  - cbn [app].
    destruct (fold_animate_point_head F frame_end i (p0 :: pts)
                (combine (map Z.of_nat (seq 1 (List.length pts))) pts) props
                (mkKeyframe (i * F + 0 + 1) (scale (of_tuple p0) 1.02)
                            None) [])
      as [tl ->].
    eexists _, _. split; [reflexivity|]. cbn [kf_frame kf_location].
    split; [lia|reflexivity].
Qed.

Lemma num_gcp_steps_nonneg F : 0 <= num_gcp_steps F.
Proof. unfold num_gcp_steps. lia. Qed.

Lemma animate_segments_first F frame_end waypoints segments props out :
  animate_segments F frame_end waypoints segments props = Ok out ->
  Forall2 (fun i kfs =>
             i * F + 1 <= frame_end ->
             exists kf tl,
               kfs = kf :: tl
               /\ kf_frame kf = i * F + 1
               /\ kf_location kf
                  = scale (of_tuple
                             (start_xyz
                                (radians (nth (Z.to_nat i) waypoints
                                              (0, 0)%R).1)
                                (radians (nth (Z.to_nat i) waypoints
                                              (0, 0)%R).2)))
                          1.02)
          segments out.
Proof.
  revert props out. induction segments as [|i segments IH];
    intros props out; cbn [animate_segments].
  - intros [= <-]. constructor.
  - destruct (nth (Z.to_nat i) waypoints _) as [start_lat start_lon]
      eqn:Hnth.
    destruct (nth (Z.to_nat (i + 1)) waypoints _) as [end_lat end_lon].
    destruct (great_circle_points _ _ _ _ _) as [pts|e] eqn:Hgcp;
      cbn [bind]; [|discriminate].
    apply great_circle_points_head in Hgcp as [tl ->];
      [|apply num_gcp_steps_nonneg].
    pose proof (segment_first_keyframe F frame_end i
                  (start_xyz (radians start_lat) (radians start_lon)) tl
                  props) as Hk.
    destruct (fold_left _ _ _) as [props' kfs]. cbn [snd] in Hk.
    destruct (animate_segments _ _ _ _ props') as [rest|e] eqn:Hrest;
      cbn [bind]; [|discriminate].
    intros [= <-]. constructor; [|now apply (IH props')].
    intros Hend. rewrite Hnth. cbn [fst snd]. exact (Hk Hend).
Qed.

Lemma label_over_start lat lon :
  add (scale (of_tuple (start_xyz (radians lat) (radians lon))) 1.02)
      (mkVector 0 0 0.05)
  = label_location lat lon.
Proof.
  unfold label_location, latlon_to_xyz, start_xyz, of_tuple, scale, add.
  cbn [vx vy vz]. apply Vector_eq; cbn [vx vy vz]; ring.
Qed.

Lemma lookup_nth_error {A} (l : list A) (i : nat) : l !! i = nth_error l i.
Proof.
  revert i. induction l as [|x l IH]; intros [|i]; cbn; auto.
Qed.

Lemma frames_per_segment_nonzero frames total_segments :
  1 <= total_segments -> frames_per_segment frames total_segments <> 0.
Proof.
  intros H. unfold frames_per_segment.
  destruct (Z.ltb_spec 0 total_segments); [|lia].
  destruct (Z.eqb_spec (frames / total_segments) 0); cbn [andb]; lia.
Qed.

(** X24.  Each leg starts where its label is: in a plan of the script,
    the first keyframe of leg [i] is at the frame [i * F + 1], the frame
    at which label [i] is keyed visible, and it puts the aircraft over
    waypoint [i], 0.05 under that label, as long as that frame is not
    after the last frame of the scene. *)
Theorem leg_starts_under_its_label waypoints fps duration segs (i : nat)
    lat lon :
  animate_plane waypoints fps duration = Ok segs ->
  nth_error waypoints i = Some (lat, lon) ->
  (S i < List.length waypoints)%nat ->
  let total := total_frames fps duration in
  let total_segments := Z.of_nat (List.length waypoints) - 1 in
  let F := frames_per_segment total total_segments in
  Z.of_nat i * F + 1 <= scene_frame_end total ->
  (exists label,
     nth_error (animate_labels (List.length waypoints) fps duration) i
     = Some label
     /\ label !! (Z.of_nat i * F + 1) = Some false)
  /\ exists kf tl,
       nth_error segs i = Some (kf :: tl)
       /\ kf_frame kf = Z.of_nat i * F + 1
       /\ add (kf_location kf) (mkVector 0 0 0.05) = label_location lat lon.
Proof.
  intros H Hw Hi total total_segments F Hend.
  apply animate_plane_inv in H as (_ & _ & H).
  fold total total_segments F in H.
  assert (HF : F <> 0)
    by (apply frames_per_segment_nonzero; unfold total_segments; lia).
  split.
  - exists (animate_label F total_segments total (Z.of_nat i)). split.
    + unfold animate_labels. fold total total_segments F.
      rewrite nth_error_map, nth_error_range by lia. reflexivity.
    + unfold animate_label.
      destruct (Z.of_nat i <? total_segments).
      * destruct (_ <? total).
        -- rewrite lookup_insert_ne by nia. apply lookup_insert_eq.
        -- rewrite lookup_insert.
           destruct (decide _); [reflexivity|apply lookup_insert_eq].
      * rewrite lookup_insert.
        destruct (decide _); [reflexivity|apply lookup_insert_eq].
  - pose proof (animate_segments_first _ _ _ _ _ _ H) as Hall.
    assert (Hr : range total_segments !! i = Some (Z.of_nat i)).
    { rewrite lookup_nth_error. apply nth_error_range.
      unfold total_segments. lia. }
    destruct (Forall2_lookup_l _ _ _ _ _ Hall Hr) as (kfs & Hk & Hkf).
    destruct (Hkf Hend) as (kf & tl & -> & Hframe & Hloc).
    exists kf, tl. rewrite <- lookup_nth_error. split; [exact Hk|].
    split; [exact Hframe|].
    rewrite Hloc, Nat2Z.id.
    rewrite (nth_error_nth _ _ _ Hw). cbn [fst snd].
    apply label_over_start.
Qed.

Lemma leg_starts_under_its_label_two_cities :
  exists segs,
    animate_plane two_cities 30 5 = Ok segs
    /\ nth_error two_cities 0 = Some (40.7, -74.0)%R
    /\ (1 < List.length two_cities)%nat
    /\ Z.of_nat 0
       * frames_per_segment (total_frames 30 5)
           (Z.of_nat (List.length two_cities) - 1) + 1
       <= scene_frame_end (total_frames 30 5)
    /\ (exists label,
          nth_error (animate_labels (List.length two_cities) 30 5) 0
          = Some label
          /\ label !! (Z.of_nat 0
                       * frames_per_segment (total_frames 30 5)
                           (Z.of_nat (List.length two_cities) - 1) + 1)
             = Some false)
    /\ exists kf tl,
         nth_error segs 0 = Some (kf :: tl)
         /\ kf_frame kf
            = Z.of_nat 0
              * frames_per_segment (total_frames 30 5)
                  (Z.of_nat (List.length two_cities) - 1) + 1
         /\ add (kf_location kf) (mkVector 0 0 0.05)
            = label_location 40.7 (-74.0).
Proof.
  destruct (animate_plane_ok two_cities 30 5) as [segs H].
  - vm_compute. discriminate.
  - unfold Bpy.INT_MIN, Bpy.INT_MAX. lia.
  - unfold Bpy.INT_MIN, Bpy.INT_MAX. vm_compute. split; discriminate.
  - assert (Hw : nth_error two_cities 0 = Some (40.7, -74.0)%R)
      by reflexivity.
    assert (Hi : (1 < List.length two_cities)%nat) by (simpl; lia).
    assert (Hend : Z.of_nat 0
                   * frames_per_segment (total_frames 30 5)
                       (Z.of_nat (List.length two_cities) - 1) + 1
                   <= scene_frame_end (total_frames 30 5))
      by (vm_compute; discriminate).
    exists segs. split; [exact H|]. split; [exact Hw|].
    split; [exact Hi|]. split; [exact Hend|].
    exact (leg_starts_under_its_label two_cities 30 5 segs 0 40.7 (-74.0)
             H Hw Hi Hend).
Defined.

End KeyframeFacts.
